(** * InfoCall: call origination, event correlation and call-state tracking

    A shallow embedding of the call subsystem of the InfoCall application
    (services/asterisk_service.py, services/call_service.py, models/call.py)
    and the properties of its state store, event handlers, pending
    correlation cache, keypad buffer, connection handshake and watchdogs.

    Conventions.
    - Python [str] is [string]; [None]-able values are [option].
    - Python dictionaries used as maps are stdpp [gmap]s.
    - A [datetime] is an integer number of microseconds (the resolution of
      [datetime]); [(a - b).total_seconds() > n] for an integer [n] is the
      comparison [n * 1000000 < a - b] on microseconds.
    - [datetime.now(UTC_TIMEZONE)] is an explicit argument of the function
      that reads the clock. *)

From stdpp Require Import gmap strings list fin_maps sorting.
From Stdlib Require Import ZArith Lia Ascii String.

Local Open Scope Z_scope.

(** ** Python helpers *)

Module Py.

(** [s in [a, b, ...]] for a list of strings. *)
Definition str_in (s : string) (l : list string) : bool :=
  existsb (String.eqb s) l.

(** Truth value of an optional string: [None] and [''] are falsy. *)
Definition truthy (o : option string) : bool :=
  match o with
  | Some s => negb (String.eqb s "")
  | None => false
  end.

(** [a or d] for an optional string [a] and a string [d]. *)
Definition or_default (a : option string) (d : string) : option string :=
  if truthy a then a else Some d.

(** [a if a is not None else b]. *)
Definition if_not_none {A} (a b : option A) : option A :=
  match a with
  | Some x => Some x
  | None => b
  end.

(** [timedelta.total_seconds() > secs], on microseconds. *)
Definition total_seconds_gt (delta_us secs : Z) : bool :=
  secs * 1000000 <? delta_us.

(** [o == s] for an optional string [o]. *)
Definition opt_is (o : option string) (s : string) : bool :=
  match o with
  | Some x => String.eqb x s
  | None => false
  end.

(** [str.lower()], on ASCII text: the letters A-Z are mapped to a-z and
    every other byte is kept. *)
Definition lower_ascii (c : Ascii.ascii) : Ascii.ascii :=
  let n := Ascii.N_of_ascii c in
  if ((65 <=? n) && (n <=? 90))%N then Ascii.ascii_of_N (n + 32) else c.

Fixpoint lower (s : string) : string :=
  match s with
  | EmptyString => EmptyString
  | String c s' => String (lower_ascii c) (lower s')
  end.

Fixpoint starts_with (sub s : string) : bool :=
  match sub, s with
  | EmptyString, _ => true
  | String a sub', String b s' =>
      if Ascii.eqb a b then starts_with sub' s' else false
  | String _ _, EmptyString => false
  end.

(** [sub in s] for strings. *)
Fixpoint contains (sub s : string) : bool :=
  starts_with sub s ||
  match s with
  | EmptyString => false
  | String _ s' => contains sub s'
  end.

End Py.

(** ** The call state store (asterisk_service.update_call_status) *)

Module CallStore.
Import Py.

(** One entry of [active_calls[campaign][phone]]. A dictionary that lacks
    ['finalized_in_memory'], ['action_id'] or ['uniqueid'] reads as
    [False], [None], [None] through [.get], which is what the fields
    hold here. *)
Record CallData := mkCallData {
  status : string;
  details : option string;
  timestamp : Z;
  action_id : option string;
  uniqueid : option string;
  finalized_in_memory : bool
}.

Definition status_hierarchy : list (string * Z) :=
  [ ("unknown", 0); ("pending", 1); ("waiting", 2); ("dialing", 10);
    ("ringing", 20); ("answered", 50); ("dtmf_received", 60);
    ("completed", 70); ("opted_out", 80);
    ("noanswer", 90); ("busy", 90); ("rejected", 90); ("aborted", 90) ].

Fixpoint hierarchy_get (h : list (string * Z)) (s : string) (dflt : Z) : Z :=
  match h with
  | [] => dflt
  | (k, v) :: h' => if String.eqb k s then v else hierarchy_get h' s dflt
  end.

(** [status_hierarchy.get(s, 0)] *)
Definition significance (s : string) : Z := hierarchy_get status_hierarchy s 0.

Definition final_statuses : list string :=
  ["completed"; "noanswer"; "busy"; "rejected"; "aborted"; "opted_out"].

Definition is_final (s : string) : bool := str_in s final_statuses.

(** [current_data.get('status', '')] for [current_data = {}] when the
    entry is absent. *)
Definition current_status_of (current_data : option CallData) : string :=
  match current_data with
  | Some d => status d
  | None => ""
  end.

Definition finalized_of (current_data : option CallData) : bool :=
  match current_data with
  | Some d => finalized_in_memory d
  | None => false
  end.

(** The chain that sets [allow_update] and [update_reason]. *)
Definition update_decision (is_already_finalized : bool)
    (current_status status : string) : bool * string :=
  let current_significance := significance current_status in
  let new_significance := significance status in
  if current_significance <? new_significance then
    (true, "Higher significance")
  else if String.eqb status current_status then
    (true, "Same status, updating details")
  else if str_in current_status ["dialing"; "ringing"]
          && negb (str_in status ["pending"; "waiting"; "unknown"]) then
    (true, "From transitional to non-transitional")
  else if is_already_finalized
          && str_in status ["completed"; "opted_out"; "aborted"]
          && (new_significance <? current_significance) then
    (true, "Definitive final state override")
  else if is_already_finalized
          && str_in status ["noanswer"; "busy"; "rejected"]
          && str_in current_status ["dialing"; "ringing"] then
    (true, "AMI final status override stuck status")
  else (false, "").

(** Which exit of [update_call_status] was taken (the log tags of the
    source). *)
Inductive outcome :=
| StatusResetWaiting
| StatusInitialSet
| StatusUpdated (update_reason : string)
| UpdateSkippedFinalized
| UpdateSkippedConditions.

(** The body of [update_call_status] for one (campaign, phone) entry:
    the exit taken and the entry afterwards. *)
Definition update_entry (current_data : option CallData) (new_status : string)
    (new_details new_action_id new_uniqueid : option string) (timestamp_utc : Z)
    : outcome * option CallData :=
  let current_status := current_status_of current_data in
  let is_already_finalized := finalized_of current_data in
  if String.eqb new_status "waiting" then
    (StatusResetWaiting,
     Some {| status := new_status;
             details := or_default new_details "Status manually reset";
             timestamp := timestamp_utc;
             action_id := if_not_none new_action_id (current_data ≫= action_id);
             uniqueid := if_not_none new_uniqueid (current_data ≫= uniqueid);
             finalized_in_memory := false |})
  else if String.eqb current_status "" then
    (StatusInitialSet,
     Some {| status := new_status;
             details := new_details;
             timestamp := timestamp_utc;
             action_id := new_action_id;
             uniqueid := new_uniqueid;
             finalized_in_memory := is_final new_status |})
  else
    let '(allow_update, update_reason) :=
      update_decision is_already_finalized current_status new_status in
    if is_already_finalized && negb allow_update then
      (UpdateSkippedFinalized, current_data)
    else if allow_update then
      (StatusUpdated update_reason,
       Some {| status := new_status;
               details := new_details;
               timestamp := timestamp_utc;
               action_id := if_not_none new_action_id (current_data ≫= action_id);
               uniqueid := if_not_none new_uniqueid (current_data ≫= uniqueid);
               finalized_in_memory := is_final new_status |})
    else (UpdateSkippedConditions, current_data).

(** The arguments of one call of [update_call_status] for a fixed
    (campaign, phone), with the clock reading it takes. *)
Record Update := mkUpdate {
  u_status : string;
  u_details : option string;
  u_action_id : option string;
  u_uniqueid : option string;
  u_now : Z
}.

Definition apply_update (current_data : option CallData) (u : Update)
    : outcome * option CallData :=
  update_entry current_data (u_status u) (u_details u) (u_action_id u)
               (u_uniqueid u) (u_now u).

(** The entry after a sequence of calls, oldest first. *)
Definition run (current_data : option CallData) (us : list Update)
    : option CallData :=
  foldl (fun c u => (apply_update c u).2) current_data us.

(** What every writer of the store keeps: a finalized entry holds a
    final status. *)
Definition well_formed (current_data : option CallData) : Prop :=
  ∀ d, current_data = Some d →
       finalized_in_memory d = true → is_final (status d) = true.

(** [active_calls.get(campaign, {}).get(phone)] *)
Definition get_call (active_calls : gmap string (gmap string CallData))
    (campaign_id phone_number : string) : option CallData :=
  active_calls !! campaign_id ≫= (.!! phone_number).

(** [update_call_status] on the whole store. The campaign dictionary is
    created when missing, before anything else. *)
Definition update_call_status (campaign_id_str phone_number new_status : string)
    (new_details new_action_id new_uniqueid : option string) (timestamp_utc : Z)
    (active_calls : gmap string (gmap string CallData))
    : outcome * gmap string (gmap string CallData) :=
  let calls := default ∅ (active_calls !! campaign_id_str) in
  let '(o, entry) :=
    update_entry (calls !! phone_number) new_status new_details
                 new_action_id new_uniqueid timestamp_utc in
  (o, match entry with
      | Some d => <[campaign_id_str := <[phone_number := d]> calls]> active_calls
      | None => <[campaign_id_str := calls]> active_calls
      end).

(** [is_call_complete(phone, campaign_id)] *)
Definition is_call_complete (phone campaign_id_str : string)
    (active_calls : gmap string (gmap string CallData)) : bool :=
  match active_calls !! campaign_id_str with
  | None => true
  | Some calls =>
      match calls !! phone with
      | None => true
      | Some d => is_final (status d) || finalized_in_memory d
      end
  end.

End CallStore.

(** ** Hangup, keypad and pending-correlation handling (call_service.py) *)

Module Hangup.
Import Py CallStore.

(** The [if/elif] chain of the ['Hangup'] branch of
    [direct_event_handler_with_optout]: [(final_status, details)]. *)
Definition hangup_final_status (current_status_in_memory : option string)
    (cause : string) : string * string :=
  if opt_is current_status_in_memory "opted_out" then
    ("opted_out", "Member opted out (0# pressed)")
  else if opt_is current_status_in_memory "aborted" then
    ("aborted", "Call aborted by admin")
  else if contains "user busy" (lower cause) then
    ("busy", "Line busy: " +:+ cause)
  else if contains "no answer" (lower cause) || contains "timeout" (lower cause) then
    ("noanswer", "No answer/timeout: " +:+ cause)
  else if contains "rejected" (lower cause) || contains "congestion" (lower cause)
          || contains "unallocated" (lower cause) then
    ("rejected", "Call rejected/failed: " +:+ cause)
  else
    ("completed", "Call completed: " +:+ cause).

(** The ['Hangup'] branch, once the event is attributed to
    [(campaign_id, phone_number)]. [event] is the parsed key/value block. *)
Definition handle_hangup (campaign_id phone_number : string)
    (event : gmap string string) (now : Z)
    (active_calls : gmap string (gmap string CallData))
    : outcome * gmap string (gmap string CallData) :=
  let cause := default "Unknown" (event !! "Cause-txt") in
  let current_status_in_memory :=
    status <$> get_call active_calls campaign_id phone_number in
  let '(final_status, details) :=
    hangup_final_status current_status_in_memory cause in
  update_call_status campaign_id phone_number final_status (Some details)
    (event !! "ActionID") (event !! "Uniqueid") now active_calls.

(** The ['Newstate'] branch. *)
Definition handle_newstate (campaign_id phone_number : string)
    (event : gmap string string) (now : Z)
    (active_calls : gmap string (gmap string CallData))
    : gmap string (gmap string CallData) :=
  if opt_is (event !! "ChannelStateDesc") "Ringing" then
    (update_call_status campaign_id phone_number "ringing"
       (Some "Phone is ringing") (event !! "ActionID") (event !! "Uniqueid")
       now active_calls).2
  else if opt_is (event !! "ChannelStateDesc") "Up" then
    (update_call_status campaign_id phone_number "answered"
       (Some "Call answered") (event !! "ActionID") (event !! "Uniqueid")
       now active_calls).2
  else active_calls.

End Hangup.

Module Pending.
Import Py.

(** One entry of [pending_correlations]. *)
Record PendingCall := mkPendingCall {
  campaign_id : string;
  action_id : string;
  timestamp : Z
}.

Definition register_pending_call (phone_number campaign action : string)
    (now : Z) (pending_correlations : gmap string PendingCall)
    : gmap string PendingCall :=
  <[phone_number := {| campaign_id := campaign; action_id := action;
                       timestamp := now |}]> pending_correlations.

(** [get_pending_campaign]: the value returned and the cache afterwards
    (an entry found too old is deleted). *)
Definition get_pending_campaign (phone_number : string) (now : Z)
    (pending_correlations : gmap string PendingCall)
    : option string * gmap string PendingCall :=
  match pending_correlations !! phone_number with
  | Some pending =>
      if total_seconds_gt (now - timestamp pending) 120 then
        (None, delete phone_number pending_correlations)
      else (Some (campaign_id pending), pending_correlations)
  | None => (None, pending_correlations)
  end.

Definition clear_pending_call (phone_number : string)
    (pending_correlations : gmap string PendingCall)
    : gmap string PendingCall :=
  delete phone_number pending_correlations.

End Pending.

Module Dtmf.
Import Py CallStore.

(** One entry of [_dtmf_state_buffer]. *)
Record DtmfState := mkDtmfState {
  buffer : string;
  timestamp : option Z
}.

(** A row of the [members] table, as far as the handler touches it.
    The column [remove_from_call] can hold NULL, which is [None]. *)
Record MemberRow := mkMemberRow {
  id : Z;
  phone_number : string;
  remove_from_call : option Z
}.

(** How the persistence layer behaves during one event: it works, or the
    [SELECT] raises, or the [UPDATE] raises. *)
Inductive db_behaviour := DbWorks | SelectRaises | UpdateRaises.

(** One call of [update_call_status] made by a handler. *)
Record StatusPush := mkStatusPush {
  push_status : string;
  push_details : string
}.

Definition DTMF_TIMEOUT_SECONDS : Z := 2.

(** The buffer after the digit is taken in: reset when there is no
    previous digit or the gap is above the timeout, appended otherwise. *)
Definition accumulate (current_dtmf_state : DtmfState) (digit : string)
    (dtmf_timestamp : Z) : DtmfState :=
  match timestamp current_dtmf_state with
  | Some t =>
      if total_seconds_gt (dtmf_timestamp - t) DTMF_TIMEOUT_SECONDS then
        {| buffer := digit; timestamp := Some dtmf_timestamp |}
      else
        {| buffer := buffer current_dtmf_state +:+ digit;
           timestamp := Some dtmf_timestamp |}
  | None => {| buffer := digit; timestamp := Some dtmf_timestamp |}
  end.

(** [SELECT id FROM members WHERE phone_number = %s] and [fetchone()]. *)
Fixpoint select_member_id (members : list MemberRow) (phone : string)
    : option Z :=
  match members with
  | [] => None
  | m :: members' =>
      if String.eqb (phone_number m) phone then Some (id m)
      else select_member_id members' phone
  end.

(** [UPDATE members SET remove_from_call = %s WHERE id = %s] *)
Definition update_remove_from_call_status (member_id status : Z)
    (members : list MemberRow) : list MemberRow :=
  map (fun m => if id m =? member_id
                then {| id := id m; phone_number := phone_number m;
                        remove_from_call := Some status |}
                else m) members.

(** The state the ['DTMFEnd'] branch works on, and the calls of
    [update_call_status] it made, oldest first. *)
Record World := mkWorld {
  active_calls : gmap string (gmap string CallData);
  dtmf_state_buffer : gmap string DtmfState;
  members : list MemberRow;
  pushes : list StatusPush
}.

Definition push (campaign_id phone : string) (st details : string)
    (event_actionid event_uniqueid : option string) (now : Z) (w : World)
    : World :=
  {| active_calls :=
       (update_call_status campaign_id phone st (Some details)
          event_actionid event_uniqueid now (active_calls w)).2;
     dtmf_state_buffer := dtmf_state_buffer w;
     members := members w;
     pushes := pushes w ++ [ {| push_status := st; push_details := details |} ] |}.

(** The ['DTMFEnd'] branch of [direct_event_handler_with_optout], once the
    event is attributed to [(campaign_id, phone)]. The store entries
    written during the event carry the one clock reading [dtmf_timestamp]. *)
Definition handle_dtmf (campaign_id phone digit : string)
    (event_actionid event_uniqueid : option string) (dtmf_timestamp : Z)
    (db : db_behaviour) (w : World) : World :=
  let w1 := push campaign_id phone "dtmf_received" ("Pressed " +:+ digit)
                 event_actionid event_uniqueid dtmf_timestamp w in
  let current_dtmf_state :=
    accumulate (default {| buffer := ""; timestamp := None |}
                        (dtmf_state_buffer w1 !! phone))
               digit dtmf_timestamp in
  let w2 := {| active_calls := active_calls w1;
               dtmf_state_buffer :=
                 <[phone := current_dtmf_state]> (dtmf_state_buffer w1);
               members := members w1;
               pushes := pushes w1 |} in
  if String.eqb (buffer current_dtmf_state) "0#" then
    match db with
    | SelectRaises => w2
    | _ =>
        match select_member_id (members w2) phone with
        | Some member_id =>
            if member_id =? 0 then w2
            else
              match db with
              | UpdateRaises => w2
              | _ =>
                  let w3 := {| active_calls := active_calls w2;
                               dtmf_state_buffer := dtmf_state_buffer w2;
                               members := update_remove_from_call_status
                                            member_id 1 (members w2);
                               pushes := pushes w2 |} in
                  let w4 := push campaign_id phone "opted_out"
                                 "Member pressed 0# to opt out"
                                 event_actionid event_uniqueid dtmf_timestamp w3 in
                  {| active_calls := active_calls w4;
                     dtmf_state_buffer :=
                       <[phone := {| buffer := "";
                                     timestamp := timestamp current_dtmf_state |}]>
                         (dtmf_state_buffer w4);
                     members := members w4;
                     pushes := pushes w4 |}
              end
        | None => w2
        end
    end
  else w2.

(** The two pushes the branch can make. *)
Definition received (digit : string) : StatusPush :=
  {| push_status := "dtmf_received"; push_details := "Pressed " +:+ digit |}.

Definition opted : StatusPush :=
  {| push_status := "opted_out";
     push_details := "Member pressed 0# to opt out" |}.

(** [_dtmf_state_buffer.get(phone, {'buffer': '', 'timestamp': None})] *)
Definition buffer_before (w : World) (phone : string) : DtmfState :=
  default {| buffer := ""; timestamp := None |} (dtmf_state_buffer w !! phone).

(** The number of opt-out transitions among the pushes. *)
Definition count_opted_out (l : list StatusPush) : nat :=
  List.length (filter (fun p => push_status p = "opted_out") l).

End Dtmf.

(** ** Persisted campaigns (models/call.py) *)

Module Campaigns.
Import Py.

(** A row of [scheduled_calls]. *)
Record CallRow := mkCallRow {
  announcement_id : Z;
  scheduled_datetime : Z;
  group_filter : option Z;
  caller_id_name : string;
  status : string;
  details : option string
}.

Definition set_status (r : CallRow) (s : string) : CallRow :=
  {| announcement_id := announcement_id r;
     scheduled_datetime := scheduled_datetime r;
     group_filter := group_filter r;
     caller_id_name := caller_id_name r;
     status := s;
     details := details r |}.

Definition set_status_details (r : CallRow) (s d : string) : CallRow :=
  {| announcement_id := announcement_id r;
     scheduled_datetime := scheduled_datetime r;
     group_filter := group_filter r;
     caller_id_name := caller_id_name r;
     status := s;
     details := Some d |}.

(** Whether the [UPDATE] changed a column of the row. *)
Definition row_changed (r r' : CallRow) : bool :=
  negb (String.eqb (status r) (status r')
        && bool_decide (details r = details r')).

(** [Call.update_status(call_id, status, details)]: one [UPDATE ... WHERE
    id = %s] followed by a commit; the value returned is [cursor.rowcount
    > 0]. [found_rows] is the connection's CLIENT_FOUND_ROWS flag: when it
    is off (the connector's default; utils/db.py sets no client flags)
    [rowcount] counts the rows the statement changed, when it is on the
    rows the [WHERE] clause matched. *)
Definition update_status (found_rows : bool) (call_id : Z)
    (new_status : string) (new_details : option string)
    (scheduled_calls : gmap Z CallRow) : bool * gmap Z CallRow :=
  match scheduled_calls !! call_id with
  | None => (false, scheduled_calls)
  | Some r =>
      let r' := match new_details with
                | Some d => if truthy new_details
                            then set_status_details r new_status d
                            else set_status r new_status
                | None => set_status r new_status
                end in
      (found_rows || row_changed r r', <[call_id := r']> scheduled_calls)
  end.

(** [ORDER BY scheduled_datetime ASC] on (id, scheduled time) pairs. *)
Definition earlier (a b : Z * Z) : Prop := a.2 ≤ b.2.

#[global] Instance earlier_dec : RelDecision earlier.
Proof. intros a b. unfold earlier. apply _. Defined.

(** [Call.get_by_id(call_id)]: the row joined with its announcement;
    [None] when there is no such row (or the query raised, which the
    method swallows). *)
Definition get_by_id (announcements : gset Z) (call_id : Z)
    (scheduled_calls : gmap Z CallRow) : option CallRow :=
  match scheduled_calls !! call_id with
  | Some r => if bool_decide (announcement_id r ∈ announcements)
              then Some r else None
  | None => None
  end.

(** [Call.get_pending_calls_for_scheduling(now_utc)]: the ids of the rows
    due and pending, by ascending scheduled time. *)
Definition get_pending_calls_for_scheduling (now_utc : Z)
    (scheduled_calls : gmap Z CallRow) : list Z :=
  (merge_sort earlier
     ((fun kv => (kv.1, scheduled_datetime kv.2)) <$>
      filter (fun kv => bool_decide (scheduled_datetime kv.2 ≤ now_utc)
                        && String.eqb (status kv.2) "pending")
             (map_to_list scheduled_calls))).*1.

(** The promotion loop of [scheduled_call_checker] over the rows it
    fetched: the campaigns for which an execution thread is started, and
    the table afterwards. *)
Fixpoint promote (found_rows : bool) (ready_calls : list Z)
    (scheduled_calls : gmap Z CallRow) : list Z * gmap Z CallRow :=
  match ready_calls with
  | [] => ([], scheduled_calls)
  | call_id :: rest =>
      let '(ok, t1) := update_status found_rows call_id "ready"
                         (Some "Ready for execution") scheduled_calls in
      let '(spawned, t2) := promote found_rows rest t1 in
      (if ok then call_id :: spawned else spawned, t2)
  end.

(** The first status write of [auto_execute_call]. *)
Definition execution_started (found_rows : bool) (call_id : Z)
    (scheduled_calls : gmap Z CallRow) : bool * gmap Z CallRow :=
  update_status found_rows call_id "in_progress" (Some "Execution started")
    scheduled_calls.

End Campaigns.

(** ** The per-campaign dial loop (call_service.auto_execute_call) *)

Module DialLoop.
Import Py CallStore.

(** A row of [Member.get_members_for_call]. *)
Record Member := mkMember {
  member_id : Z;
  phone_number : string
}.

(** Where an exception is raised inside the [try] of the loop body, when
    one is: before the ['dialing'] entry is stored, or after it. *)
Inductive raise_point := RaisesBeforeStore | RaisesAfterStore.

(** What the surroundings answer during one pass of the loop body. *)
Record Pass := mkPass {
  campaign_status : option string; (* status of Call.get_by_id, None: no row *)
  client_connected : bool;         (* ami_client_instance and .connected *)
  initialize_ok : bool;            (* initialize_ami_client() *)
  fresh_action_id : string;        (* str(uuid.uuid4()) *)
  client_present : bool;           (* ami_client_instance at the send *)
  send_action_ok : bool;           (* send_action('Originate', ...) *)
  raises : option raise_point;
  error_text : string;             (* str(call_err) *)
  now : Z
}.

Inductive control := Break | Next.

Record LoopState := mkLoopState {
  active_calls : gmap string (gmap string CallData);
  pending_correlations : gmap string Pending.PendingCall
}.

(** The [except Exception as call_err] handler of the loop body. *)
Definition on_call_error (campaign_id : string) (member : Member) (e : Pass)
    (st : LoopState) : LoopState :=
  if truthy (Some (phone_number member)) then
    {| active_calls :=
         (update_call_status campaign_id (phone_number member) "rejected"
            (Some ("Error: " +:+ error_text e)) None None (now e)
            (active_calls st)).2;
       pending_correlations := pending_correlations st |}
  else st.

(** One pass of [for member in members] in [auto_execute_call]. *)
Definition dial_member (campaign_id : string) (member : Member) (e : Pass)
    (st : LoopState) : control * LoopState :=
  match raises e with
  | Some RaisesBeforeStore => (Next, on_call_error campaign_id member e st)
  | _ =>
    let current_campaign_status := default "unknown" (campaign_status e) in
    if String.eqb current_campaign_status "cancelled" then (Break, st)
    else if negb (String.eqb current_campaign_status "in_progress") then (Break, st)
    else if negb (client_connected e) && negb (initialize_ok e) then (Break, st)
    else
      let action_id := fresh_action_id e in
      let pc := Pending.register_pending_call (phone_number member) campaign_id
                  action_id (now e) (pending_correlations st) in
      let calls := default ∅ (active_calls st !! campaign_id) in
      let ac := <[campaign_id :=
                    <[phone_number member :=
                        {| status := "dialing";
                           details := Some "Auto-initiated";
                           timestamp := now e;
                           CallStore.action_id := Some action_id;
                           uniqueid := None;
                           finalized_in_memory := false |}]> calls]>
                  (active_calls st) in
      let st1 := {| active_calls := ac; pending_correlations := pc |} in
      match raises e with
      | Some RaisesAfterStore => (Next, on_call_error campaign_id member e st1)
      | _ =>
        if client_present e then
          if send_action_ok e then (Next, st1)
          else
            (Next,
             {| active_calls :=
                  (update_call_status campaign_id (phone_number member)
                     "rejected" (Some "Failed AMI originate")
                     (Some action_id) None (now e) ac).2;
                pending_correlations := pc |})
        else
          (Next,
           {| active_calls :=
                (update_call_status campaign_id (phone_number member)
                   "rejected" (Some "AMI client unavailable")
                   (Some action_id) None (now e) ac).2;
              pending_correlations := pc |})
      end
  end.

(** Whether the pass got as far as the origination: no exception before
    the store, the campaign still in progress and a client at hand. *)
Definition reaches_originate (e : Pass) : bool :=
  match raises e with
  | Some RaisesBeforeStore => false
  | _ =>
      String.eqb (default "unknown" (campaign_status e)) "in_progress"
      && (client_connected e || initialize_ok e)
  end.

(** The loop over the members, each with what its pass meets. *)
Fixpoint dial_loop (campaign_id : string) (work : list (Member * Pass))
    (st : LoopState) : LoopState :=
  match work with
  | [] => st
  | (member, e) :: rest =>
      match dial_member campaign_id member e st with
      | (Break, st') => st'
      | (Next, st') => dial_loop campaign_id rest st'
      end
  end.

End DialLoop.

(** ** The control-channel handshake (SocketAMIClient.connect) *)

Module Ami.
Import Py.

(** The exceptions that can come up during [connect]. [SocketTimeout],
    [ConnectionRefusedError] and [ConnectionError] are [OSError]s in
    Python and are caught by the first [except] clause; [ValueError],
    [OverflowError] and [OtherException] by the second. *)
Inductive exn :=
| SocketTimeout
| ConnectionRefusedError
| OSError
| ConnectionError (msg : string)
| ValueError
| OverflowError
| OtherException.

(** A running computation ends with a value or with an exception, or it
    does not end: [Blocked] in a blocking call that is not answered and
    has no timeout, [Unfinished] in a loop that is still turning when the
    turns that are followed have been used up. *)
Inductive res (A : Type) :=
| Val (a : A)
| Exc (e : exn)
| Blocked
| Unfinished.
Arguments Val {A} a.
Arguments Exc {A} e.
Arguments Blocked {A}.
Arguments Unfinished {A}.

(** The socket object: its timeout in seconds, [None] for blocking mode. *)
Record Socket := mkSocket { sock_timeout : option Z }.

(** What the peer answers to a [recv]: data after a delay in
    milliseconds ([""] is an orderly close), a reset connection, or
    nothing at all. *)
Inductive recv_answer :=
| Sends (delay_ms : Z) (data : string)
| Resets
| Silent.

Inductive connect_answer :=
| Accepts (delay_ms : Z)
| Refuses
| Unreachable.

(** What the peer does during one connection attempt: its answer to the
    connection, its answers to the reads, one after the other and without
    end, and whether it takes what is sent to it. *)
Record Peer := mkPeer {
  on_connect : connect_answer;
  incoming : nat → recv_answer;
  accepts_send : bool
}.

(** The answers of [first], in order, then [after] for ever. *)
Definition script (first : list recv_answer) (after : recv_answer)
    : nat → recv_answer :=
  fun n => nth n first after.

(** What the client did on the socket and the clock, with the timeout in
    force at each call on the socket that can block. *)
Inductive io_event :=
| EvSettimeout (t : option Z)
| EvConnect (t : option Z)
| EvRecv (t : option Z)
| EvSend (t : option Z)
| EvSleep (secs : Z)
| EvClose.

Record State := mkState {
  connected : bool;
  socket : option Socket;
  listener_started : bool;
  answers : nat → recv_answer;   (* what the peer of the socket says *)
  taken : nat;                   (* how many of its answers have been read *)
  log : list io_event            (* oldest first *)
}.

(** What the peer still has to say, the next answer first. *)
Definition unread (st : State) (n : nat) : recv_answer :=
  answers st (taken st + n)%nat.

Definition M (A : Type) : Type := State → res A * State.

#[global] Instance M_ret : MRet M := fun A a st => (Val a, st).
#[global] Instance M_bind : MBind M := fun A B f m st =>
  match m st with
  | (Val a, st') => f a st'
  | (Exc e, st') => (Exc e, st')
  | (Blocked, st') => (Blocked, st')
  | (Unfinished, st') => (Unfinished, st')
  end.

Definition raise {A} (e : exn) : M A := fun st => (Exc e, st).

(** [try: body except ...: handler]; a body that does not end is not
    handled. *)
Definition try_except {A} (body : M A) (handler : exn → M A) : M A :=
  fun st =>
    match body st with
    | (Exc e, st') => handler e st'
    | r => r
    end.

Definition emit (ev : io_event) : M unit := fun st =>
  (Val (), {| connected := connected st; socket := socket st;
              listener_started := listener_started st;
              answers := answers st; taken := taken st;
              log := log st ++ [ev] |}).

Definition get_state : M State := fun st => (Val st, st).

Definition set_socket (s : option Socket) : M unit := fun st =>
  (Val (), {| connected := connected st; socket := s;
              listener_started := listener_started st;
              answers := answers st; taken := taken st; log := log st |}).

(** The socket is connected to a peer that will say [inc]. *)
Definition attach (inc : nat → recv_answer) : M unit := fun st =>
  (Val (), {| connected := connected st; socket := socket st;
              listener_started := listener_started st;
              answers := inc; taken := 0; log := log st |}).

Definition set_connected (b : bool) : M unit := fun st =>
  (Val (), {| connected := b; socket := socket st;
              listener_started := listener_started st;
              answers := answers st; taken := taken st; log := log st |}).

Definition start_listener : M unit := fun st =>
  (Val (), {| connected := connected st; socket := socket st;
              listener_started := true;
              answers := answers st; taken := taken st; log := log st |}).

Definition current_timeout (st : State) : option Z :=
  socket st ≫= sock_timeout.

(** [self.socket.settimeout(t)] *)
Definition settimeout (t : option Z) : M unit :=
  set_socket (Some {| sock_timeout := t |});;
  emit (EvSettimeout t).

(** Whether a wait of [delay_ms] outlasts the timeout. *)
Definition outlasts (t : option Z) (delay_ms : Z) : bool :=
  match t with
  | Some secs => secs * 1000 <=? delay_ms
  | None => false
  end.

(** [self.socket.connect((host, port))] *)
Definition sock_connect (p : Peer) : M unit :=
  st ← get_state;
  emit (EvConnect (current_timeout st));;
  match on_connect p with
  | Accepts d =>
      if outlasts (current_timeout st) d then raise SocketTimeout
      else attach (incoming p)
  | Refuses => raise ConnectionRefusedError
  | Unreachable => raise OSError
  end.

(** The outcome of one [recv] under timeout [t] when the peer's next
    answer is [a]. *)
Definition recv_from (t : option Z) (a : recv_answer) : res string :=
  match a with
  | Sends d data => if outlasts t d then Exc SocketTimeout else Val data
  | Resets => Exc OSError
  | Silent =>
      match t with
      | Some _ => Exc SocketTimeout
      | None => Blocked
      end
  end.

(** Whether the read takes the answer off the stream: an answer that did
    not come in time is still to come. *)
Definition consumed (t : option Z) (a : recv_answer) : bool :=
  match a with
  | Sends d _ => negb (outlasts t d)
  | Resets => true
  | Silent => false
  end.

(** [self.socket.recv(n)] *)
Definition recv : M string := fun st =>
  let t := current_timeout st in
  let a := unread st 0 in
  (recv_from t a,
   {| connected := connected st; socket := socket st;
      listener_started := listener_started st;
      answers := answers st;
      taken := if consumed t a then S (taken st) else taken st;
      log := log st ++ [EvRecv t] |}).

(** [self.socket.send(...)] of the login; a peer that does not take it
    makes the call raise (a send that stalls under the timeout raises
    [socket.timeout], an [OSError] like the others). *)
Definition send (p : Peer) : M unit :=
  st ← get_state;
  emit (EvSend (current_timeout st));;
  if accepts_send p then mret () else raise OSError.

(** The longest sleep [time.sleep] takes, in whole seconds: its
    nanoseconds have to fit a signed 64-bit integer. *)
Definition sleep_max : Z := 9223372036.

(** [time.sleep(secs)] for an integer: a length that does not convert is
    an [OverflowError], a negative one a [ValueError]. *)
Definition sleep (secs : Z) : M unit :=
  if (secs <? - sleep_max) || (sleep_max <? secs) then raise OverflowError
  else if secs <? 0 then raise ValueError
  else emit (EvSleep secs).

Definition CRLF : string :=
  String (Ascii.ascii_of_nat 13) (String (Ascii.ascii_of_nat 10) EmptyString).

(** [disconnect()], which [connect] calls with [connected] false: the
    socket, if any, is closed and dropped. With [connected] true it also
    says goodbye first; either way it raises nothing. *)
Definition disconnect : M unit :=
  st ← get_state;
  match socket st with
  | Some _ =>
      (if connected st then emit (EvSend (current_timeout st)) else mret ());;
      emit EvClose;;
      set_connected false;;
      set_socket None
  | None => set_connected false
  end.

Section Connect.

(** [bytes.decode('utf-8', errors='ignore')] *)
Variable decode : string → string.

(** How many turns of the login loop of one attempt are followed. *)
Variable reads : nat.

(** What the peer does on each attempt, by attempt number. *)
Variable peer_at : Z → Peer.

(** The [while b"\r\n\r\n" not in resp_bytes] loop, followed for
    [turns] turns. The loop itself has no bound: it turns as long as
    the reads return data and the data holds no blank line. *)
Fixpoint login_wait (turns : nat) (resp_bytes resp_buffer : string)
    : M string :=
  if contains (CRLF +:+ CRLF) resp_bytes then mret resp_buffer
  else
    match turns with
    | O => fun st => (Unfinished, st)
    | S turns' =>
        chunk ← recv;
        if String.eqb chunk "" then
          raise (ConnectionError "AMI connection closed during login response")
        else login_wait turns' (resp_bytes +:+ chunk)
                        (resp_buffer +:+ decode chunk)
    end.

(** The body of the [try] in [connect]: [Some true] stands for
    [return True]. *)
Definition attempt_body (attempt : Z) : M (option bool) :=
  st ← get_state;
  if connected st then mret (Some true)
  else
    (match socket st with
     | Some _ => emit EvClose;; set_socket None
     | None => mret ()
     end);;
    settimeout (Some 5);;
    sock_connect (peer_at attempt);;
    greeting_bytes ← recv;
    if negb (contains "Asterisk Call Manager" (decode greeting_bytes)) then
      raise (ConnectionError "Unexpected AMI greeting")
    else
      send (peer_at attempt);;
      resp_buffer ← login_wait reads "" "";
      if contains "Response: Success" resp_buffer
         && contains "Authentication accepted" resp_buffer then
        set_connected true;;
        settimeout None;;
        start_listener;;
        mret (Some true)
      else raise (ConnectionError "AMI login failed").

(** Both [except] clauses of [connect] do the same. *)
Definition on_connect_error (attempt max_retries initial_delay : Z)
    (e : exn) : M (option bool) :=
  disconnect;;
  (if attempt <? max_retries - 1
   then sleep (initial_delay * 2 ^ attempt) else mret ());;
  mret None.

(** [for attempt in range(max_retries)] from [attempt] on, with
    [remaining] turns to go, and the final [return False]. *)
Fixpoint connect_loop (remaining : nat) (attempt max_retries initial_delay : Z)
    : M bool :=
  match remaining with
  | O => mret false
  | S remaining' =>
      r ← try_except (attempt_body attempt)
                     (on_connect_error attempt max_retries initial_delay);
      match r with
      | Some b => mret b
      | None => connect_loop remaining' (attempt + 1) max_retries initial_delay
      end
  end.

(** [connect(max_retries, initial_delay)] *)
Definition connect (max_retries initial_delay : Z) : M bool :=
  connect_loop (Z.to_nat max_retries) 0 max_retries initial_delay.

End Connect.

(** A client right after [__init__]. *)
Definition fresh : State :=
  {| connected := false; socket := None; listener_started := false;
     answers := fun _ => Silent; taken := 0; log := [] |}.

(** The lengths of the sleeps of a log, oldest first. *)
Definition sleeps (l : list io_event) : list Z :=
  omap (fun ev => match ev with EvSleep d => Some d | _ => None end) l.

(** The calls on the socket that wait for the peer, each with the
    timeout in force. *)
Definition is_blocking_call (ev : io_event) : option (option Z) :=
  match ev with
  | EvConnect t => Some t
  | EvRecv t => Some t
  | EvSend t => Some t
  | _ => None
  end.


(** A blocking call of the log that ran without the 5 second timeout. *)
Definition unbounded_call (ev : io_event) : bool :=
  match is_blocking_call ev with
  | Some t => negb (bool_decide (t = Some 5))
  | None => false
  end.

Definition is_connect (ev : io_event) : bool :=
  match ev with
  | EvConnect _ => true
  | _ => false
  end.

(** The number of connection attempts in a log. *)
Definition connects (l : list io_event) : nat :=
  List.length (List.filter is_connect l).

Definition lifts_timeout (ev : io_event) : bool :=
  match ev with
  | EvSettimeout None => true
  | _ => false
  end.

(** The sleeps of [connect] after attempts [first], [first + 1], ...,
    [count] of them. *)
Fixpoint backoff (initial_delay first : Z) (count : nat) : list Z :=
  match count with
  | O => []
  | S count' =>
      initial_delay * 2 ^ first :: backoff initial_delay (first + 1) count'
  end.

(** The events of a handshake up to the login answer: the socket calls
    of the attempt, each blocking call under the 5 second timeout. *)
Definition handshake_event (ev : io_event) : bool :=
  match ev with
  | EvClose => true
  | EvSettimeout t | EvConnect t | EvRecv t | EvSend t =>
      bool_decide (t = Some 5)
  | EvSleep _ => false
  end.

(** *** What a peer does to an attempt *)

(** The data a read under the 5 second timeout hands to the login loop
    for it to go on: data that comes in time and is not empty. *)
Definition timely (a : recv_answer) : option string :=
  match a with
  | Sends d data =>
      if outlasts (Some 5) d || String.eqb data "" then None else Some data
  | _ => None
  end.

(** The data of the [n] answers from the [i]-th on, when each of them is
    [timely]. *)
Fixpoint chunks (s : nat → recv_answer) (i n : nat) : option (list string) :=
  match n with
  | O => Some []
  | S n' =>
      match timely (s i), chunks s (S i) n' with
      | Some c, Some cs => Some (c :: cs)
      | _, _ => None
      end
  end.

(** The chunks put end to end. *)
Definition text (cs : list string) : string := foldr String.append "" cs.

(** The peer lets the attempt get as far as the login loop: it accepts
    the connection in time, greets in time with the banner and takes the
    login. *)
Definition reaches_login (decode : string → string) (p : Peer) : bool :=
  match on_connect p with
  | Accepts d => negb (outlasts (Some 5) d)
  | _ => false
  end
  && match incoming p 0 with
     | Sends d greeting =>
         negb (outlasts (Some 5) d)
         && contains "Asterisk Call Manager" (decode greeting)
     | _ => false
     end
  && accepts_send p.

(** The answers after the greeting are the chunks [cs], and the blank
    line is complete with the last of them, not before. *)
Definition login_answered (p : Peer) (cs : list string) : Prop :=
  chunks (incoming p) 1 (List.length cs) = Some cs
  ∧ contains (CRLF +:+ CRLF) (text cs) = true
  ∧ ∀ j, (j < List.length cs)%nat →
         contains (CRLF +:+ CRLF) (text (take j cs)) = false.

(** A successful handshake within [reads] reads of the login loop: the
    attempt reaches the login loop, the response block comes complete
    and says that the login is accepted. *)
Definition accepts_login (decode : string → string) (reads : nat) (p : Peer)
    : Prop :=
  reaches_login decode p = true
  ∧ ∃ cs, (List.length cs ≤ reads)%nat
          ∧ login_answered p cs
          ∧ contains "Response: Success" (text (decode <$> cs)) = true
          ∧ contains "Authentication accepted" (text (decode <$> cs)) = true.

(** The peer keeps the login loop reading for [reads] reads: the attempt
    reaches the loop, and the next [reads] answers are data in time that
    holds no blank line. *)
Definition keeps_reading (decode : string → string) (reads : nat) (p : Peer)
    : bool :=
  reaches_login decode p
  && match chunks (incoming p) 1 reads with
     | Some cs => negb (contains (CRLF +:+ CRLF) (text cs))
     | None => false
     end.

(** How the login loop that starts with [resp_bytes] and [resp_buffer]
    on the answers [s] ends, or does not end, when it is followed for
    [turns] turns: the result [r] after [k] reads. *)
Definition login_ends (decode : string → string)
    (resp_bytes resp_buffer : string) (s : nat → recv_answer) (turns : nat)
    (r : res string) (k : nat) : Prop :=
  match r with
  | Val resp =>
      (* the blank line has been received *)
      ∃ cs, chunks s 0 k = Some cs
            ∧ contains (CRLF +:+ CRLF) (resp_bytes +:+ text cs) = true
            ∧ (∀ j, (j < k)%nat →
                    contains (CRLF +:+ CRLF) (resp_bytes +:+ text (take j cs))
                    = false)
            ∧ resp = resp_buffer +:+ text (decode <$> cs)
  | Exc e =>
      (* the last read got no data: timeout, close or reset *)
      ∃ cs j, k = S j
              ∧ chunks s 0 j = Some cs
              ∧ contains (CRLF +:+ CRLF) (resp_bytes +:+ text cs) = false
              ∧ match s j with
                | Sends d data =>
                    if outlasts (Some 5) d then e = SocketTimeout
                    else data = ""
                         ∧ e = ConnectionError
                                 "AMI connection closed during login response"
                | Resets => e = OSError
                | Silent => e = SocketTimeout
                end
  | Unfinished =>
      (* every read so far got data, and no blank line yet *)
      k = turns
      ∧ ∃ cs, chunks s 0 turns = Some cs
              ∧ contains (CRLF +:+ CRLF) (resp_bytes +:+ text cs) = false
  | Blocked => False
  end.

(** Whether [time.sleep] takes the length and sleeps. *)
Definition sleeps_through (secs : Z) : bool :=
  (0 <=? secs) && (secs <=? sleep_max).

(** The attempt fails on this peer: the handshake is neither accepted
    nor kept waiting. *)
Definition fails (decode : string → string) (reads : nat) (p : Peer) : Prop :=
  ¬ accepts_login decode reads p ∧ keeps_reading decode reads p = false.

(** How an attempt on the peer [p] that starts with [connected] false
    ends, with the events [evs] that come before the timeout is lifted:
    with the login accepted, with an exception, or still reading. *)
Definition attempt_ends (decode : string → string) (reads : nat) (p : Peer)
    (st : State) (r : res (option bool)) (st' : State)
    (evs : list io_event) : Prop :=
  forallb handshake_event evs = true
  ∧ connects evs = 1%nat
  ∧ ((r = Val (Some true) ∧ accepts_login decode reads p
      ∧ connected st' = true
      ∧ log st' = log st ++ evs ++ [EvSettimeout None])
     ∨ (∃ e, r = Exc e ∧ fails decode reads p
             ∧ connected st' = false ∧ socket st' ≠ None
             ∧ log st' = log st ++ evs)
     ∨ (r = Unfinished ∧ keeps_reading decode reads p = true
        ∧ connected st' = false
        ∧ log st' = log st ++ evs)).

End Ami.

(** ** Stale cleanup and the completion monitor (call_service.py) *)

Module Watchdog.
Import Py CallStore.

(** An entry that [cleanup_stale_active_calls] drops: finalized and more
    than 5 minutes old. *)
Definition old_finalized (now_utc : Z) (call_data : CallData) : bool :=
  finalized_in_memory call_data
  && total_seconds_gt (now_utc - timestamp call_data) 300.

Definition stale (now_utc : Z) (kv : string * CallData) : Prop :=
  old_finalized now_utc kv.2 = true.

#[global] Instance stale_dec now_utc kv : Decision (stale now_utc kv).
Proof. unfold stale. apply _. Defined.

Section Cleanup.

(** [int(campaign_id)]: [None] stands for the [ValueError]. *)
Variable py_int : string → option Z.

Variable announcements : gset Z.
Variable scheduled_calls : gmap Z Campaigns.CallRow.

(** What the loop body of [cleanup_stale_active_calls] leaves of one
    campaign: [None] when the campaign is put on [campaigns_to_remove]. *)
Definition cleanup_campaign (now_utc : Z) (campaign_id : string)
    (calls : gmap string CallData) : option (gmap string CallData) :=
  if String.eqb campaign_id "default" then Some calls
  else
    match py_int campaign_id with
    | None => None
    | Some n =>
        match Campaigns.get_by_id announcements n scheduled_calls with
        | None => None
        | Some call_info =>
            if str_in (Campaigns.status call_info)
                      ["completed"; "cancelled"; "failed"] then None
            else
              let remaining :=
                filter (fun kv => ¬ stale now_utc kv) calls in
              if bool_decide (remaining = ∅) then None else Some remaining
        end
    end.

(** [cleanup_stale_active_calls()] *)
Definition cleanup_stale_active_calls (now_utc : Z)
    (active_calls : gmap string (gmap string CallData))
    : gmap string (gmap string CallData) :=
  map_imap (cleanup_campaign now_utc) active_calls.

End Cleanup.

(** [sum(1 for phone in phone_numbers if not is_call_complete(phone,
    campaign_id))] *)
Definition active_call_count (campaign_id : string) (phone_numbers : list string)
    (active_calls : gmap string (gmap string CallData)) : nat :=
  List.length
    (List.filter (fun phone => negb (is_call_complete phone campaign_id active_calls))
                 phone_numbers).

(** How one turn of the polling loop of [monitor_auto_call_completion]
    ends: the monitor returns, or goes to sleep with a new count of
    consecutive all-complete checks. *)
Inductive monitor_turn :=
| MonitorStops
| MonitorMarksCompleted
| MonitorSleeps (consecutive_completed_checks : nat).

Definition required_completed_checks : nat := 2.

(** One turn of the [while] loop. [call_info] and [final_call_info] are
    the status columns read at the top of the turn and before the final
    write, [None] when the row is not found. *)
Definition monitor_check (campaign_id : string) (phone_numbers : list string)
    (call_info final_call_info : option string)
    (consecutive_completed_checks : nat)
    (active_calls : gmap string (gmap string CallData)) : monitor_turn :=
  if opt_is call_info "cancelled" then MonitorStops
  else if match call_info with None => true | Some s => String.eqb s "completed" end
  then MonitorStops
  else if Nat.eqb (active_call_count campaign_id phone_numbers active_calls) 0 then
    let consecutive := S consecutive_completed_checks in
    if Nat.leb required_completed_checks consecutive then
      match final_call_info with
      | Some s => if str_in s ["completed"; "cancelled"] then MonitorStops
                  else MonitorMarksCompleted
      | None => MonitorStops
      end
    else MonitorSleeps consecutive
  else MonitorSleeps 0.

End Watchdog.

(** ** Auxiliary notions for the further properties *)

Module DialLoopSpec.
Import CallStore DialLoop.


End DialLoopSpec.

(** ** The completion monitor as a whole (monitor_auto_call_completion) *)

Module Monitor.
Import Py CallStore Watchdog.

(** What one turn of the polling loop meets. [elapsed] is
    [time.time() - start_time] at the loop test, in microseconds;
    [call_info] the status column read at the top of the turn;
    [final_call_info] the one read before the final write (in the loop or
    after it has timed out); [update_error] the text of the exception when
    [Call.update_status] raises, and [call_info_on_error] the status
    column the [except] clause then reads. A status column is [None] when
    [Call.get_by_id] returns nothing. *)
Record Turn := mkTurn {
  elapsed : Z;
  call_info : option string;
  active_calls : gmap string (gmap string CallData);
  final_call_info : option string;
  update_error : option string;
  call_info_on_error : option string
}.

Definition max_wait_time : Z := 3600.

(** How the monitor ends, with the calls of [Call.update_status] it made
    (status and details), or that it is still polling when the turns
    given are used up. *)
Inductive monitor_end :=
| MonitorRunning
| MonitorDone (writes : list (string * string)).

(** The [except Exception as e] clause around the whole monitor. *)
Definition on_monitor_error (t : Turn) (e : string) : list (string * string) :=
  if opt_is (call_info_on_error t) "in_progress"
  then [("failed", "Monitor error: " +:+ e)]
  else [].

(** A call of [Call.update_status] from the body of the monitor. *)
Definition write (t : Turn) (status details : string) : list (string * string) :=
  (status, details)
    :: match update_error t with
       | Some e => on_monitor_error t e
       | None => []
       end.

(** The code after the [while] loop. *)
Definition on_timeout (t : Turn) : list (string * string) :=
  match final_call_info t with
  | Some s => if str_in s ["completed"; "cancelled"] then []
              else write t "failed" "Monitor timeout or error"
  | None => []
  end.

Fixpoint monitor_loop (campaign_id : string) (phone_numbers : list string)
    (turns : list Turn) (consecutive_completed_checks : nat) : monitor_end :=
  match turns with
  | [] => MonitorRunning
  | t :: rest =>
      if elapsed t <? max_wait_time * 1000000 then
        match monitor_check campaign_id phone_numbers (call_info t)
                (final_call_info t) consecutive_completed_checks
                (active_calls t) with
        | MonitorStops => MonitorDone []
        | MonitorMarksCompleted =>
            MonitorDone (write t "completed" "All calls processed")
        | MonitorSleeps n => monitor_loop campaign_id phone_numbers rest n
        end
      else MonitorDone (on_timeout t)
  end.

(** [monitor_auto_call_completion(call_id, phone_numbers)], with
    [campaign_id = str(call_id)]. *)
Definition monitor_auto_call_completion (campaign_id : string)
    (phone_numbers : list string) (turns : list Turn) : monitor_end :=
  monitor_loop campaign_id phone_numbers turns 0.

(** The turn found every call of the campaign complete. *)
Definition all_complete (campaign_id : string) (phone_numbers : list string)
    (t : Turn) : Prop :=
  active_call_count campaign_id phone_numbers (active_calls t) = 0%nat.

(** The turn runs before the time limit and reads a campaign row that is
    neither cancelled nor completed. *)
Definition polling (t : Turn) : Prop :=
  elapsed t < max_wait_time * 1000000
  ∧ ∃ s, call_info t = Some s ∧ s ≠ "cancelled" ∧ s ≠ "completed".

End Monitor.

(** ** The lock of the call state store

    [active_calls_lock] is a [threading.Lock] (app_state.py): it is not
    reentrant. [update_call_status] takes it for its whole body, and so do
    [detect_stuck_calls] (services/call_service.py) and the [abort_calls]
    route (routes/call_routes.py) for their loops over the store. *)

Module Locked.
Import Py CallStore.

(** The store with its lock. [lock_held] says that the running thread
    holds the lock. *)
Record Shared := mkShared {
  lock_held : bool;
  active_calls : gmap string (gmap string CallData)
}.

(** A call returns, or it blocks for ever in [acquire]: the thread that
    calls holds the lock already, so nobody is going to release it. Both
    carry the shared state as the call leaves it. *)
Inductive ending (A : Type) :=
| Returns (a : A) (sh : Shared)
| Blocks (sh : Shared).
Arguments Returns {A} a sh.
Arguments Blocks {A} sh.

(** [with active_calls_lock: body] *)
Definition with_lock {A} (body : Shared → ending A) (sh : Shared) : ending A :=
  if lock_held sh then Blocks sh
  else
    match body {| lock_held := true; active_calls := active_calls sh |} with
    | Returns a sh' =>
        Returns a {| lock_held := false; active_calls := active_calls sh' |}
    | Blocks sh' => Blocks sh'
    end.

(** [asterisk_service.update_call_status], lock included. *)
Definition update_call_status (campaign_id phone_number status : string)
    (details action_id uniqueid : option string) (timestamp_utc : Z)
    (sh : Shared) : ending outcome :=
  with_lock
    (λ sh,
       let '(o, ac) :=
         CallStore.update_call_status campaign_id phone_number status details
           action_id uniqueid timestamp_utc (active_calls sh) in
       Returns o {| lock_held := lock_held sh; active_calls := ac |})
    sh.

(** Sequencing of calls that may block. *)
Definition and_then {A B} (x : ending A) (f : A → Shared → ending B) : ending B :=
  match x with
  | Returns a sh => f a sh
  | Blocks sh => Blocks sh
  end.

Section Loops.

(** [dict.items()], in the order of the dictionary (the order of
    insertion, which a finite map does not record). *)
Variable items : ∀ A : Type, gmap string A → list (string * A).

Section DetectStuckCalls.

Variable py_int : string → option Z.
Variable announcements : gset Z.
Variable scheduled_calls : gmap Z Campaigns.CallRow.

(** [Call.get_active_campaign_ids(campaign_ids)]: the ids, as strings,
    of those of the campaigns asked for whose row is in progress or
    ready; the empty set when the query raises. *)
Variable get_active_campaign_ids : list string → gset string.

(** [run_asterisk_command('core show channels')] as run for the entry
    of a campaign and a recipient: the success flag and
    [output.splitlines()]. *)
Variable run_asterisk_command : string → string → bool * list string.

(** The clock reading of the update made for an entry. *)
Variable update_clock : string → string → Z.

(** [cleanup_stale_active_calls()], lock included. *)
Definition cleanup_stale_active_calls (now_utc : Z) (sh : Shared)
    : ending unit :=
  with_lock
    (λ sh,
       Returns tt
         {| lock_held := lock_held sh;
            active_calls :=
              Watchdog.cleanup_stale_active_calls py_int announcements
                scheduled_calls now_utc (active_calls sh) |})
    sh.

(** The test of one line of the channel listing. *)
Definition line_matches (phone_number : string)
    (channel_uniqueid : option string) (line : string) : bool :=
  contains phone_number line
  && (contains "Up" line || contains "Ringing" line)
  && match channel_uniqueid with
     | Some u => if truthy channel_uniqueid then contains u line else true
     | None => true
     end.

Definition channel_exists (phone_number : string) (status_data : CallData)
    (result : bool * list string) : bool :=
  result.1 && existsb (line_matches phone_number (uniqueid status_data)) result.2.

(** The test the inner loop makes on an entry before it updates it:
    ringing or dialing, for more than 60 seconds, and no channel. *)
Definition stuck_test (now_utc : Z) (campaign_id : string)
    (kv : string * CallData) : bool :=
  str_in (status kv.2) ["ringing"; "dialing"]
  && total_seconds_gt (now_utc - timestamp kv.2) 60
  && negb (channel_exists kv.1 kv.2 (run_asterisk_command campaign_id kv.1)).

(** The body of the inner loop, for one entry of a campaign. *)
Definition check_call (now_utc : Z) (campaign_id phone_number : string)
    (status_data : CallData) (sh : Shared) : ending unit :=
  if negb (str_in (status status_data) ["ringing"; "dialing"]) then
    Returns tt sh
  else if total_seconds_gt (now_utc - timestamp status_data) 60 then
    if channel_exists phone_number status_data
         (run_asterisk_command campaign_id phone_number)
    then Returns tt sh
    else
      and_then
        (update_call_status campaign_id phone_number "noanswer"
           (Some "Call timed out (channel gone or uniqueid mismatch)")
           (action_id status_data) (uniqueid status_data)
           (update_clock campaign_id phone_number) sh)
        (λ _ sh', Returns tt sh')
  else Returns tt sh.

Fixpoint check_calls (now_utc : Z) (campaign_id : string)
    (calls : list (string * CallData)) (sh : Shared) : ending unit :=
  match calls with
  | [] => Returns tt sh
  | (phone_number, status_data) :: rest =>
      and_then (check_call now_utc campaign_id phone_number status_data sh)
        (λ _ sh', check_calls now_utc campaign_id rest sh')
  end.

(** The outer loop, over the snapshot [list(active_calls.items())]. *)
Fixpoint check_campaigns (now_utc : Z) (active_db_campaigns : gset string)
    (campaigns : list (string * gmap string CallData)) (sh : Shared)
    : ending unit :=
  match campaigns with
  | [] => Returns tt sh
  | (campaign_id, calls) :: rest =>
      if String.eqb campaign_id "default"
         || negb (bool_decide (campaign_id ∈ active_db_campaigns))
      then check_campaigns now_utc active_db_campaigns rest sh
      else
        and_then (check_calls now_utc campaign_id (items _ calls) sh)
          (λ _ sh', check_campaigns now_utc active_db_campaigns rest sh')
  end.

(** The campaigns the database reports as active, asked for only when
    the store holds a campaign other than 'default'. *)
Definition active_db_campaigns_of
    (active_calls : gmap string (gmap string CallData)) : gset string :=
  let campaign_ids_to_check :=
    List.filter (λ cid, negb (String.eqb cid "default"))
      (fst <$> items _ active_calls) in
  match campaign_ids_to_check with
  | [] => ∅
  | _ => get_active_campaign_ids campaign_ids_to_check
  end.

(** [detect_stuck_calls()]. [cleanup_utc] and [now_utc] are the clock
    readings of the cleanup and of the scan. *)
Definition detect_stuck_calls (cleanup_utc now_utc : Z) (sh : Shared)
    : ending unit :=
  and_then (cleanup_stale_active_calls cleanup_utc sh)
    (λ _ sh1,
       with_lock
         (λ sh2,
            check_campaigns now_utc
              (active_db_campaigns_of (active_calls sh2))
              (items _ (active_calls sh2)) sh2)
         sh1).

(** An entry the scan takes for stuck with its channel gone: ringing
    or dialing for more than 60 seconds, in a campaign other than
    'default' that the database reports as active, and no line of the
    channel listing matches it. *)
Definition stuck_without_channel (now_utc : Z)
    (active_db_campaigns : gset string) (campaign_id phone_number : string)
    (status_data : CallData) : Prop :=
  campaign_id ≠ "default"
  ∧ campaign_id ∈ active_db_campaigns
  ∧ status status_data ∈ ["ringing"; "dialing"]
  ∧ 60 * 1000000 < now_utc - timestamp status_data
  ∧ channel_exists phone_number status_data
      (run_asterisk_command campaign_id phone_number) = false.

End DetectStuckCalls.

(** The part of the [abort_calls] route that works on the campaign row
    and on the store: the row is set to cancelled, then every entry of
    the campaign that is ringing, dialing or answered is put on
    [phones_to_hangup] and marked aborted. The value is
    [phones_to_hangup]; the hangup requests to Asterisk that follow are
    made for these numbers only. *)
Fixpoint abort_entries (campaign_id_str : string)
    (calls : list (string * CallData)) (update_clock : string → Z)
    (phones_to_hangup : list string) (sh : Shared) : ending (list string) :=
  match calls with
  | [] => Returns phones_to_hangup sh
  | (phone_number, status_data) :: rest =>
      if str_in (status status_data) ["ringing"; "dialing"; "answered"] then
        and_then
          (update_call_status campaign_id_str phone_number "aborted"
             (Some "Aborted by admin") None None (update_clock phone_number) sh)
          (λ _ sh',
             abort_entries campaign_id_str rest update_clock
               (phones_to_hangup ++ [phone_number]) sh')
      else abort_entries campaign_id_str rest update_clock phones_to_hangup sh
  end.

Definition abort_calls (found_rows : bool) (call_id : Z)
    (campaign_id_str : string) (update_clock : string → Z)
    (scheduled_calls : gmap Z Campaigns.CallRow) (sh : Shared)
    : gmap Z Campaigns.CallRow * ending (list string) :=
  let scheduled_calls' :=
    (Campaigns.update_status found_rows call_id "cancelled"
       (Some "Aborted by admin") scheduled_calls).2 in
  (scheduled_calls',
   with_lock
     (λ sh1,
        match active_calls sh1 !! campaign_id_str with
        | Some calls =>
            abort_entries campaign_id_str (items _ calls) update_clock [] sh1
        | None => Returns [] sh1
        end)
     sh).

End Loops.

End Locked.

(** ** Attribution of OriginateResponse events by action id
    (call_service.find_call_by_action_id, process_originate_response and
    the first branch of direct_event_handler_with_optout) *)

Module Correlate.
Import Py CallStore.

(** [f"{x}"] for a value that may be [None]. *)
Definition fstr (x : option string) : string := default "None" x.

(** [active_calls[campaign_id][phone_number]['uniqueid'] = uniqueid],
    guarded by the presence of the entry. *)
Definition store_uniqueid (campaign_id phone_number originate_uniqueid : string)
    (active_calls : gmap string (gmap string CallData))
    : gmap string (gmap string CallData) :=
  match active_calls !! campaign_id with
  | Some calls =>
      match calls !! phone_number with
      | Some d =>
          <[campaign_id :=
              <[phone_number :=
                  {| status := status d;
                     details := details d;
                     timestamp := timestamp d;
                     action_id := action_id d;
                     uniqueid := Some originate_uniqueid;
                     finalized_in_memory := finalized_in_memory d |}]> calls]>
            active_calls
      | None => active_calls
      end
  | None => active_calls
  end.

(** [process_originate_response(event, campaign_id, phone_number)];
    [now] is the clock reading of the status update. *)
Definition process_originate_response (event : gmap string string)
    (campaign_id phone_number : string) (now : Z) (st : DialLoop.LoopState)
    : DialLoop.LoopState :=
  let response := event !! "Response" in
  let channel := event !! "Channel" in
  let reason := event !! "Reason" in
  let originate_uniqueid := event !! "Uniqueid" in
  if opt_is response "Success" && truthy originate_uniqueid then
    let ac :=
      store_uniqueid campaign_id phone_number (default "" originate_uniqueid)
        (DialLoop.active_calls st) in
    let pc := Pending.clear_pending_call phone_number
                (DialLoop.pending_correlations st) in
    {| DialLoop.active_calls :=
         (update_call_status campaign_id phone_number "answered"
            (Some ("Call connected: " +:+ fstr channel))
            (event !! "ActionID") originate_uniqueid now ac).2;
       DialLoop.pending_correlations := pc |}
  else if opt_is response "Failure" then
    let pc := Pending.clear_pending_call phone_number
                (DialLoop.pending_correlations st) in
    {| DialLoop.active_calls :=
         (update_call_status campaign_id phone_number "rejected"
            (Some ("Originate failed: " +:+ fstr reason))
            (event !! "ActionID") originate_uniqueid now
            (DialLoop.active_calls st)).2;
       DialLoop.pending_correlations := pc |}
  else st.

Section Search.

(** [dict.items()], in the order of the dictionary. *)
Variable items : ∀ A : Type, gmap string A → list (string * A).

(** The inner loop of [find_call_by_action_id]. *)
Definition find_in_calls (action : string) (calls : list (string * CallData))
    : option string :=
  fst <$> List.find (λ kv : string * CallData,
                       opt_is (action_id kv.2) action) calls.

Fixpoint find_in_campaigns (action : string)
    (campaigns : list (string * gmap string CallData))
    : option (string * string) :=
  match campaigns with
  | [] => None
  | (campaign_id, calls) :: rest =>
      match find_in_calls action (items _ calls) with
      | Some phone_number => Some (campaign_id, phone_number)
      | None => find_in_campaigns action rest
      end
  end.

(** [find_call_by_action_id(action_id)]; [None] is [(None, None)]. *)
Definition find_call_by_action_id (action : string)
    (active_calls : gmap string (gmap string CallData))
    : option (string * string) :=
  find_in_campaigns action (items _ active_calls).

(** The first branch of [direct_event_handler_with_optout]: an
    OriginateResponse with an action id is attributed by that id and
    processed at once. [None]: the branch does not apply, or finds no
    entry, and the handler goes on to its general correlation. *)
Definition originate_response_by_action_id (event : gmap string string)
    (now : Z) (st : DialLoop.LoopState) : option DialLoop.LoopState :=
  let event_type := default "UNKNOWN" (event !! "Event") in
  let event_actionid := event !! "ActionID" in
  if String.eqb event_type "OriginateResponse" && truthy event_actionid then
    match find_call_by_action_id (default "" event_actionid)
            (DialLoop.active_calls st) with
    | Some (campaign_id, phone_number) =>
        if negb (String.eqb campaign_id "")
           && negb (String.eqb phone_number "")
        then Some (process_originate_response event campaign_id
                     phone_number now st)
        else None
    | None => None
    end
  else None.

End Search.

End Correlate.

(** ** The recipients of a campaign (models/member.py) *)

Module Members.
Import Dtmf.

Section Query.

(** [ORDER BY m.last_name, m.first_name]. The rows of the model hold no
    names, so the ordering is taken as given. *)
Variable order_by_name : list MemberRow → list MemberRow.

(** [JOIN member_groups mg ON m.id = mg.member_id WHERE mg.group_id =
    %s], on the pairs (member id, group id) of [member_groups]. *)
Definition in_group (member_groups : list (Z * Z)) (group_id : Z)
    (m : MemberRow) : bool :=
  existsb (λ mg : Z * Z, (mg.1 =? id m) && (mg.2 =? group_id)) member_groups.

(** [m.remove_from_call = 0 OR m.remove_from_call IS NULL] *)
Definition not_opted_out (m : MemberRow) : bool :=
  match remove_from_call m with
  | Some flag => flag =? 0
  | None => true
  end.

(** [Member.get_members_for_call(group_filter, is_completed_call)]. A
    [group_filter] that is [None] or 0 is falsy and selects every
    member; the opt-out filter keeps the rows whose [remove_from_call]
    is 0 or NULL. *)
Definition get_members_for_call (group_filter : option Z)
    (is_completed_call : bool) (member_groups : list (Z * Z))
    (members : list MemberRow) : list MemberRow :=
  let base :=
    match group_filter with
    | Some g =>
        if g =? 0 then members
        else List.filter (in_group member_groups g) members
    | None => members
    end in
  order_by_name
    (if is_completed_call then base
     else List.filter not_opted_out base).

End Query.

End Members.

(** ** Event handlers across reconnections
    (SocketAMIClient.add_event_handler, _restore_handlers, get_instance) *)

Module Handlers.

Section Registry.

(** The handlers: Python functions, compared by identity. *)
Context {Handler : Type} `{EqDecision Handler}.

(** [if handler not in l: l.append(handler)] *)
Definition append_new (handler : Handler) (l : list Handler) : list Handler :=
  if bool_decide (handler ∈ l) then l else l ++ [handler].

(** [SocketAMIClient._instance], as far as its [event_handlers] go, and
    the module-level [_registered_handlers]. *)
Record Registry := mkRegistry {
  instance : option (list Handler);
  registered_handlers : list Handler
}.

(** [_restore_handlers()] on a list of handlers. *)
Definition restore (registered event_handlers : list Handler)
    : list Handler :=
  fold_left (λ hs handler, append_new handler hs) registered event_handlers.

(** The calls that touch the handlers. [ensure_connected] restores the
    handlers when it had to connect and the connection succeeded. *)
Inductive call :=
| AddEventHandler (handler : Handler)
| RestoreHandlers
| GetInstance (force_new : bool).

Definition step (r : Registry) (c : call) : Registry :=
  match c with
  | AddEventHandler handler =>
      match instance r with
      | Some event_handlers =>
          {| instance := Some (append_new handler event_handlers);
             registered_handlers :=
               append_new handler (registered_handlers r) |}
      | None => r
      end
  | RestoreHandlers =>
      {| instance := restore (registered_handlers r) <$> instance r;
         registered_handlers := registered_handlers r |}
  | GetInstance force_new =>
      if force_new || bool_decide (instance r = None) then
        {| instance := Some (restore (registered_handlers r) []);
           registered_handlers := registered_handlers r |}
      else r
  end.

Definition run (calls : list call) (r : Registry) : Registry :=
  fold_left step calls r.

(** The state when the module is loaded. *)
Definition initial : Registry :=
  {| instance := None; registered_handlers := [] |}.

(** The handlers of the instance are the registered ones, in the order
    of their registration and without repetition. *)
Definition in_step (r : Registry) : Prop :=
  NoDup (registered_handlers r)
  ∧ ∀ hs, instance r = Some hs → hs = registered_handlers r.

End Registry.

Arguments Registry Handler : clear implicits.
Arguments call Handler : clear implicits.

End Handlers.

(** ** The debug logs (asterisk_service.log_ami_debug,
    call_service.debug_log_call_state, get_call_debug_history) *)

Module DebugLog.

Record Entry := mkEntry {
  timestamp : Z;
  action : string;
  details : string
}.

(** [if len(l) > n: l = l[-n:]], for a positive [n]. *)
Definition keep_last {A} (n : nat) (l : list A) : list A :=
  if (n <? List.length l)%nat then drop (List.length l - n) l else l.

(** [log_ami_debug(action, details)] on [ami_debug_log]; the entry holds
    the clock reading. *)
Definition log_ami_debug (e : Entry) (ami_debug_log : list Entry) : list Entry :=
  keep_last 100 (ami_debug_log ++ [e]).

(** [f"{campaign_id}_{phone_number}"] *)
Definition key (campaign_id phone_number : string) : string :=
  campaign_id +:+ "_" +:+ phone_number.

(** [debug_log_call_state(campaign_id, phone_number, action, details)] on
    [call_debug_tracker]. *)
Definition debug_log_call_state (campaign_id phone_number : string) (e : Entry)
    (call_debug_tracker : gmap string (list Entry)) : gmap string (list Entry) :=
  let k := key campaign_id phone_number in
  <[k := keep_last 50 (default [] (call_debug_tracker !! k) ++ [e])]>
    call_debug_tracker.

(** [get_call_debug_history(campaign_id, phone_number)] *)
Definition get_call_debug_history (campaign_id phone_number : string)
    (call_debug_tracker : gmap string (list Entry)) : list Entry :=
  default [] (call_debug_tracker !! key campaign_id phone_number).

(** A sequence of calls of [debug_log_call_state]. *)
Definition log_all (calls : list (string * string * Entry))
    (call_debug_tracker : gmap string (list Entry)) : gmap string (list Entry) :=
  fold_left (λ t c, debug_log_call_state c.1.1 c.1.2 c.2 t) calls
    call_debug_tracker.

(** The entries that a sequence of calls logs under a key, oldest
    first. *)
Definition logged_under (k : string) (calls : list (string * string * Entry))
    : list Entry :=
  omap (λ c : string * string * Entry,
          if String.eqb (key c.1.1 c.1.2) k then Some c.2 else None) calls.

End DebugLog.

(** ** The wire format (SocketAMIClient.send_action, _event_listener) *)

Module Wire.
Import Py.

(** [s[n:]] *)
Fixpoint skip (n : nat) (s : string) : string :=
  match n, s with
  | S n', String _ s' => skip n' s'
  | _, _ => s
  end.

(** [s.split(sep, 1)] for a separator that is not empty: the text before
    the first occurrence of [sep] and the text after it, [None] when [sep]
    does not occur in [s] (the list then has one piece). *)
Fixpoint split_once (sep s : string) : option (string * string) :=
  if starts_with sep s then Some ("", skip (String.length sep) s)
  else
    match s with
    | EmptyString => None
    | String c s' =>
        match split_once sep s' with
        | Some (before, after) => Some (String c before, after)
        | None => None
        end
    end.

(** [s.split(sep)]. Every piece taken off shortens the text, so the
    length of the text is fuel enough. *)
Fixpoint split_fuel (fuel : nat) (sep s : string) : list string :=
  match fuel, split_once sep s with
  | S fuel', Some (before, after) => before :: split_fuel fuel' sep after
  | _, _ => [s]
  end.

Definition split (sep s : string) : list string :=
  split_fuel (String.length s) sep s.

Definition CRLF : string := Ami.CRLF.

(** The blank line that ends a block. *)
Definition CRLF2 : string := CRLF +:+ CRLF.

(** One line of a block, taken into the event dictionary. *)
Definition parse_line (event : gmap string string) (line : string)
    : gmap string string :=
  if negb (String.eqb line "") && contains ": " line then
    match split_once ": " line with
    | Some (key, value) => <[key := value]> event
    | None => event
    end
  else event.

(** The dictionary built from the text of a block. *)
Definition parse_block (event_text : string) : gmap string string :=
  fold_left parse_line (split CRLF event_text) ∅.

(** The [while "\r\n\r\n" in buffer] loop: the blocks taken off the
    buffer, oldest first, and the buffer left. *)
Fixpoint drain (fuel : nat) (buffer : string) : list string * string :=
  if contains CRLF2 buffer then
    match fuel, split_once CRLF2 buffer with
    | S fuel', Some (event_text, buffer') =>
        let '(blocks, rest) := drain fuel' buffer' in
        (event_text :: blocks, rest)
    | _, _ => ([], buffer)
    end
  else ([], buffer).

Definition drain_all (buffer : string) : list string * string :=
  drain (String.length buffer) buffer.

(** The loop of the listener over what [recv] returns, decoded: an empty
    read ends it. The value is the blocks taken off, oldest first, and the
    buffer at the end. Reads that time out leave the buffer alone and are
    not listed. *)
Fixpoint listen (chunks : list string) (buffer : string)
    : list string * string :=
  match chunks with
  | [] => ([], buffer)
  | data :: chunks' =>
      if String.eqb data "" then ([], buffer)
      else
        let '(blocks, rest) := drain_all (buffer +:+ data) in
        let '(blocks', rest') := listen chunks' rest in
        (blocks ++ blocks', rest')
  end.


(** The text [send_action(action, **params)] sends; [params] in the
    order of the keyword arguments. *)
Definition action_str (action : string) (params : list (string * string))
    : string :=
  fold_left (λ s kv, s +:+ kv.1 +:+ ": " +:+ kv.2 +:+ CRLF) params
    ("Action: " +:+ action +:+ CRLF)
  +:+ CRLF.


Definition CR : Ascii.ascii := Ascii.ascii_of_nat 13.
Definition LF : Ascii.ascii := Ascii.ascii_of_nat 10.

(** The lines of the text of an action, without their line ends. *)
Definition action_lines (action : string) (params : list (string * string))
    : list string :=
  ("Action: " +:+ action)
    :: ((λ kv : string * string, kv.1 +:+ ": " +:+ kv.2) <$> params).

(** [c not in s] for a character. *)
Fixpoint lacks (c : Ascii.ascii) (s : string) : bool :=
  match s with
  | EmptyString => true
  | String c' s' => negb (Ascii.eqb c c') && lacks c s'
  end.

(** A line that is not empty and holds no carriage return. *)
Definition plain (line : string) : Prop :=
  line ≠ "" ∧ lacks CR line = true.

End Wire.

(** ** Resolving the recipient and the campaign of an event
    (step 4 of direct_event_handler_with_optout, find_actual_campaign_id) *)

Module Resolve.
Import Py CallStore.

Definition is_digit (c : Ascii.ascii) : bool :=
  (48 <=? Ascii.nat_of_ascii c)%nat && (Ascii.nat_of_ascii c <=? 57)%nat.

Fixpoint all_digits (s : string) : bool :=
  match s with
  | EmptyString => true
  | String c s' => is_digit c && all_digits s'
  end.

(** What [str.isdigit()] answers on a text of ASCII characters: not
    empty, and [0] to [9] only. *)
Definition ascii_isdigit (s : string) : bool :=
  negb (String.eqb s "") && all_digits s.

(** [channel.split('Local/', 1)[1].split('@', 1)[0]], for a channel that
    holds ['Local/']. *)
Definition phone_from_channel (channel : string) : string :=
  match Wire.split_once "Local/" channel with
  | Some (_, after) =>
      match Wire.split_once "@" after with
      | Some (before, _) => before
      | None => after
      end
  | None => ""
  end.

Section Step4.

(** [str.isdigit()]. Python answers by the Unicode property of the
    characters, so that digits outside ASCII count as well; the
    handler is taken with whatever test the interpreter makes. *)
Variable isdigit : string → bool.

(** [key in event and event[key].isdigit()] *)
Definition digits_under (event : gmap string string) (key : string) : bool :=
  match event !! key with
  | Some v => isdigit v
  | None => false
  end.

(** Step 4 of the handler: the number taken from the event when the
    correlation by ids has found none. [None]: no branch applies. *)
Definition phone_from_event (event : gmap string string) : option string :=
  if digits_under event "CallerIDNum" then event !! "CallerIDNum"
  else if digits_under event "ConnectedLineNum" then event !! "ConnectedLineNum"
  else if digits_under event "Exten" then event !! "Exten"
  else
    match event !! "Channel" with
    | Some channel =>
        if contains "Local/" channel then Some (phone_from_channel channel)
        else None
    | None => None
    end.

End Step4.

Section Lookup.

(** [dict.items()], in the order of the dictionary. *)
Variable items : ∀ A : Type, gmap string A → list (string * A).



End Lookup.

End Resolve.

(** ** Sending an action (SocketAMIClient.ensure_connected, send_action) *)

Module Client.
Import Py Ami.

(** What the socket does with the bytes of an action: it takes them, the
    call raises, or the peer has stopped reading and the bytes do not go
    out. *)
Inductive send_answer :=
| Takes
| Breaks
| Stalls.

(** A connection or a read of the log that ran without the 5 second
    timeout. *)
Definition unbounded_wait (ev : io_event) : bool :=
  match ev with
  | EvConnect t | EvRecv t => negb (bool_decide (t = Some 5))
  | _ => false
  end.

Section SendAction.

Variable decode : string → string.

(** How many turns of the login loop of one attempt are followed. *)
Variable reads : nat.

(** What the peer does at each connection attempt, by round of
    [send_action] and attempt of [connect]. *)
Variable peer_at : Z → Z → Peer.

(** What the socket does with the bytes of the action, by round. *)
Variable on_action : Z → send_answer.

(** [ensure_connected()]. ([_restore_handlers], which follows a
    successful [connect], works on the handlers alone.) *)
Definition ensure_connected (round : Z) : M bool :=
  st ← get_state;
  if connected st then mret true
  else connect decode reads (peer_at round) 3 1.

(** [self.socket.sendall(action_str.encode('utf-8'))]; without a socket
    the attribute access raises. The call runs under the timeout the
    socket has then: none after the [settimeout(None)] of [connect], so
    that bytes that do not go out leave it blocked. *)
Definition sendall (round : Z) : M unit :=
  st ← get_state;
  match socket st with
  | None => raise OtherException
  | Some _ =>
      emit (EvSend (current_timeout st));;
      match on_action round with
      | Takes => mret ()
      | Breaks => raise OSError
      | Stalls =>
          match current_timeout st with
          | Some _ => raise SocketTimeout
          | None => fun st' => (Blocked, st')
          end
      end
  end.

Definition max_retries : Z := 3.

(** [if attempt == max_retries - 1: return False], else a pause of
    [0.1 * 2 ** attempt] seconds and [continue]. The pause leaves the
    state alone. [Some b] stands for [return b]. *)
Definition round_end (round : Z) : M (option bool) :=
  if round =? max_retries - 1 then mret (Some false) else mret None.

(** The body of the [try] of one round. *)
Definition round_body (round : Z) : M (option bool) :=
  ok ← ensure_connected round;
  if ok : bool then sendall round;; mret (Some true)
  else round_end round.

(** The two [except] clauses: socket errors, and the rest. *)
Definition on_round_error (round : Z) (e : exn) : M (option bool) :=
  match e with
  | SocketTimeout | ConnectionRefusedError | OSError | ConnectionError _ =>
      set_connected false;; disconnect;; round_end round
  | ValueError | OverflowError | OtherException => round_end round
  end.

Fixpoint send_loop (remaining : nat) (round : Z) : M bool :=
  match remaining with
  | O => mret false
  | S remaining' =>
      r ← try_except (round_body round) (on_round_error round);
      match r with
      | Some b => mret b
      | None => send_loop remaining' (round + 1)
      end
  end.

(** [send_action(action, **params)] *)
Definition send_action : M bool :=
  send_loop (Z.to_nat max_retries) 0.

End SendAction.

End Client.

(** ** A campaign run as a whole (call_service.auto_execute_call) *)

Module Execute.
Import Py Campaigns DialLoop.

(** How [auto_execute_call] ends: one of its early returns, or past the
    dial loop with the monitor started for the numbers listed. *)
Inductive ending :=
| AnnouncementNotFound
| StatusConflict
| NoMembers
| Dialed (monitored : list string).


(** [auto_execute_call(call_id, announcement_id, group_filter,
    caller_id_name)], with the persistence layer at work.
    [announcement_file] is what [Announcement.get_filename_by_id] gives,
    [members] what [Member.get_members_for_call] gives, and [pass_of i]
    what the pass for the i-th of them meets. The value is the way the
    run ends, the campaign rows and the state afterwards. *)
Definition auto_execute_call (found_rows : bool) (announcements : gset Z)
    (call_id : Z) (campaign_id : string) (announcement_file : option string)
    (members : list Member) (pass_of : nat → Pass)
    (scheduled_calls : gmap Z CallRow) (st : LoopState)
    : ending * gmap Z CallRow * LoopState :=
  if negb (truthy announcement_file) then
    (AnnouncementNotFound,
     (update_status found_rows call_id "cancelled"
        (Some "Announcement not found") scheduled_calls).2,
     st)
  else
    let '(started, scheduled_calls1) :=
      execution_started found_rows call_id scheduled_calls in
    if negb started
       && match get_by_id announcements call_id scheduled_calls1 with
          | Some current_call_info =>
              negb (str_in (status current_call_info) ["pending"; "ready"])
          | None => false
          end
    then (StatusConflict, scheduled_calls1, st)
    else
      match members with
      | [] =>
          (NoMembers,
           (update_status found_rows call_id "completed"
              (Some "No eligible members") scheduled_calls1).2,
           st)
      | _ :: _ =>
          (Dialed (phone_number <$> members),
           scheduled_calls1,
           dial_loop campaign_id (imap (λ i m, (m, pass_of i)) members) st)
      end.

End Execute.

(** ** The caller id name (utils/validation.py) *)

Module Validation.

(** [c.isalnum()], [c.isspace()], on ASCII characters. The white space
    of Python includes the carriage return, the line feed and the
    separators 28 to 31. *)
Definition is_alnum (c : Ascii.ascii) : bool :=
  let n := Ascii.nat_of_ascii c in
  ((48 <=? n) && (n <=? 57) || (65 <=? n) && (n <=? 90)
   || (97 <=? n) && (n <=? 122))%nat.

Definition is_space (c : Ascii.ascii) : bool :=
  let n := Ascii.nat_of_ascii c in
  ((9 <=? n) && (n <=? 13) || (28 <=? n) && (n <=? 32))%nat.

(** [c.isalnum() or c.isspace() or c == '.'] *)
Definition allowed (c : Ascii.ascii) : bool :=
  is_alnum c || is_space c || Ascii.eqb c ".".

(** [''.join(c for c in s if allowed(c))] *)
Fixpoint keep_allowed (s : string) : string :=
  match s with
  | EmptyString => EmptyString
  | String c s' =>
      if allowed c then String c (keep_allowed s') else keep_allowed s'
  end.

(** [s[:n]] *)
Fixpoint take (n : nat) (s : string) : string :=
  match n, s with
  | S n', String c s' => String c (take n' s')
  | _, _ => EmptyString
  end.

(** [validate_caller_id_name(caller_id_name)] *)
Definition validate_caller_id_name (caller_id_name : option string) : string :=
  match caller_id_name with
  | None => ""
  | Some s => take 15 (keep_allowed s)
  end.


End Validation.

(** * Properties *)

(** ** Python helpers *)

Section PyFacts.
Import Py.

Lemma str_in_spec s l : str_in s l = true ↔ s ∈ l.
Proof.
  unfold str_in. rewrite existsb_exists. split.
  - intros (x & Hx & He). apply String.eqb_eq in He. subst.
    by apply list_elem_of_In.
  - intros Hs. exists s. split; [by apply list_elem_of_In | apply String.eqb_refl].
Qed.

Lemma starts_with_spec sub : ∀ s,
  starts_with sub s = true ↔ ∃ suf, s = sub +:+ suf.
Proof.
  induction sub as [|a sub IH]; intros s; cbn.
  - split; [intros _; by exists s | done].
  - destruct s as [|b s].
    + split; [done | intros [suf H]; discriminate H].
    + destruct (Ascii.eqb a b) eqn:Hab.
      * apply Ascii.eqb_eq in Hab as ->. rewrite IH. split.
        -- intros [suf ->]. by exists suf.
        -- intros [suf [= ->]]. by exists suf.
      * apply Ascii.eqb_neq in Hab. split; [done|].
        intros [suf [= <- _]]. done.
Qed.

Lemma contains_nil sub : contains sub "" = starts_with sub "".
Proof. by destruct sub. Qed.

Lemma contains_cons sub c s :
  contains sub (String c s) = starts_with sub (String c s) || contains sub s.
Proof. reflexivity. Qed.

(** [contains sub s] is the substring test: [s] is some text, then
    [sub], then some text. *)
Lemma contains_spec sub : ∀ s,
  contains sub s = true ↔ ∃ pre suf, s = pre +:+ sub +:+ suf.
Proof.
  intros s. split.
  - induction s as [|c s IH].
    + rewrite contains_nil. intros H. apply starts_with_spec in H as [suf H].
      by exists "", suf.
    + rewrite contains_cons. intros [H|H]%orb_true_iff.
      * apply starts_with_spec in H as [suf H]. by exists "", suf.
      * destruct (IH H) as (pre & suf & ->). by exists (String c pre), suf.
  - intros (pre & suf & ->). induction pre as [|c pre IH].
    + assert (starts_with sub (sub +:+ suf) = true) as H
        by (apply starts_with_spec; by exists suf).
      change ("" +:+ sub +:+ suf) with (sub +:+ suf).
      destruct (sub +:+ suf) as [|c r].
      * by rewrite contains_nil.
      * by rewrite contains_cons, H.
    + change (String c pre +:+ sub +:+ suf) with (String c (pre +:+ sub +:+ suf)).
      rewrite contains_cons, IH. apply orb_true_r.
Qed.

Lemma append_cons x (a b : string) : String x a +:+ b = String x (a +:+ b).
Proof. reflexivity. Qed.

Lemma append_nil_l (b : string) : "" +:+ b = b.
Proof. reflexivity. Qed.

Lemma append_assoc (a b c : string) : (a +:+ b) +:+ c = a +:+ (b +:+ c).
Proof.
  induction a as [|x a IH]; [done|]. by rewrite !append_cons, IH.
Qed.

Lemma append_nil_r (a : string) : a +:+ "" = a.
Proof. induction a as [|x a IH]; [done|]. by rewrite append_cons, IH. Qed.

Lemma append_length (a b : string) :
  String.length (a +:+ b) = (String.length a + String.length b)%nat.
Proof.
  induction a as [|x a IH]; [done|]. rewrite append_cons. cbn. by rewrite IH.
Qed.

Lemma lower_ascii_idem c : lower_ascii (lower_ascii c) = lower_ascii c.
Proof. destruct c as [[] [] [] [] [] [] [] []]; reflexivity. Qed.

Lemma lower_idem s : lower (lower s) = lower s.
Proof. induction s as [|c s IH]; cbn; [done|]. by rewrite lower_ascii_idem, IH. Qed.

End PyFacts.

(** ** The call state store *)

Section CallStoreFacts.
Import Py CallStore.

(** Every entry [update_entry] writes has its flag recomputed from its
    status; a skipped update leaves the entry alone. *)
Lemma update_entry_well_formed cur s dt a u now :
  well_formed cur → well_formed (update_entry cur s dt a u now).2.
Proof.
  intros Hwf. unfold update_entry.
  destruct (String.eqb s "waiting") eqn:Hw.
  { apply String.eqb_eq in Hw. subst. intros d [= <-]. cbn. discriminate. }
  destruct (String.eqb (current_status_of cur) "").
  { intros d [= <-]. cbn. done. }
  destruct (update_decision _ _ _) as [allow reason].
  destruct (finalized_of cur && negb allow); [exact Hwf|].
  destruct allow; [|exact Hwf].
  intros d [= <-]. cbn. done.
Qed.

Lemma run_well_formed us : ∀ cur, well_formed cur → well_formed (run cur us).
Proof.
  induction us as [|u us IH]; intros cur Hwf; [exact Hwf|].
  cbn. apply IH. unfold apply_update. by apply update_entry_well_formed.
Qed.

Lemma is_final_cases s :
  is_final s = true →
  s = "completed" ∨ s = "noanswer" ∨ s = "busy" ∨ s = "rejected"
  ∨ s = "aborted" ∨ s = "opted_out".
Proof.
  intros H. apply str_in_spec in H. unfold final_statuses in H.
  repeat (apply elem_of_cons in H as [H|H]; [auto 10|]).
  by apply elem_of_nil in H.
Qed.

(** On a finalized entry with a final status, an update that lowers the
    significance is the waiting reset, which also clears the flag, or the
    definitive override, which writes completed, opted_out or aborted
    over the final status and leaves the entry finalized. *)
Lemma finalized_decrease d u o d' :
  finalized_in_memory d = true →
  is_final (status d) = true →
  apply_update (Some d) u = (o, Some d') →
  significance (status d') < significance (status d) →
  (u_status u = "waiting" ∧ o = StatusResetWaiting
   ∧ status d' = "waiting" ∧ finalized_in_memory d' = false)
  ∨ (o = StatusUpdated "Definitive final state override"
     ∧ str_in (u_status u) ["completed"; "opted_out"; "aborted"] = true
     ∧ status d' = u_status u ∧ finalized_in_memory d' = true).
Proof.
  intros Hfin Hfinal Happ Hlt.
  unfold apply_update, update_entry in Happ. cbn [current_status_of finalized_of] in Happ.
  destruct (String.eqb (u_status u) "waiting") eqn:Hw.
  { left. apply String.eqb_eq in Hw. injection Happ as <- <-.
    cbn [status finalized_in_memory]. done. }
  right. rewrite Hfin in Happ.
  assert (String.eqb (status d) "" = false) as Hne.
  { apply is_final_cases in Hfinal.
    destruct Hfinal as [->|[->|[->|[->|[->| ->]]]]]; reflexivity. }
  assert (str_in (status d) ["dialing"; "ringing"] = false) as Htr.
  { apply is_final_cases in Hfinal.
    destruct Hfinal as [->|[->|[->|[->|[->| ->]]]]]; reflexivity. }
  rewrite Hne in Happ. unfold update_decision in Happ. rewrite Htr in Happ.
  destruct (significance (status d) <? significance (u_status u)) eqn:Hhi.
  { cbn [andb negb] in Happ. injection Happ as <- <-. cbn [status] in Hlt.
    apply Z.ltb_lt in Hhi. lia. }
  destruct (String.eqb (u_status u) (status d)) eqn:Hsame.
  { cbn [andb negb] in Happ. injection Happ as <- <-. cbn [status] in Hlt.
    apply String.eqb_eq in Hsame. rewrite Hsame in Hlt. lia. }
  cbn [andb negb] in Happ.
  destruct (str_in (u_status u) ["completed"; "opted_out"; "aborted"]) eqn:Hdef;
    cbn [andb] in Happ.
  - destruct (significance (u_status u) <? significance (status d)) eqn:Hlo.
    + cbn [andb negb] in Happ. injection Happ as <- <-.
      cbn [status finalized_in_memory]. repeat split.
      unfold is_final, final_statuses. apply str_in_spec in Hdef.
      apply elem_of_cons in Hdef as [->|Hdef]; [reflexivity|].
      apply elem_of_cons in Hdef as [->|Hdef]; [reflexivity|].
      apply elem_of_cons in Hdef as [->|Hdef]; [reflexivity|].
      by apply elem_of_nil in Hdef.
    + rewrite ?andb_false_r in Happ. cbn [andb negb] in Happ.
      injection Happ as <- <-. lia.
  - rewrite ?andb_false_r in Happ. cbn [andb negb] in Happ.
    injection Happ as <- <-. lia.
Qed.

End CallStoreFacts.

(** C1 (as the code runs it). Starting from an empty store,
    [update(dialing)] creates the entry with [finalized_in_memory] false and
    [update(ringing)] is applied; the next [update(dialing)] is not rejected:
    it is applied through the branch "From transitional to non-transitional"
    and the status goes back from ringing to dialing. Then
    [update(answered)] is applied, a hangup with cause "NORMAL_CLEARING"
    gives completed with [finalized_in_memory] true, and a later
    [update(ringing)] is skipped and leaves the store as it is. *)
Theorem C1_scenario_redial_overwrites_ringing :
  let upd st s now :=
    CallStore.update_call_status "7" "5551234" s None None None now st in
  let entry st := CallStore.get_call st "7" "5551234" in
  let r1 := upd ∅ "dialing" 1 in
  let r2 := upd r1.2 "ringing" 2 in
  let r3 := upd r2.2 "dialing" 3 in
  let r4 := upd r3.2 "answered" 4 in
  let r5 := Hangup.handle_hangup "7" "5551234"
              {[ "Cause-txt" := "NORMAL_CLEARING" ]} 5 r4.2 in
  let r6 := upd r5.2 "ringing" 6 in
  entry ∅ = None
  ∧ r1.1 = CallStore.StatusInitialSet
  ∧ CallStore.status <$> entry r1.2 = Some "dialing"
  ∧ CallStore.finalized_in_memory <$> entry r1.2 = Some false
  ∧ r2.1 = CallStore.StatusUpdated "Higher significance"
  ∧ CallStore.status <$> entry r2.2 = Some "ringing"
  ∧ CallStore.significance "dialing" < CallStore.significance "ringing"
  ∧ r3.1 = CallStore.StatusUpdated "From transitional to non-transitional"
  ∧ CallStore.status <$> entry r3.2 = Some "dialing"
  ∧ r4.1 = CallStore.StatusUpdated "Higher significance"
  ∧ CallStore.status <$> entry r4.2 = Some "answered"
  ∧ CallStore.status <$> entry r5.2 = Some "completed"
  ∧ CallStore.finalized_in_memory <$> entry r5.2 = Some true
  ∧ r6.1 = CallStore.UpdateSkippedFinalized
  ∧ r6.2 = r5.2.
Proof. vm_compute. repeat split; reflexivity. Qed.

(** C3. Take any sequence of calls of the update function on one
    (campaign, recipient) entry, from an absent entry or from any entry
    whose finalized flag goes with a final status. Once the entry is
    finalized its status is a final one, and a further call that lowers the
    significance of the status is one of two things. Either it is the
    unconditional waiting reset: the status becomes waiting and the flag is
    cleared. Or it took the definitive override, terminal over terminal:
    the new status is completed, opted_out or aborted, it replaces a final
    status, the entry holds it afterwards and stays finalized. The stuck
    dialing/ringing override is never the exit of such a call: it asks for
    a current status of dialing or ringing, which a finalized entry does
    not hold. *)
Theorem C3_finalized_significance_monotone
    (start : option CallStore.CallData) (us : list CallStore.Update)
    (u : CallStore.Update) (d d' : CallStore.CallData) (o : CallStore.outcome) :
  CallStore.well_formed start →
  CallStore.run start us = Some d →
  CallStore.finalized_in_memory d = true →
  CallStore.apply_update (Some d) u = (o, Some d') →
  CallStore.significance (CallStore.status d')
    < CallStore.significance (CallStore.status d) →
  CallStore.is_final (CallStore.status d) = true
  ∧ o ≠ CallStore.StatusUpdated "AMI final status override stuck status"
  ∧ ((CallStore.u_status u = "waiting"
      ∧ o = CallStore.StatusResetWaiting
      ∧ CallStore.status d' = "waiting"
      ∧ CallStore.finalized_in_memory d' = false)
     ∨ (o = CallStore.StatusUpdated "Definitive final state override"
        ∧ Py.str_in (CallStore.u_status u) ["completed"; "opted_out"; "aborted"]
          = true
        ∧ CallStore.status d' = CallStore.u_status u
        ∧ CallStore.is_final (CallStore.status d') = true
        ∧ CallStore.finalized_in_memory d' = true)).
Proof.
  intros Hwf Hrun Hfin Happ Hlt.
  pose proof (run_well_formed us start Hwf d Hrun Hfin) as Hfinal.
  split; [exact Hfinal|].
  destruct (finalized_decrease d u o d' Hfin Hfinal Happ Hlt)
    as [(Hw & Ho & Hs & Hf)|(Ho & Hin & Hs & Hf)].
  - split; [rewrite Ho; discriminate|]. left. done.
  - split; [rewrite Ho; discriminate|]. right.
    split; [exact Ho|]. split; [exact Hin|]. split; [exact Hs|].
    split; [|exact Hf].
    assert (CallStore.well_formed (CallStore.apply_update (Some d) u).2) as Hwf'.
    { unfold CallStore.apply_update. apply update_entry_well_formed.
      intros x [= <-] _. exact Hfinal. }
    rewrite Happ in Hwf'. by apply Hwf'.
Qed.

Lemma C3_finalized_significance_monotone_witness :
  let u := CallStore.mkUpdate "completed" None None None 3 in
  let d := CallStore.mkCallData "noanswer" None 2 None None true in
  let d' := CallStore.mkCallData "completed" None 3 None None true in
  let o := CallStore.StatusUpdated "Definitive final state override" in
  CallStore.is_final (CallStore.status d) = true
  ∧ o ≠ CallStore.StatusUpdated "AMI final status override stuck status"
  ∧ ((CallStore.u_status u = "waiting"
      ∧ o = CallStore.StatusResetWaiting
      ∧ CallStore.status d' = "waiting"
      ∧ CallStore.finalized_in_memory d' = false)
     ∨ (o = CallStore.StatusUpdated "Definitive final state override"
        ∧ Py.str_in (CallStore.u_status u) ["completed"; "opted_out"; "aborted"]
          = true
        ∧ CallStore.status d' = CallStore.u_status u
        ∧ CallStore.is_final (CallStore.status d') = true
        ∧ CallStore.finalized_in_memory d' = true)).
Proof.
  apply (C3_finalized_significance_monotone None
           [CallStore.mkUpdate "dialing" None None None 1;
            CallStore.mkUpdate "noanswer" None None None 2]
           (CallStore.mkUpdate "completed" None None None 3)
           (CallStore.mkCallData "noanswer" None 2 None None true)
           (CallStore.mkCallData "completed" None 3 None None true)).
  - intros d Hd. discriminate Hd.
  - reflexivity.
  - reflexivity.
  - reflexivity.
  - vm_compute. reflexivity.
Defined.

(** ** Hangup classification *)

Section HangupFacts.
Import Py CallStore Hangup.

(** What [update_call_status] does to the entry it addresses is
    [update_entry] on that entry. *)
Lemma update_call_status_entry c p s dt a u now
    (ac : gmap string (gmap string CallData)) :
  get_call (update_call_status c p s dt a u now ac).2 c p
  = (update_entry (get_call ac c p) s dt a u now).2.
Proof.
  unfold update_call_status, get_call.
  assert (default ∅ (ac !! c) !! p = ac !! c ≫= (.!! p)) as ->.
  { destruct (ac !! c); cbn; [done | apply lookup_empty]. }
  destruct (update_entry _ _ _ _ _ _) as [o [d|]] eqn:He; cbn.
  - by rewrite lookup_insert_eq; cbn; rewrite lookup_insert_eq.
  - rewrite lookup_insert_eq. cbn.
    unfold update_entry in He.
    destruct (String.eqb s "waiting"); [discriminate He|].
    destruct (ac !! c ≫= (.!! p)) as [d|] eqn:Hd.
    + destruct (ac !! c); cbn in *; [|discriminate Hd].
      destruct (String.eqb _ ""); [discriminate He|].
      destruct (update_decision _ _ _) as [allow reason].
      destruct (_ && _); [discriminate He|].
      destruct allow; discriminate He.
    + cbn in He. discriminate He.
Qed.

(** The other entries are not touched. *)
Lemma update_call_status_other c p s dt a u now c' p'
    (ac : gmap string (gmap string CallData)) :
  (c', p') ≠ (c, p) →
  get_call (update_call_status c p s dt a u now ac).2 c' p' = get_call ac c' p'.
Proof.
  intros Hne. unfold update_call_status, get_call.
  destruct (update_entry _ _ _ _ _ _) as [o [d|]]; cbn.
  - destruct (decide (c' = c)) as [->|Hc].
    + rewrite lookup_insert_eq. cbn.
      rewrite lookup_insert_ne by congruence.
      destruct (ac !! c); cbn; [done | apply lookup_empty].
    + by rewrite lookup_insert_ne.
  - destruct (decide (c' = c)) as [->|Hc].
    + rewrite lookup_insert_eq. cbn.
      destruct (ac !! c); cbn; [done | apply lookup_empty].
    + by rewrite lookup_insert_ne.
Qed.

(** Refreshing an entry with the status it already has keeps the status. *)
Lemma same_status_kept d dt a u now :
  status d ≠ "waiting" → status d ≠ "" →
  status <$> (update_entry (Some d) (status d) dt a u now).2 = Some (status d).
Proof.
  intros Hw He. unfold update_entry. cbn [current_status_of finalized_of].
  apply String.eqb_neq in Hw, He. rewrite Hw, He.
  unfold update_decision. rewrite Z.ltb_irrefl, String.eqb_refl.
  by destruct (finalized_in_memory d).
Qed.

End HangupFacts.

(** C4 (amended). A hangup selects the final status from the current
    status and the cause text, compared in lower case: a current status of
    opted_out or aborted is kept, whatever the cause; otherwise the
    substring "user busy" gives busy; failing that "no answer" or "timeout"
    give noanswer; failing that "rejected", "congestion" or "unallocated"
    give rejected; anything else gives completed. Two causes that differ
    only in letter case are classified alike, and after the hangup is
    handled an entry that was opted_out or aborted still is. *)
Theorem C4_hangup_classification (current : option string) (cause : string) :
  let final_status := (Hangup.hangup_final_status current cause).1 in
  let has w := ∃ pre suf, Py.lower cause = pre +:+ w +:+ suf in
  (current = Some "opted_out" → final_status = "opted_out")
  ∧ (current = Some "aborted" → final_status = "aborted")
  ∧ (current ≠ Some "opted_out" → current ≠ Some "aborted" →
       (has "user busy" → final_status = "busy")
       ∧ (¬ has "user busy" → has "no answer" ∨ has "timeout" →
            final_status = "noanswer")
       ∧ (¬ has "user busy" → ¬ has "no answer" → ¬ has "timeout" →
            has "rejected" ∨ has "congestion" ∨ has "unallocated" →
            final_status = "rejected")
       ∧ (¬ has "user busy" → ¬ has "no answer" → ¬ has "timeout" →
            ¬ has "rejected" → ¬ has "congestion" → ¬ has "unallocated" →
            final_status = "completed"))
  ∧ (∀ cause', Py.lower cause' = Py.lower cause →
       (Hangup.hangup_final_status current cause').1 = final_status)
  ∧ (∀ campaign phone event now
       (active_calls : gmap string (gmap string CallStore.CallData)) st,
       CallStore.status <$> CallStore.get_call active_calls campaign phone = Some st →
       st = "opted_out" ∨ st = "aborted" →
       CallStore.status <$>
         CallStore.get_call
           (Hangup.handle_hangup campaign phone event now active_calls).2
           campaign phone
       = Some st).
Proof.
  cbn zeta. unfold Hangup.hangup_final_status.
  assert (∀ w, Py.contains w (Py.lower cause) = true
               ↔ ∃ pre suf, Py.lower cause = pre +:+ w +:+ suf) as Hc
    by (intros w; apply contains_spec).
  assert (∀ w, Py.contains w (Py.lower cause) = false
               ↔ ¬ ∃ pre suf, Py.lower cause = pre +:+ w +:+ suf) as Hn.
  { intros w. rewrite <- Hc. by destruct (Py.contains w _). }
  split; [by intros ->|]. split; [by intros ->|]. split.
  { intros Ho Ha.
    assert (Py.opt_is current "opted_out" = false) as ->.
    { destruct current as [s|]; [|done]. cbn. apply String.eqb_neq. congruence. }
    assert (Py.opt_is current "aborted" = false) as ->.
    { destruct current as [s|]; [|done]. cbn. apply String.eqb_neq. congruence. }
    split; [by intros ->%Hc|].
    split.
    { intros ->%Hn [->%Hc | ->%Hc]; [done|]. by rewrite orb_true_r. }
    split.
    { intros ->%Hn ->%Hn ->%Hn [->%Hc | [->%Hc | ->%Hc]]; cbn [orb fst];
        [done | by rewrite orb_true_r | by rewrite !orb_true_r]. }
    by intros ->%Hn ->%Hn ->%Hn ->%Hn ->%Hn ->%Hn. }
  split.
  { intros cause' ->.
    destruct (Py.opt_is current "opted_out"); [done|].
    destruct (Py.opt_is current "aborted"); [done|].
    destruct (Py.contains "user busy" _); [done|].
    destruct (_ || _); [done|]. by destruct (_ || _). }
  intros campaign phone event now active_calls st Hst Hcase.
  unfold Hangup.handle_hangup.
  destruct (CallStore.get_call active_calls campaign phone) as [d|] eqn:Hd;
    [|discriminate Hst].
  injection Hst as Hst. cbn [fmap option_fmap option_map].
  assert (Hangup.hangup_final_status (Some (CallStore.status d))
            (default "Unknown" (event !! "Cause-txt"))
          = (st, if String.eqb st "opted_out"
                 then "Member opted out (0# pressed)"
                 else "Call aborted by admin")) as ->.
  { rewrite Hst. by destruct Hcase as [-> | ->]. }
  rewrite update_call_status_entry, Hd, <- Hst.
  apply same_status_kept; rewrite Hst; by destruct Hcase as [-> | ->].
Qed.

Lemma C4_hangup_classification_witness :
  (Hangup.hangup_final_status (Some "answered") "User busy").1 = "busy".
Proof.
  destruct (C4_hangup_classification (Some "answered") "User busy")
    as (_ & _ & H & _).
  apply H; [done | done |]. by exists "", "".
Defined.

(** C4 (as stated, refuted). The cause "Line busy" has the substring
    "busy" in lower case, and yet the hangup is classified completed: the
    code looks for "user busy". *)
Lemma C4_busy_substring_counterexample :
  (∃ pre suf, Py.lower "Line busy" = pre +:+ "busy" +:+ suf)
  ∧ (Hangup.hangup_final_status (Some "answered") "Line busy").1 = "completed"
  ∧ (Hangup.hangup_final_status (Some "answered") "Line busy").1 ≠ "busy".
Proof. split; [by exists "line ", "" | split; [reflexivity | discriminate]]. Qed.

(** ** The pending correlation cache *)

(** C6 (amended). A lookup returns the campaign of the entry registered
    for the recipient when the entry is at most 120 seconds old, and keeps
    the cache as it is; when the entry is more than 120 seconds old the
    lookup returns nothing and removes the entry; a recipient without an
    entry gets nothing. In particular a lookup made more than 120 seconds
    after the registration never returns the registered campaign. *)
Theorem C6_pending_lookup_expiry (phone : string) (now : Z)
    (pending_correlations : gmap string Pending.PendingCall) :
  match pending_correlations !! phone with
  | Some entry =>
      (now - Pending.timestamp entry ≤ 120 * 1000000 →
         Pending.get_pending_campaign phone now pending_correlations
         = (Some (Pending.campaign_id entry), pending_correlations))
      ∧ (120 * 1000000 < now - Pending.timestamp entry →
           Pending.get_pending_campaign phone now pending_correlations
           = (None, delete phone pending_correlations))
  | None =>
      Pending.get_pending_campaign phone now pending_correlations
      = (None, pending_correlations)
  end
  ∧ (∀ campaign action registered_at,
       120 * 1000000 < now - registered_at →
       (Pending.get_pending_campaign phone now
          (Pending.register_pending_call phone campaign action registered_at
             pending_correlations)).1 = None)
  ∧ (∀ campaign action registered_at,
       now - registered_at ≤ 120 * 1000000 →
       (Pending.get_pending_campaign phone now
          (Pending.register_pending_call phone campaign action registered_at
             pending_correlations)).1 = Some campaign).
Proof.
  unfold Pending.get_pending_campaign, Pending.register_pending_call,
    Py.total_seconds_gt.
  split; [|split].
  - destruct (pending_correlations !! phone) as [entry|]; [|done].
    split; intros H.
    + by rewrite (proj2 (Z.ltb_ge _ _)) by lia.
    + by rewrite (proj2 (Z.ltb_lt _ _)) by lia.
  - intros campaign action registered_at H. rewrite lookup_insert_eq.
    cbn [Pending.timestamp]. by rewrite (proj2 (Z.ltb_lt _ _)) by lia.
  - intros campaign action registered_at H. rewrite lookup_insert_eq.
    cbn [Pending.timestamp]. by rewrite (proj2 (Z.ltb_ge _ _)) by lia.
Qed.

Lemma C6_pending_lookup_expiry_witness :
  (Pending.get_pending_campaign "5551234" 200000000
     (Pending.register_pending_call "5551234" "7" "a-1" 0 ∅)).1 = None.
Proof.
  destruct (C6_pending_lookup_expiry "5551234" 200000000 ∅) as (_ & H & _).
  apply H. lia.
Defined.

(** C6 (as stated, refuted). An entry looked up exactly 120 seconds after
    it was registered is not younger than 120 seconds, and the lookup
    returns its campaign all the same. *)
Lemma C6_lookup_at_120s_counterexample :
  let registered_at := 0 in
  let now := 120 * 1000000 in
  ¬ (now - registered_at < 120 * 1000000)
  ∧ (Pending.get_pending_campaign "5551234" now
       (Pending.register_pending_call "5551234" "7" "a-1" registered_at ∅)).1
    = Some "7".
Proof. split; [cbn; lia | reflexivity]. Qed.

(** ** The keypad buffer *)

Section DtmfFacts.
Import Py CallStore Dtmf.

Lemma accumulate_timestamp st digit now :
  timestamp (accumulate st digit now) = Some now.
Proof.
  unfold accumulate. destruct st as [b [t|]]; cbn; [|done].
  by destruct (total_seconds_gt _ _).
Qed.

(** The event that completes the sequence for a recipient the members
    table knows: one opt-out push, the flag written, the buffer emptied. *)
Lemma handle_dtmf_opt_out campaign phone digit aid uid now w m :
  buffer (accumulate (buffer_before w phone) digit now) = "0#" →
  select_member_id (members w) phone = Some m → m ≠ 0 →
  let w' := handle_dtmf campaign phone digit aid uid now DbWorks w in
  pushes w' = pushes w ++ [received digit; opted]
  ∧ members w' = update_remove_from_call_status m 1 (members w)
  ∧ dtmf_state_buffer w' !! phone = Some {| buffer := ""; timestamp := Some now |}.
Proof.
  intros Hbuf Hsel Hm. unfold handle_dtmf, push, buffer_before in *.
  cbn [active_calls dtmf_state_buffer members pushes].
  rewrite Hbuf, Hsel. cbn [String.eqb Ascii.eqb Bool.eqb].
  apply Z.eqb_neq in Hm. rewrite Hm.
  cbn [active_calls dtmf_state_buffer members pushes].
  split; [rewrite <- app_assoc; reflexivity|]. split; [reflexivity|].
  by rewrite lookup_insert_eq, accumulate_timestamp.
Qed.

(** Every other event pushes the keypad update alone and stores the
    buffer as it was taken in. *)
Lemma handle_dtmf_no_opt_out campaign phone digit aid uid now db w :
  buffer (accumulate (buffer_before w phone) digit now) ≠ "0#"
  ∨ db ≠ DbWorks
  ∨ select_member_id (members w) phone = None
  ∨ select_member_id (members w) phone = Some 0 →
  let w' := handle_dtmf campaign phone digit aid uid now db w in
  pushes w' = pushes w ++ [received digit]
  ∧ members w' = members w
  ∧ dtmf_state_buffer w' !! phone
    = Some (accumulate (buffer_before w phone) digit now).
Proof.
  intros H. unfold handle_dtmf, push, buffer_before in *.
  cbn [active_calls dtmf_state_buffer members pushes].
  destruct (String.eqb (buffer _) "0#") eqn:Hb.
  - apply String.eqb_eq in Hb.
    destruct db; cbn [active_calls dtmf_state_buffer members pushes].
    + destruct (select_member_id (members w) phone) as [m|] eqn:Hsel.
      * destruct (m =? 0) eqn:Hm0.
        -- cbn. by rewrite lookup_insert_eq.
        -- apply Z.eqb_neq in Hm0.
           destruct H as [H|[H|[H|H]]]; [done | done | done | congruence].
      * cbn. by rewrite lookup_insert_eq.
    + cbn. by rewrite lookup_insert_eq.
    + destruct (select_member_id (members w) phone) as [m|] eqn:Hsel;
        [destruct (m =? 0)|]; cbn; by rewrite lookup_insert_eq.
  - cbn. by rewrite lookup_insert_eq.
Qed.

Lemma count_opted_out_app l1 l2 :
  count_opted_out (l1 ++ l2) = (count_opted_out l1 + count_opted_out l2)%nat.
Proof. unfold count_opted_out. by rewrite filter_app, length_app. Qed.

Lemma select_member_id_found members phone m :
  select_member_id members phone = Some m →
  ∃ r, r ∈ members ∧ id r = m ∧ phone_number r = phone.
Proof.
  induction members as [|r members IH]; [done|]. cbn.
  destruct (String.eqb (phone_number r) phone) eqn:He.
  - intros [= <-]. apply String.eqb_eq in He. exists r. split; [left|done].
  - intros H. destruct (IH H) as (r' & Hin & Hr'). exists r'. split; [by right|done].
Qed.

(** After the flag is written every row of that member carries it. *)
Lemma flag_written members m r :
  r ∈ update_remove_from_call_status m 1 members →
  id r = m → remove_from_call r = Some 1.
Proof.
  unfold update_remove_from_call_status.
  intros Hin Hid. apply list_elem_of_In, in_map_iff in Hin as (r0 & Hr & _).
  destruct (id r0 =? m) eqn:He; subst r; [done|].
  apply Z.eqb_neq in He. done.
Qed.

Lemma accumulate_buffer st digit now :
  (∀ t, timestamp st = Some t → 2 * 1000000 < now - t →
        buffer (accumulate st digit now) = digit)
  ∧ (∀ t, timestamp st = Some t → now - t ≤ 2 * 1000000 →
          buffer (accumulate st digit now) = buffer st +:+ digit)
  ∧ (timestamp st = None → buffer (accumulate st digit now) = digit).
Proof.
  unfold accumulate, total_seconds_gt, DTMF_TIMEOUT_SECONDS.
  split; [|split].
  - intros t -> H. by rewrite (proj2 (Z.ltb_lt _ _)) by lia.
  - intros t -> H. by rewrite (proj2 (Z.ltb_ge _ _)) by lia.
  - by intros ->.
Qed.

(** The digit 0 that starts the buffer, then # no more than 2.0 seconds
    later: the two events together make one opt-out push. *)
Lemma zero_hash_opts_out_once campaign phone aid0 uid0 aid1 uid1 t0 t1 w m :
  buffer (accumulate (buffer_before w phone) "0" t0) = "0" →
  t1 - t0 ≤ 2 * 1000000 →
  select_member_id (members w) phone = Some m → m ≠ 0 →
  let w1 := handle_dtmf campaign phone "0" aid0 uid0 t0 DbWorks w in
  let w2 := handle_dtmf campaign phone "#" aid1 uid1 t1 DbWorks w1 in
  pushes w2 = pushes w ++ [received "0"; received "#"; opted]
  ∧ count_opted_out (pushes w2) = S (count_opted_out (pushes w))
  ∧ members w2 = update_remove_from_call_status m 1 (members w)
  ∧ buffer <$> dtmf_state_buffer w2 !! phone = Some "".
Proof.
  intros H0 Hgap Hsel Hm w1 w2.
  destruct (handle_dtmf_no_opt_out campaign phone "0" aid0 uid0 t0 DbWorks w)
    as (Hp1 & Hm1 & Hb1).
  { left. rewrite H0. discriminate. }
  fold w1 in Hp1, Hm1, Hb1.
  assert (buffer (accumulate (buffer_before w1 phone) "#" t1) = "0#") as Hacc.
  { assert (buffer_before w1 phone = accumulate (buffer_before w phone) "0" t0)
      as -> by (unfold buffer_before at 1; by rewrite Hb1).
    destruct (accumulate_buffer (accumulate (buffer_before w phone) "0" t0) "#" t1)
      as (_ & Happ & _).
    rewrite (Happ t0); [by rewrite H0 | apply accumulate_timestamp | done]. }
  destruct (handle_dtmf_opt_out campaign phone "#" aid1 uid1 t1 w1 m Hacc)
    as (Hp2 & Hm2 & Hb2); [by rewrite Hm1 | done |].
  fold w2 in Hp2, Hm2, Hb2.
  split; [by rewrite Hp2, Hp1, <- app_assoc|].
  split; [|split; [by rewrite Hm2, Hm1 | by rewrite Hb2]].
  rewrite Hp2, Hp1, <- app_assoc, count_opted_out_app.
  change (count_opted_out ([received "0"] ++ [received "#"; opted])) with 1%nat.
  lia.
Qed.

End DtmfFacts.

(** C5 (amended). A keypad digit that arrives more than 2.0 seconds after
    the previous one, or with no previous one, makes the buffer that single
    digit; a digit that arrives within 2.0 seconds is appended. When the
    buffer then equals "0#" and the members table has a row for the
    recipient's number (and persistence raises nothing), the event pushes
    one opted_out update after its dtmf_received update, writes the
    do-not-call flag of that member and empties the buffer. So the digit 0
    that starts the buffer followed by # within 2.0 seconds makes exactly
    one opt-out transition. In every other case (another buffer, no row for
    the number, persistence raising) the event pushes its dtmf_received
    update alone, writes no flag and stores the buffer as taken in. *)
Theorem C5_dtmf_buffer_opt_out (campaign phone digit : string)
    (aid uid : option string) (now : Z) (w : Dtmf.World) :
  let before := Dtmf.buffer_before w phone in
  let taken := Dtmf.accumulate before digit now in
  (∀ t, Dtmf.timestamp before = Some t → 2 * 1000000 < now - t →
        Dtmf.buffer taken = digit)
  ∧ (∀ t, Dtmf.timestamp before = Some t → now - t ≤ 2 * 1000000 →
          Dtmf.buffer taken = Dtmf.buffer before +:+ digit)
  ∧ (Dtmf.timestamp before = None → Dtmf.buffer taken = digit)
  ∧ (∀ m, Dtmf.buffer taken = "0#" →
          Dtmf.select_member_id (Dtmf.members w) phone = Some m → m ≠ 0 →
          let w' := Dtmf.handle_dtmf campaign phone digit aid uid now Dtmf.DbWorks w in
          Dtmf.pushes w' = Dtmf.pushes w ++ [Dtmf.received digit; Dtmf.opted]
          ∧ Dtmf.count_opted_out (Dtmf.pushes w')
            = S (Dtmf.count_opted_out (Dtmf.pushes w))
          ∧ (∃ r, r ∈ Dtmf.members w' ∧ Dtmf.id r = m ∧ Dtmf.phone_number r = phone)
          ∧ (∀ r, r ∈ Dtmf.members w' → Dtmf.id r = m → Dtmf.remove_from_call r = Some 1)
          ∧ Dtmf.buffer <$> Dtmf.dtmf_state_buffer w' !! phone = Some "")
  ∧ (∀ m aid' uid' later,
          Dtmf.buffer (Dtmf.accumulate before "0" now) = "0" →
          later - now ≤ 2 * 1000000 →
          Dtmf.select_member_id (Dtmf.members w) phone = Some m → m ≠ 0 →
          let w1 := Dtmf.handle_dtmf campaign phone "0" aid uid now Dtmf.DbWorks w in
          let w2 := Dtmf.handle_dtmf campaign phone "#" aid' uid' later Dtmf.DbWorks w1 in
          Dtmf.count_opted_out (Dtmf.pushes w2)
          = S (Dtmf.count_opted_out (Dtmf.pushes w))
          ∧ Dtmf.buffer <$> Dtmf.dtmf_state_buffer w2 !! phone = Some "")
  ∧ (∀ db,
          Dtmf.buffer taken ≠ "0#" ∨ db ≠ Dtmf.DbWorks
          ∨ Dtmf.select_member_id (Dtmf.members w) phone = None
          ∨ Dtmf.select_member_id (Dtmf.members w) phone = Some 0 →
          let w' := Dtmf.handle_dtmf campaign phone digit aid uid now db w in
          Dtmf.pushes w' = Dtmf.pushes w ++ [Dtmf.received digit]
          ∧ Dtmf.members w' = Dtmf.members w
          ∧ Dtmf.dtmf_state_buffer w' !! phone = Some taken).
Proof.
  cbn zeta.
  destruct (accumulate_buffer (Dtmf.buffer_before w phone) digit now)
    as (H1 & H2 & H3).
  split; [exact H1|]. split; [exact H2|]. split; [exact H3|].
  split; [|split].
  - intros m Hbuf Hsel Hm.
    destruct (handle_dtmf_opt_out campaign phone digit aid uid now w m Hbuf Hsel Hm)
      as (Hp & Hmem & Hb).
    split; [exact Hp|]. split.
    { rewrite Hp, count_opted_out_app.
      change (Dtmf.count_opted_out [Dtmf.received digit; Dtmf.opted]) with 1%nat. lia. }
    split.
    { destruct (select_member_id_found _ _ _ Hsel) as (r & Hin & Hid & Hph).
      exists {| Dtmf.id := Dtmf.id r; Dtmf.phone_number := Dtmf.phone_number r;
                Dtmf.remove_from_call := Some 1 |}.
      split; [|done]. rewrite Hmem. unfold Dtmf.update_remove_from_call_status.
      apply list_elem_of_In, in_map_iff. exists r.
      split; [|by apply list_elem_of_In].
      by rewrite (proj2 (Z.eqb_eq _ _) Hid). }
    split; [|by rewrite Hb].
    intros r Hin. rewrite Hmem in Hin. by apply (flag_written _ _ _ Hin).
  - intros m aid' uid' later H0 Hgap Hsel Hm.
    destruct (zero_hash_opts_out_once campaign phone aid uid aid' uid' now later
                w m H0 Hgap Hsel Hm) as (_ & Hc & _ & Hb).
    by split.
  - intros db Hcase.
    apply (handle_dtmf_no_opt_out campaign phone digit aid uid now db w Hcase).
Qed.

Lemma C5_dtmf_buffer_opt_out_witness :
  let w := Dtmf.mkWorld ∅ ∅ [Dtmf.mkMemberRow 3 "5551234" (Some 0)] [] in
  let w1 := Dtmf.handle_dtmf "7" "5551234" "0" None None 1000000 Dtmf.DbWorks w in
  let w2 := Dtmf.handle_dtmf "7" "5551234" "#" None None 2500000 Dtmf.DbWorks w1 in
  Dtmf.count_opted_out (Dtmf.pushes w2) = S (Dtmf.count_opted_out (Dtmf.pushes w))
  ∧ Dtmf.buffer <$> Dtmf.dtmf_state_buffer w2 !! "5551234" = Some "".
Proof.
  destruct (C5_dtmf_buffer_opt_out "7" "5551234" "0" None None 1000000
              (Dtmf.mkWorld ∅ ∅ [Dtmf.mkMemberRow 3 "5551234" (Some 0)] []))
    as (_ & _ & _ & _ & H & _).
  apply (H 3 None None 2500000); [reflexivity | lia | reflexivity | lia].
Defined.

(** C5 (as stated, refuted). The digits 0 then # arrive one second apart
    for a number the members table does not hold: the buffer equals "0#",
    and yet no opted_out update is pushed, no flag is written and the buffer
    is not cleared. *)
Lemma C5_unknown_member_counterexample :
  let w := Dtmf.mkWorld ∅ ∅ [Dtmf.mkMemberRow 3 "5550000" (Some 0)] [] in
  let w1 := Dtmf.handle_dtmf "7" "5551234" "0" None None 1000000 Dtmf.DbWorks w in
  let w2 := Dtmf.handle_dtmf "7" "5551234" "#" None None 2000000 Dtmf.DbWorks w1 in
  Dtmf.buffer <$> Dtmf.dtmf_state_buffer w2 !! "5551234" = Some "0#"
  ∧ Dtmf.count_opted_out (Dtmf.pushes w2) = 0%nat
  ∧ Dtmf.pushes w2 = [Dtmf.received "0"; Dtmf.received "#"]
  ∧ Dtmf.members w2 = Dtmf.members w.
Proof. vm_compute. repeat split; reflexivity. Qed.

(** ** Campaign promotion *)

Section CampaignFacts.
Import Py Campaigns.

Lemma update_status_found found_rows call_id st d r
    (scheduled_calls : gmap Z CallRow) :
  scheduled_calls !! call_id = Some r → d ≠ "" →
  update_status found_rows call_id st (Some d) scheduled_calls
  = (found_rows || row_changed r (set_status_details r st d),
     <[call_id := set_status_details r st d]> scheduled_calls).
Proof.
  intros Hr Hd. unfold update_status. rewrite Hr.
  apply String.eqb_neq in Hd. cbn. by rewrite Hd.
Qed.

Lemma row_changed_same r : row_changed r r = false.
Proof.
  unfold row_changed. rewrite String.eqb_refl.
  by rewrite bool_decide_eq_true_2.
Qed.

Lemma row_changed_status r r' :
  status r ≠ status r' → row_changed r r' = true.
Proof.
  intros H. unfold row_changed. apply String.eqb_neq in H. by rewrite H.
Qed.

End CampaignFacts.

(** C2 (amended). The status update that promotes a campaign is an update
    by id alone: whenever a row with that id exists it sets the status to
    ready, whatever the status was, and it reports success when the
    database counts a changed row (or, with found-rows counting, a matched
    row); without such a row it reports failure and changes nothing. When
    two workers flip the same pending campaign back to back, the first
    update succeeds and the second changes nothing; under the connector's
    default changed-rows counting the second reports failure, so only the
    first worker starts an execution task. *)
Theorem C2_promotion_flip (found_rows : bool) (call_id : Z)
    (scheduled_calls : gmap Z Campaigns.CallRow) :
  let flip := Campaigns.update_status found_rows call_id "ready"
                (Some "Ready for execution") in
  (scheduled_calls !! call_id = None →
     flip scheduled_calls = (false, scheduled_calls))
  ∧ (∀ r, scheduled_calls !! call_id = Some r →
       let r' := Campaigns.set_status_details r "ready" "Ready for execution" in
       flip scheduled_calls
       = (found_rows || Campaigns.row_changed r r',
          <[call_id := r']> scheduled_calls)
       ∧ Campaigns.status <$> (flip scheduled_calls).2 !! call_id = Some "ready")
  ∧ (∀ r, scheduled_calls !! call_id = Some r →
       Campaigns.status r = "pending" →
       let first := flip scheduled_calls in
       let second := flip first.2 in
       first.1 = true
       ∧ second.2 = first.2
       ∧ second.1 = found_rows
       ∧ Campaigns.promote found_rows [call_id] scheduled_calls
         = ([call_id], first.2)
       ∧ (Campaigns.promote found_rows [call_id] first.2).1
         = if found_rows then [call_id] else []).
Proof.
  cbn zeta. split; [|split].
  - intros Hn. unfold Campaigns.update_status. by rewrite Hn.
  - intros r Hr.
    rewrite (update_status_found _ _ _ _ r) by done.
    split; [done|]. cbn. by rewrite lookup_insert_eq.
  - intros r Hr Hp.
    set (r' := Campaigns.set_status_details r "ready" "Ready for execution").
    assert (Campaigns.update_status found_rows call_id "ready"
              (Some "Ready for execution") scheduled_calls
            = (true, <[call_id := r']> scheduled_calls)) as E1.
    { rewrite (update_status_found _ _ _ _ r) by done. fold r'.
      rewrite row_changed_status; [by rewrite orb_true_r|].
      rewrite Hp. discriminate. }
    assert (Campaigns.update_status found_rows call_id "ready"
              (Some "Ready for execution") (<[call_id := r']> scheduled_calls)
            = (found_rows, <[call_id := r']> scheduled_calls)) as E2.
    { rewrite (update_status_found _ _ _ _ r') by (by rewrite ?lookup_insert_eq).
      change (Campaigns.set_status_details r' "ready" "Ready for execution") with r'.
      by rewrite row_changed_same, orb_false_r, insert_insert_eq. }
    cbn [Campaigns.promote]. rewrite E1. cbn [fst snd]. rewrite E2. cbn [fst snd].
    repeat split; by destruct found_rows.
Qed.

Lemma C2_promotion_flip_witness :
  let t := {[ 7 := Campaigns.mkCallRow 1 0 None "Info" "pending" None ]} in
  let first := Campaigns.update_status false 7 "ready" (Some "Ready for execution") t in
  let second := Campaigns.update_status false 7 "ready" (Some "Ready for execution")
                  first.2 in
  first.1 = true ∧ second.2 = first.2 ∧ second.1 = false
  ∧ Campaigns.promote false [7] t = ([7], first.2)
  ∧ (Campaigns.promote false [7] first.2).1 = [].
Proof.
  destruct (C2_promotion_flip false 7
              {[ 7 := Campaigns.mkCallRow 1 0 None "Info" "pending" None ]})
    as (_ & _ & H).
  apply (H (Campaigns.mkCallRow 1 0 None "Info" "pending" None)); reflexivity.
Defined.

(** C2 (as stated, refuted). Two workers fetch the same due, pending
    campaign. The first flips it to ready and starts the execution task,
    which sets the campaign in progress; the flip of the second worker then
    finds the status in_progress, not pending, and still takes effect: it
    reports success, puts the status back to ready, and the second worker
    starts an execution task too. *)
Lemma C2_late_flip_counterexample :
  let t0 := {[ 7 := Campaigns.mkCallRow 1 0 None "Info" "pending" None ]} in
  let fetched1 := Campaigns.get_pending_calls_for_scheduling 10 t0 in
  let fetched2 := Campaigns.get_pending_calls_for_scheduling 10 t0 in
  let p1 := Campaigns.promote false fetched1 t0 in
  let e1 := Campaigns.execution_started false 7 p1.2 in
  let p2 := Campaigns.promote false fetched2 e1.2 in
  fetched1 = [7] ∧ fetched2 = [7]
  ∧ p1.1 = [7]
  ∧ Campaigns.status <$> e1.2 !! 7 = Some "in_progress"
  ∧ p2.1 = [7]
  ∧ Campaigns.status <$> p2.2 !! 7 = Some "ready".
Proof. vm_compute. repeat split; reflexivity. Qed.

(** ** The dial loop *)

Section DialLoopFacts.
Import Py CallStore DialLoop.

Lemma get_call_insert c p d (calls : gmap string CallData)
    (ac : gmap string (gmap string CallData)) :
  get_call (<[c := <[p := d]> calls]> ac) c p = Some d.
Proof. unfold get_call. rewrite lookup_insert_eq. cbn. apply lookup_insert_eq. Qed.

(** A rejected update lands on an entry that is dialing or rejected. *)
Lemma rejected_lands d dt a u now :
  status d = "dialing" ∨ status d = "rejected" →
  status <$> (update_entry (Some d) "rejected" dt a u now).2 = Some "rejected".
Proof.
  intros H. unfold update_entry, update_decision.
  cbn [current_status_of finalized_of].
  destruct H as [-> | ->]; cbn; by destruct (finalized_in_memory d).
Qed.

Lemma on_call_error_rejects campaign member e st d :
  get_call (active_calls st) campaign (phone_number member) = Some d →
  status d = "dialing" ∨ status d = "rejected" →
  ∃ d', get_call (active_calls (on_call_error campaign member e st))
          campaign (phone_number member) = Some d'
        ∧ status d' = (if truthy (Some (phone_number member))
                       then "rejected" else status d).
Proof.
  intros Hd Hs. unfold on_call_error.
  destruct (truthy (Some (phone_number member))); [|by exists d].
  cbn [active_calls]. rewrite update_call_status_entry, Hd.
  pose proof (rejected_lands d (Some ("Error: " +:+ error_text e)) None None
                (now e) Hs) as H.
  destruct (update_entry _ _ _ _ _ _).2 as [d'|]; [|discriminate H].
  injection H as H. by exists d'.
Qed.

End DialLoopFacts.

(** C7. Every pass of the dial loop that gets as far as the origination
    (no exception before the store, the campaign in progress, a client at
    hand) leaves an entry for the recipient in the call state store, and
    its status is dialing or rejected: rejected when the send failed, when
    the client was unavailable at the send, or when an exception came up
    after the entry was stored (for a recipient with a number); dialing
    otherwise. *)
Theorem C7_attempt_leaves_record (campaign : string) (member : DialLoop.Member)
    (e : DialLoop.Pass) (st : DialLoop.LoopState) :
  DialLoop.reaches_originate e = true →
  ∃ d,
    CallStore.get_call
      (DialLoop.active_calls (DialLoop.dial_member campaign member e st).2)
      campaign (DialLoop.phone_number member) = Some d
    ∧ (CallStore.status d = "dialing" ∨ CallStore.status d = "rejected")
    ∧ CallStore.status d
      = match DialLoop.raises e with
        | Some _ =>
            if Py.truthy (Some (DialLoop.phone_number member))
            then "rejected" else "dialing"
        | None =>
            if DialLoop.client_present e && DialLoop.send_action_ok e
            then "dialing" else "rejected"
        end.
Proof.
  unfold DialLoop.reaches_originate, DialLoop.dial_member.
  destruct (DialLoop.raises e) as [[]|] eqn:Hr; [discriminate| |];
    intros [Hs Hc]%andb_true_iff; rewrite Hs;
    apply String.eqb_eq in Hs; rewrite Hs; cbn [String.eqb Ascii.eqb Bool.eqb negb];
    apply orb_true_iff in Hc;
    (assert (negb (DialLoop.client_connected e) && negb (DialLoop.initialize_ok e)
             = false) as ->
       by (destruct Hc as [-> | ->]; [done | apply andb_false_r])).
  - set (rec := CallStore.mkCallData "dialing" _ _ _ _ _).
    set (st1 := DialLoop.mkLoopState _ _).
    destruct (on_call_error_rejects campaign member e st1 rec) as (d' & Hd' & Hst).
    { apply get_call_insert. }
    { by left. }
    exists d'. split; [exact Hd'|]. rewrite Hst.
    by destruct (Py.truthy _); auto.
  - set (rec := CallStore.mkCallData "dialing" _ _ _ _ _).
    destruct (DialLoop.client_present e); [destruct (DialLoop.send_action_ok e)|];
      cbn [snd DialLoop.active_calls andb].
    + exists rec. split; [apply get_call_insert | by auto].
    + rewrite update_call_status_entry, get_call_insert.
      eexists. split; [reflexivity|]. by auto.
    + rewrite update_call_status_entry, get_call_insert.
      eexists. split; [reflexivity|]. by auto.
Qed.

Lemma C7_attempt_leaves_record_witness :
  ∃ d,
    CallStore.get_call
      (DialLoop.active_calls
         (DialLoop.dial_member "7" (DialLoop.mkMember 3 "5551234")
            (DialLoop.mkPass (Some "in_progress") true true "a-1" true false
               None "" 1000000)
            (DialLoop.mkLoopState ∅ ∅)).2)
      "7" "5551234" = Some d
    ∧ (CallStore.status d = "dialing" ∨ CallStore.status d = "rejected")
    ∧ CallStore.status d = "rejected".
Proof.
  apply (C7_attempt_leaves_record "7" (DialLoop.mkMember 3 "5551234")
           (DialLoop.mkPass (Some "in_progress") true true "a-1" true false
              None "" 1000000)
           (DialLoop.mkLoopState ∅ ∅)).
  reflexivity.
Defined.
(** ** The connection handshake *)

Section AmiFacts.
Import Py Ami.
Variable decode : string → string.
Variable reads : nat.
Variable peer_at : Z → Peer.

Lemma bind_val {A B} (m : M A) (f : A → M B) st a st' :
  m st = (Val a, st') → (m ≫= f) st = f a st'.
Proof. intros H. unfold mbind, M_bind. by rewrite H. Qed.

(** *** Chunks of a stream of answers *)

Lemma chunks_ext s s' :
  (∀ n, s n = s' n) → ∀ n i, chunks s i n = chunks s' i n.
Proof.
  intros Hs n. induction n as [|n IH]; intros i; [done|].
  cbn [chunks]. by rewrite Hs, IH.
Qed.

Lemma chunks_shift s k : ∀ n i,
  chunks (λ m, s (k + m)%nat) i n = chunks s (k + i) n.
Proof.
  induction n as [|n IH]; intros i; [done|].
  cbn [chunks]. rewrite IH. by replace (k + S i)%nat with (S (k + i)) by lia.
Qed.

Lemma chunks_length s : ∀ n i cs, chunks s i n = Some cs → List.length cs = n.
Proof.
  induction n as [|n IH]; intros i cs; cbn [chunks].
  { by intros [= <-]. }
  destruct (timely (s i)) as [c|]; [|done].
  destruct (chunks s (S i) n) as [cs'|] eqn:E; [|done].
  intros [= <-]. cbn. by rewrite (IH _ _ E).
Qed.

Lemma chunks_take s : ∀ n i cs m,
  chunks s i n = Some cs → (m ≤ n)%nat → chunks s i m = Some (take m cs).
Proof.
  induction n as [|n IH]; intros i cs m; cbn [chunks].
  { intros [= <-] Hm. by replace m with 0%nat by lia. }
  destruct (timely (s i)) as [c|] eqn:Hc; [|done].
  destruct (chunks s (S i) n) as [cs'|] eqn:E; [|done].
  intros [= <-] Hm. destruct m as [|m]; [done|].
  cbn [chunks take]. by rewrite Hc, (IH _ _ m E) by lia.
Qed.

Lemma chunks_timely s : ∀ n i cs j,
  chunks s i n = Some cs → (j < n)%nat → is_Some (timely (s (i + j)%nat)).
Proof.
  induction n as [|n IH]; intros i cs j; cbn [chunks]; [lia|].
  destruct (timely (s i)) as [c|] eqn:Hc; [|done].
  destruct (chunks s (S i) n) as [cs'|] eqn:E; [|done].
  intros _ Hj. destruct j as [|j].
  - rewrite Nat.add_0_r, Hc. by eexists.
  - replace (i + S j)%nat with (S i + j)%nat by lia. apply (IH _ _ _ E). lia.
Qed.

Lemma text_cons c cs : text (c :: cs) = c +:+ text cs.
Proof. reflexivity. Qed.

Lemma text_app cs1 cs2 : text (cs1 ++ cs2) = text cs1 +:+ text cs2.
Proof.
  induction cs1 as [|c cs1 IH]; [done|].
  cbn [app]. by rewrite !text_cons, IH, append_assoc.
Qed.

Lemma contains_append_l sub a b :
  contains sub a = true → contains sub (a +:+ b) = true.
Proof.
  intros (pre & suf & ->)%contains_spec. apply contains_spec.
  exists pre, (suf +:+ b). by rewrite !append_assoc.
Qed.

(** Once the blank line is in the chunks read, it is in every longer run
    of chunks. *)
Lemma chunks_blank_mono s i n m cs cs' sub :
  chunks s i n = Some cs → chunks s i m = Some cs' → (n ≤ m)%nat →
  contains sub (text cs) = true → contains sub (text cs') = true.
Proof.
  intros Hn Hm Hle Hc.
  pose proof (chunks_take s m i cs' n Hm Hle) as Ht.
  rewrite Hn in Ht. injection Ht as ->.
  rewrite <- (take_drop n cs'), text_app. by apply contains_append_l.
Qed.

Lemma timely_some a c :
  timely a = Some c →
  ∃ d, a = Sends d c ∧ outlasts (Some 5) d = false ∧ String.eqb c "" = false.
Proof.
  destruct a as [d data| |]; cbn [timely]; [|done..].
  destruct (outlasts (Some 5) d) eqn:Ho; cbn [orb]; [done|].
  destruct (String.eqb data "") eqn:He; [done|].
  intros [= <-]. by exists d.
Qed.

(** *** The login loop *)

Lemma login_ends_step rb rbuf s s1 n r k d data :
  s 0%nat = Sends d data → outlasts (Some 5) d = false →
  String.eqb data "" = false →
  (∀ m, s1 m = s (S m)) →
  contains (CRLF +:+ CRLF) rb = false →
  login_ends decode (rb +:+ data) (rbuf +:+ decode data) s1 n r k →
  login_ends decode rb rbuf s (S n) r (S k).
Proof.
  intros Hs0 Hd He Hs1 Hrb Hends.
  assert (timely (s 0%nat) = Some data) as Ht.
  { rewrite Hs0. cbn [timely]. by rewrite Hd, He. }
  assert (∀ m, chunks s 1 m = chunks s1 0 m) as Hch.
  { intros m. rewrite (chunks_ext s1 (λ x, s (1 + x)%nat)) by (intros x; apply Hs1).
    by rewrite chunks_shift. }
  destruct r as [resp|e| |]; cbn [login_ends] in *.
  - destruct Hends as (cs & Hcs & Hblank & Hfirst & ->).
    exists (data :: cs). cbn [chunks]. rewrite Ht, Hch, Hcs.
    split; [done|]. rewrite text_cons, <- append_assoc. split; [done|].
    split.
    + intros [|j] Hj; cbn [take].
      * change (text []) with "". by rewrite append_nil_r.
      * rewrite text_cons, <- append_assoc. apply Hfirst. lia.
    + cbn [fmap list_fmap]. by rewrite text_cons, append_assoc.
  - destruct Hends as (cs & j & -> & Hcs & Hblank & Hlast).
    exists (data :: cs), (S j). cbn [chunks]. rewrite Ht, Hch, Hcs.
    split; [done|]. split; [done|].
    rewrite text_cons, <- append_assoc. split; [done|].
    by rewrite <- Hs1.
  - done.
  - destruct Hends as (-> & cs & Hcs & Hblank).
    split; [done|]. exists (data :: cs). cbn [chunks]. rewrite Ht, Hch, Hcs.
    split; [done|]. by rewrite text_cons, <- append_assoc.
Qed.

(** The login loop under the 5 second timeout: every read runs under
    it, and the loop ends as [login_ends] says. *)
Lemma login_wait_spec turns : ∀ rb rbuf st,
  current_timeout st = Some 5 →
  ∃ r st' k,
    login_wait decode turns rb rbuf st = (r, st')
    ∧ (k ≤ turns)%nat
    ∧ connected st' = connected st
    ∧ socket st' = socket st
    ∧ listener_started st' = listener_started st
    ∧ log st' = log st ++ replicate k (EvRecv (Some 5))
    ∧ login_ends decode rb rbuf (unread st) turns r k.
Proof.
  induction turns as [|n IH]; intros rb rbuf st Ht; cbn [login_wait].
  - destruct (contains (CRLF +:+ CRLF) rb) eqn:Hrb.
    + exists (Val rbuf), st, 0%nat. cbn [replicate]. rewrite app_nil_r.
      do 6 (split; [done|]). exists []. cbn [chunks take].
      change (text []) with "". change (text (decode <$> [])) with "".
      rewrite !append_nil_r. repeat split; try done. intros j Hj. lia.
    + exists Unfinished, st, 0%nat. cbn [replicate]. rewrite app_nil_r.
      do 6 (split; [done|]). split; [done|]. exists [].
      change (text []) with "". by rewrite append_nil_r.
  - destruct (contains (CRLF +:+ CRLF) rb) eqn:Hrb.
    { exists (Val rbuf), st, 0%nat. cbn [replicate]. rewrite app_nil_r.
      split; [done|]. split; [lia|]. do 4 (split; [done|]).
      exists []. cbn [chunks take].
      change (text []) with "". change (text (decode <$> [])) with "".
      rewrite !append_nil_r. repeat split; try done. intros j Hj. lia. }
    unfold mbind at 1, M_bind at 1, recv at 1. rewrite Ht.
    destruct (unread st 0) as [d data| |] eqn:Ha; cbn [recv_from consumed].
    + destruct (outlasts (Some 5) d) eqn:Hd.
      * eexists (Exc SocketTimeout), _, 1%nat. split; [reflexivity|].
        split; [lia|]. do 4 (split; [done|]).
        exists [], 0%nat. change (text []) with "". rewrite append_nil_r.
        repeat split; try done. by rewrite Ha, Hd.
      * cbn [negb]. destruct (String.eqb data "") eqn:He.
        { eexists (Exc _), _, 1%nat. split; [reflexivity|].
          split; [lia|]. do 4 (split; [done|]).
          exists [], 0%nat. change (text []) with "". rewrite append_nil_r.
          repeat split; try done. rewrite Ha, Hd.
          apply String.eqb_eq in He. by split. }
        set (st1 := {| connected := connected st; socket := socket st;
                       listener_started := listener_started st;
                       answers := answers st; taken := S (taken st);
                       log := log st ++ [EvRecv (Some 5)] |}).
        destruct (IH (rb +:+ data) (rbuf +:+ decode data) st1)
          as (r & st' & k & E & Hk & Hc & Hs & Hl & Hlog & Hends); [exact Ht|].
        rewrite E. exists r, st', (S k). split; [done|]. split; [lia|].
        do 3 (split; [done|]). split.
        { rewrite Hlog. cbn [log st1 replicate]. by rewrite <- app_assoc. }
        apply (login_ends_step rb rbuf (unread st) (unread st1) n r k d data);
          try done.
        intros m. unfold unread, st1. cbn [answers taken]. f_equal. lia.
    + eexists (Exc OSError), _, 1%nat. split; [reflexivity|].
      split; [lia|]. do 4 (split; [done|]).
      exists [], 0%nat. change (text []) with "". rewrite append_nil_r.
      repeat split; try done. by rewrite Ha.
    + eexists (Exc SocketTimeout), _, 1%nat. split; [reflexivity|].
      split; [lia|]. do 4 (split; [done|]).
      exists [], 0%nat. change (text []) with "". rewrite append_nil_r.
      repeat split; try done. by rewrite Ha.
Qed.

Local Arguments login_wait : simpl never.
Local Arguments contains : simpl never.
Local Arguments Z.mul : simpl never.
Local Arguments chunks : simpl never.

(** *** What the peer does, and what becomes of the attempt *)

Lemma not_reaching_fails p :
  reaches_login decode p = false → fails decode reads p.
Proof.
  intros H. split.
  - intros [Hr _]. congruence.
  - unfold keeps_reading. by rewrite H.
Qed.

Lemma login_answered_unique p cs1 cs2 :
  login_answered p cs1 → login_answered p cs2 → cs1 = cs2.
Proof.
  intros (H1 & Hb1 & Hf1) (H2 & Hb2 & Hf2).
  destruct (Nat.lt_trichotomy (List.length cs1) (List.length cs2)) as [Hlt|[Heq|Hlt]].
  - pose proof (chunks_take _ _ _ _ (List.length cs1) H2 ltac:(lia)) as Ht.
    rewrite H1 in Ht. injection Ht as Ht.
    specialize (Hf2 _ Hlt). rewrite <- Ht in Hf2. congruence.
  - rewrite Heq in H1. rewrite H1 in H2. by injection H2.
  - pose proof (chunks_take _ _ _ _ (List.length cs2) H1 ltac:(lia)) as Ht.
    rewrite H2 in Ht. injection Ht as Ht.
    specialize (Hf1 _ Hlt). rewrite <- Ht in Hf1. congruence.
Qed.

(** A peer whose login is accepted within [reads] reads does not keep
    the loop reading for [reads] reads. *)
Lemma accepts_not_keeps p :
  accepts_login decode reads p → keeps_reading decode reads p = false.
Proof.
  intros (Hr & cs & Hlen & (Hcs & Hblank & _) & _).
  unfold keeps_reading. rewrite Hr. cbn [andb].
  destruct (chunks (incoming p) 1 reads) as [cs'|] eqn:E; [|done].
  by rewrite (chunks_blank_mono _ _ _ _ _ _ _ Hcs E Hlen Hblank).
Qed.

(** What the login loop makes of the peer of an attempt that has got as
    far as the loop. *)
Lemma login_ends_peer p r k :
  reaches_login decode p = true →
  login_ends decode "" "" (λ m, incoming p (1 + m)%nat) reads r k →
  (k ≤ reads)%nat →
  match r with
  | Val resp =>
      if contains "Response: Success" resp
         && contains "Authentication accepted" resp
      then accepts_login decode reads p
      else fails decode reads p
  | Exc _ => fails decode reads p
  | Unfinished => keeps_reading decode reads p = true
  | Blocked => False
  end.
Proof.
  intros Hr Hends Hk.
  destruct r as [resp|e| |]; cbn [login_ends] in Hends.
  - destruct Hends as (cs & Hcs & Hblank & Hfirst & ->).
    rewrite chunks_shift in Hcs. cbn [Nat.add] in Hcs.
    rewrite !append_nil_l in *.
    pose proof (chunks_length _ _ _ _ Hcs) as Hlen.
    assert (login_answered p cs) as Hans.
    { split; [by rewrite Hlen|]. split; [done|].
      intros j Hj. specialize (Hfirst j ltac:(lia)).
      by rewrite append_nil_l in Hfirst. }
    destruct (contains "Response: Success" (text (decode <$> cs))
              && contains "Authentication accepted" (text (decode <$> cs)))
      eqn:Hm.
    + apply andb_true_iff in Hm as [Hm1 Hm2].
      split; [done|]. exists cs. split; [lia|]. split; [exact Hans|]. by split.
    + split.
      * intros (_ & cs2 & _ & Hans2 & Hm1 & Hm2).
        rewrite (login_answered_unique p cs2 cs Hans2 Hans) in Hm1, Hm2.
        by rewrite Hm1, Hm2 in Hm.
      * unfold keeps_reading. rewrite Hr. cbn [andb].
        destruct (chunks (incoming p) 1 reads) as [cs'|] eqn:E; [|done].
        by rewrite (chunks_blank_mono _ _ _ _ _ _ _ Hcs E Hk Hblank).
  - destruct Hends as (cs & j & -> & Hcs & Hblank & Hlast).
    rewrite chunks_shift in Hcs. cbn [Nat.add] in Hcs.
    rewrite append_nil_l in Hblank.
    assert (timely (incoming p (1 + j)%nat) = None) as Hun.
    { destruct (incoming p (1 + j)%nat) as [d data| |]; cbn [timely]; [|done..].
      destruct (outlasts (Some 5) d); [done|].
      destruct Hlast as [-> _]. done. }
    split.
    + intros (_ & cs2 & Hlen2 & (Hcs2 & Hb2 & _) & _).
      destruct (decide (List.length cs2 ≤ j)%nat) as [Hle|Hgt].
      * by rewrite (chunks_blank_mono _ _ _ _ _ _ _ Hcs2 Hcs Hle Hb2) in Hblank.
      * destruct (chunks_timely _ _ _ _ j Hcs2 ltac:(lia)) as [c Hc].
        congruence.
    + unfold keeps_reading. rewrite Hr. cbn [andb].
      destruct (chunks (incoming p) 1 reads) as [cs'|] eqn:E; [|done].
      destruct (chunks_timely _ _ _ _ j E ltac:(lia)) as [c Hc]. congruence.
  - done.
  - destruct Hends as (_ & cs & Hcs & Hblank).
    rewrite chunks_shift in Hcs. cbn [Nat.add] in Hcs.
    rewrite append_nil_l in Hblank.
    unfold keeps_reading. by rewrite Hr, Hcs, Hblank.
Qed.


Lemma forallb_handshake_recvs k :
  forallb handshake_event (replicate k (EvRecv (Some 5))) = true.
Proof. induction k; [done|]. cbn. exact IHk. Qed.

Lemma connects_recvs k t : connects (replicate k (EvRecv t)) = 0%nat.
Proof. unfold connects. induction k; [done|]. cbn. exact IHk. Qed.

Lemma connects_app l1 l2 : connects (l1 ++ l2) = (connects l1 + connects l2)%nat.
Proof. unfold connects. by rewrite List.filter_app, length_app. Qed.

Ltac attempt_failed H :=
  split; [reflexivity|]; split; [reflexivity|]; split; [reflexivity|];
  right; left; eexists; split; [reflexivity|];
  split; [apply not_reaching_fails; exact H|];
  split; [reflexivity|];
  split; [discriminate|]; cbn; by rewrite <- ?app_assoc.

Lemma attempt_body_clean i l ans tk lg :
  let st := mkState false None l ans tk lg in
  ∃ r st' evs,
    attempt_body decode reads peer_at i st = (r, st')
    ∧ attempt_ends decode reads (peer_at i) st r st' evs.
Proof.
  intros st. subst st. unfold attempt_ends.
  unfold attempt_body, settimeout, sock_connect, send, emit, set_socket, attach,
    set_connected, start_listener, raise, mbind, M_bind, mret, M_ret, get_state.
  cbn. unfold current_timeout. cbn.
  destruct (on_connect (peer_at i)) as [d| |] eqn:Hoc; cbn.
  2,3: assert (reaches_login decode (peer_at i) = false) as Hnr
         by (unfold reaches_login; by rewrite Hoc);
       eexists _, _, [EvSettimeout (Some 5); EvConnect (Some 5)];
       attempt_failed Hnr.
  destruct (5 * 1000 <=? d) eqn:Hd; cbn.
  { assert (reaches_login decode (peer_at i) = false) as Hnr
      by (unfold reaches_login; rewrite Hoc; cbn [outlasts]; by rewrite Hd).
    eexists _, _, [EvSettimeout (Some 5); EvConnect (Some 5)].
    attempt_failed Hnr. }
  destruct (incoming (peer_at i) 0) as [d' data| |] eqn:Hg; cbn.
  2,3: assert (reaches_login decode (peer_at i) = false) as Hnr
         by (unfold reaches_login; rewrite Hg; by rewrite andb_false_r);
       eexists _, _, [EvSettimeout (Some 5); EvConnect (Some 5); EvRecv (Some 5)];
       attempt_failed Hnr.
  destruct (5 * 1000 <=? d') eqn:Hd'; cbn.
  { assert (reaches_login decode (peer_at i) = false) as Hnr
      by (unfold reaches_login; rewrite Hg; cbn [outlasts]; rewrite Hd';
          by rewrite andb_false_r).
    eexists _, _, [EvSettimeout (Some 5); EvConnect (Some 5); EvRecv (Some 5)].
    attempt_failed Hnr. }
  destruct (contains "Asterisk Call Manager" (decode data)) eqn:Hb; cbn.
  2: { assert (reaches_login decode (peer_at i) = false) as Hnr
         by (unfold reaches_login; rewrite Hg, Hb; by rewrite !andb_false_r).
       eexists _, _, [EvSettimeout (Some 5); EvConnect (Some 5); EvRecv (Some 5)].
       attempt_failed Hnr. }
  destruct (accepts_send (peer_at i)) eqn:Hsend; cbn.
  2: { assert (reaches_login decode (peer_at i) = false) as Hnr
         by (unfold reaches_login; rewrite Hsend; by rewrite andb_false_r).
       eexists _, _, [EvSettimeout (Some 5); EvConnect (Some 5); EvRecv (Some 5);
                      EvSend (Some 5)].
       attempt_failed Hnr. }
  assert (reaches_login decode (peer_at i) = true) as Hreach.
  { unfold reaches_login. rewrite Hoc, Hg, Hb, Hsend. cbn [outlasts].
    by rewrite Hd, Hd'. }
  match goal with
  | |- context [login_wait _ ?f ?a ?b ?st] =>
      destruct (login_wait_spec f a b st)
        as (r & st' & k & E & Hk & Hc & Hs & Hl & Hlog & Hends);
        [reflexivity | rewrite E]
  end.
  cbn in Hc, Hs, Hl, Hlog.
  pose proof (login_ends_peer (peer_at i) r k Hreach Hends Hk) as Hpeer.
  assert (forallb handshake_event
            ([EvSettimeout (Some 5); EvConnect (Some 5); EvRecv (Some 5);
              EvSend (Some 5)]
             ++ replicate k (EvRecv (Some 5))) = true) as Hev
    by (rewrite forallb_app; cbn; apply forallb_handshake_recvs).
  assert (connects
            ([EvSettimeout (Some 5); EvConnect (Some 5); EvRecv (Some 5);
              EvSend (Some 5)]
             ++ replicate k (EvRecv (Some 5))) = 1%nat) as Hcn
    by (rewrite connects_app, connects_recvs; reflexivity).
  destruct r as [buf|e| |]; [| |done|].
  - destruct (contains "Response: Success" buf
              && contains "Authentication accepted" buf); cbn.
    + eexists _, _, _. split; [reflexivity|]. split; [exact Hev|].
      split; [exact Hcn|]. left. cbn. split; [done|]. split; [done|].
      split; [done|]. rewrite Hlog. by rewrite <- !app_assoc.
    + eexists _, _, _. split; [reflexivity|]. split; [exact Hev|].
      split; [exact Hcn|]. right. left. eexists. split; [done|]. split; [done|].
      split; [done|]. split; [by rewrite Hs|]. rewrite Hlog.
      by rewrite <- !app_assoc.
  - eexists _, _, _. split; [reflexivity|]. split; [exact Hev|].
    split; [exact Hcn|]. right. left. eexists. split; [done|]. split; [done|].
    split; [done|]. split; [by rewrite Hs|]. rewrite Hlog. by rewrite <- !app_assoc.
  - eexists _, _, _. split; [reflexivity|]. split; [exact Hev|].
    split; [exact Hcn|]. right. right. split; [done|]. split; [done|].
    split; [done|]. rewrite Hlog. by rewrite <- !app_assoc.
Qed.

(** A socket left over from before is closed first; from there the
    attempt runs as from a clean client. *)
Lemma attempt_body_disconnected i st :
  connected st = false →
  ∃ r st' evs,
    attempt_body decode reads peer_at i st = (r, st')
    ∧ attempt_ends decode reads (peer_at i) st r st' evs.
Proof.
  intros Hc. destruct st as [c [s|] l ans tk lg]; cbn in Hc; subst c.
  - destruct (attempt_body_clean i l ans tk (lg ++ [EvClose]))
      as (r & st' & evs & E & Hev & Hcn & Hend).
    exists r, st', (EvClose :: evs). split; [exact E|].
    split; [exact Hev|]. split; [exact Hcn|].
    cbn [log] in *. by rewrite <- !app_assoc in Hend.
  - apply attempt_body_clean.
Qed.

Section Loop.
Variables max_retries initial_delay : Z.

Lemma sleep_spec secs st :
  if sleeps_through secs
  then sleep secs st
       = (Val (), {| connected := connected st; socket := socket st;
                     listener_started := listener_started st;
                     answers := answers st; taken := taken st;
                     log := log st ++ [EvSleep secs] |})
  else ∃ e, sleep secs st = (Exc e, st) ∧ (e = ValueError ∨ e = OverflowError).
Proof.
  unfold sleeps_through, sleep, sleep_max.
  destruct (0 <=? secs) eqn:H0; cbn [andb].
  - apply Z.leb_le in H0.
    destruct (secs <=? 9223372036) eqn:H1.
    + apply Z.leb_le in H1.
      rewrite (proj2 (Z.ltb_ge _ _)), (proj2 (Z.ltb_ge _ _)) by lia.
      cbn [orb]. rewrite (proj2 (Z.ltb_ge _ _)) by lia. reflexivity.
    + apply Z.leb_gt in H1.
      rewrite (proj2 (Z.ltb_lt 9223372036 secs)) by lia.
      rewrite orb_true_r. exists OverflowError. by split; [|right].
  - apply Z.leb_gt in H0.
    destruct (_ || _).
    + exists OverflowError. by split; [|right].
    + rewrite (proj2 (Z.ltb_lt _ _)) by lia.
      exists ValueError. by split; [|left].
Qed.

(** The handler of [connect]: the socket is closed, and the sleep that
    follows, when there is one, either runs or raises out of
    [connect]. *)
Lemma on_connect_error_spec attempt e st :
  connected st = false → socket st ≠ None →
  ∃ st',
    connected st' = false
    ∧ if (attempt <? max_retries - 1)
         && negb (sleeps_through (initial_delay * 2 ^ attempt))
      then (∃ e', on_connect_error attempt max_retries initial_delay e st
                  = (Exc e', st')
                  ∧ (e' = ValueError ∨ e' = OverflowError))
           ∧ log st' = log st ++ [EvClose]
      else on_connect_error attempt max_retries initial_delay e st
           = (Val None, st')
           ∧ log st' = log st ++ EvClose ::
                       (if attempt <? max_retries - 1
                        then [EvSleep (initial_delay * 2 ^ attempt)] else []).
Proof.
  intros Hc Hs. destruct st as [c [s|] l ans tk lg]; [|done].
  cbn in Hc. subst c.
  unfold on_connect_error, disconnect, emit, set_socket, set_connected,
    raise, mbind, M_bind, mret, M_ret, get_state. cbn.
  destruct (attempt <? max_retries - 1); cbn [andb].
  - match goal with
    | |- context [sleep ?d ?st] => pose proof (sleep_spec d st) as Hsl
    end.
    destruct (sleeps_through (initial_delay * 2 ^ attempt)); cbn [negb].
    + rewrite Hsl. cbn. eexists. split; [|split]. 2: reflexivity.
      * reflexivity.
      * cbn. by rewrite <- !app_assoc.
    + destruct Hsl as (e' & -> & He'). eexists. split; [|split].
      2: { exists e'. split; [reflexivity | exact He']. }
      all: reflexivity.
  - eexists. split; [|split]. 2: reflexivity. all: reflexivity.
Qed.

Lemma handshake_events_tame evs :
  forallb handshake_event evs = true →
  sleeps evs = [] ∧ existsb unbounded_call evs = false
  ∧ existsb lifts_timeout evs = false.
Proof.
  induction evs as [|ev evs IH]; [done|]. cbn [forallb].
  intros [Hev Hevs]%andb_true_iff. destruct (IH Hevs) as (H1 & H2 & H3).
  cbn [existsb]. rewrite H2, H3. unfold sleeps in *. cbn [omap].
  destruct ev as [t|t|t|t| |]; cbn in Hev |- *; try done;
    rewrite ?H1; try done.
  - apply bool_decide_eq_true in Hev. by subst t.
  - unfold unbounded_call. cbn. by rewrite Hev.
  - unfold unbounded_call. cbn. by rewrite Hev.
  - unfold unbounded_call. cbn. by rewrite Hev.
Qed.

Lemma sleeps_app l1 l2 : sleeps (l1 ++ l2) = sleeps l1 ++ sleeps l2.
Proof. unfold sleeps. apply omap_app. Qed.

(** The loop of [connect] from a client that is not connected: [k]
    attempts fail, and then the loop ends in one of five ways. *)
Lemma connect_loop_spec remaining : ∀ attempt st,
  0 ≤ attempt → attempt + Z.of_nat remaining = max_retries →
  connected st = false →
  ∃ r st' evs (k : nat),
    connect_loop decode reads peer_at remaining attempt max_retries
      initial_delay st = (r, st')
    ∧ log st' = log st ++ evs
    ∧ existsb unbounded_call evs = false
    ∧ (existsb lifts_timeout evs = true ↔ r = Val true)
    ∧ (∀ j, (j < k)%nat →
            fails decode reads (peer_at (attempt + Z.of_nat j)))
    ∧ match r with
      | Val true =>
          (k < remaining)%nat
          ∧ accepts_login decode reads (peer_at (attempt + Z.of_nat k))
          ∧ connected st' = true
          ∧ connects evs = S k
          ∧ sleeps evs = backoff initial_delay attempt k
      | Val false =>
          k = remaining
          ∧ connected st' = false
          ∧ connects evs = k
          ∧ sleeps evs = backoff initial_delay attempt (pred k)
      | Unfinished =>
          (k < remaining)%nat
          ∧ keeps_reading decode reads (peer_at (attempt + Z.of_nat k)) = true
          ∧ connected st' = false
          ∧ connects evs = S k
          ∧ sleeps evs = backoff initial_delay attempt k
      | Exc e =>
          (0 < k < remaining)%nat
          ∧ sleeps_through
              (initial_delay * 2 ^ (attempt + Z.of_nat (pred k))) = false
          ∧ (e = ValueError ∨ e = OverflowError)
          ∧ connected st' = false
          ∧ connects evs = k
          ∧ sleeps evs = backoff initial_delay attempt (pred k)
      | Blocked => False
      end.
Proof.
  induction remaining as [|n IH]; intros attempt st Ha Hmax Hc.
  { exists (Val false), st, [], 0%nat. cbn. rewrite app_nil_r.
    split; [done|]. split; [done|]. split; [done|]. split; [done|].
    split; [intros j Hj; lia|]. done. }
  cbn [connect_loop]. unfold mbind, M_bind, try_except.
  destruct (attempt_body_disconnected attempt st Hc)
    as (r & st1 & evs1 & E & Hev & Hcn
        & [(-> & Hacc & Hc1 & Hlog1)
          | [(e & -> & Hfail & Hc1 & Hs1 & Hlog1)
            | (-> & Hkeep & Hc1 & Hlog1)]]);
    rewrite E; destruct (handshake_events_tame evs1 Hev) as (Hsl & Hub & Hlift).
  - exists (Val true), st1, (evs1 ++ [EvSettimeout None]), 0%nat.
    split; [reflexivity|]. split; [exact Hlog1|].
    rewrite !existsb_app, Hub, Hlift, connects_app, Hcn, sleeps_app, Hsl.
    split; [done|]. split; [done|]. split; [intros j Hj; lia|].
    rewrite Z.add_0_r. split; [lia|]. split; [exact Hacc|]. by split.
  - destruct (on_connect_error_spec attempt e st1 Hc1 Hs1) as (st2 & Hc2 & Hh).
    destruct ((attempt <? max_retries - 1)
              && negb (sleeps_through (initial_delay * 2 ^ attempt))) eqn:Hbad.
    + destruct Hh as ((e' & E2 & He') & Hlog2). rewrite E2.
      apply andb_true_iff in Hbad as [Hp Hst].
      apply negb_true_iff in Hst. apply Z.ltb_lt in Hp.
      exists (Exc e'), st2, (evs1 ++ [EvClose]), 1%nat.
      split; [reflexivity|].
      split; [rewrite Hlog2, Hlog1; by rewrite <- !app_assoc|].
      rewrite !existsb_app, Hub, Hlift, connects_app, Hcn, sleeps_app, Hsl.
      split; [done|]. split; [done|].
      split. { intros j Hj. replace j with 0%nat by lia. by rewrite Z.add_0_r. }
      cbn [pred]. rewrite Z.add_0_r. split; [lia|]. split; [exact Hst|].
      split; [exact He'|]. by split.
    + destruct Hh as (E2 & Hlog2). rewrite E2.
      destruct (IH (attempt + 1) st2)
        as (r & st' & evs2 & k & E3 & Hlog3 & Hub3 & Hl3 & Hfails & Hr);
        [lia | lia | done |].
      rewrite E3.
      set (sl := if attempt <? max_retries - 1
                 then [EvSleep (initial_delay * 2 ^ attempt)] else []) in *.
      exists r, st', (evs1 ++ EvClose :: sl ++ evs2), (S k).
      split; [by destruct r as [[]| | |]|].
      split; [rewrite Hlog3, Hlog2, Hlog1; by rewrite <- !app_assoc|].
      assert (existsb unbounded_call sl = false ∧ existsb lifts_timeout sl = false
              ∧ connects sl = 0%nat) as (Hsu & Hsll & Hsc)
        by (subst sl; by destruct (attempt <? max_retries - 1)).
      split.
      { rewrite existsb_app, Hub. cbn [existsb orb].
        change (unbounded_call EvClose) with false. cbn [orb].
        by rewrite existsb_app, Hsu, Hub3. }
      split.
      { rewrite existsb_app, Hlift. cbn [existsb orb].
        by rewrite existsb_app, Hsll. }
      split.
      { intros [|j] Hj; [by rewrite Z.add_0_r|].
        replace (attempt + Z.of_nat (S j)) with (attempt + 1 + Z.of_nat j) by lia.
        apply Hfails. lia. }
      assert (connects (evs1 ++ EvClose :: sl ++ evs2) = S (connects evs2)) as Hcns.
      { rewrite connects_app, Hcn.
        change (EvClose :: sl ++ evs2) with ([EvClose] ++ sl ++ evs2).
        by rewrite !connects_app, Hsc. }
      assert (sleeps (evs1 ++ EvClose :: sl ++ evs2) = sleeps sl ++ sleeps evs2)
        as Hsls.
      { rewrite sleeps_app, Hsl.
        change (EvClose :: sl ++ evs2) with ([EvClose] ++ sl ++ evs2).
        by rewrite !sleeps_app. }
      rewrite Hcns, Hsls.
      assert ((1 < S n)%nat → sleeps sl = [initial_delay * 2 ^ attempt]) as Hpause.
      { intros Hn. subst sl.
        by rewrite (proj2 (Z.ltb_lt attempt (max_retries - 1))) by lia. }
      assert (n = 0%nat → sleeps sl = []) as Hnopause.
      { intros Hn. subst sl.
        by rewrite (proj2 (Z.ltb_ge attempt (max_retries - 1))) by lia. }
      replace (attempt + Z.of_nat (S k)) with (attempt + 1 + Z.of_nat k) by lia.
      destruct r as [[]|e'| |].
      * destruct Hr as (Hk & Hacc & Hc3 & Hcn3 & Hsl3).
        rewrite Hcn3, Hsl3, Hpause by lia. split; [lia|]. split; [exact Hacc|].
        by split.
      * destruct Hr as (Hk & Hc3 & Hcn3 & Hsl3). subst k.
        rewrite Hcn3, Hsl3. split; [done|]. split; [done|]. split; [done|].
        cbn [pred]. destruct n as [|n'].
        -- by rewrite Hnopause.
        -- by rewrite Hpause by lia.
      * destruct Hr as (Hk & Hst & He' & Hc3 & Hcn3 & Hsl3).
        rewrite Hcn3, Hsl3, Hpause by lia. cbn [pred].
        replace (attempt + Z.of_nat k) with (attempt + 1 + Z.of_nat (pred k))
          by lia.
        split; [lia|]. split; [done|]. split; [done|]. split; [done|].
        split; [done|]. destruct k as [|k']; [lia|]. done.
      * done.
      * destruct Hr as (Hk & Hkeep & Hc3 & Hcn3 & Hsl3).
        rewrite Hcn3, Hsl3, Hpause by lia. split; [lia|]. split; [exact Hkeep|].
        by split.
  - exists Unfinished, st1, evs1, 0%nat.
    split; [reflexivity|]. split; [exact Hlog1|].
    rewrite Hub, Hlift, Hcn, Hsl.
    split; [done|]. split; [done|]. split; [intros j Hj; lia|].
    rewrite Z.add_0_r. split; [lia|]. split; [exact Hkeep|]. by split.
Qed.

End Loop.

End AmiFacts.

Section AmiMore.
Import Py Ami.
Variable decode : string → string.
Variable reads : nat.
Variable peer_at : Z → Peer.





(** [connect] on a client that is not connected: [k] attempts fail, and
    then it ends in one of four ways, or goes on reading. *)
Lemma connect_spec max_retries initial_delay st :
  connected st = false →
  ∃ r st' evs (k : nat),
    connect decode reads peer_at max_retries initial_delay st = (r, st')
    ∧ log st' = log st ++ evs
    ∧ existsb unbounded_call evs = false
    ∧ (existsb lifts_timeout evs = true ↔ r = Val true)
    ∧ (∀ j, (j < k)%nat → fails decode reads (peer_at (Z.of_nat j)))
    ∧ match r with
      | Val true =>
          (k < Z.to_nat max_retries)%nat
          ∧ accepts_login decode reads (peer_at (Z.of_nat k))
          ∧ connected st' = true
          ∧ connects evs = S k
          ∧ sleeps evs = backoff initial_delay 0 k
      | Val false =>
          k = Z.to_nat max_retries
          ∧ connected st' = false
          ∧ connects evs = k
          ∧ sleeps evs = backoff initial_delay 0 (pred k)
      | Unfinished =>
          (k < Z.to_nat max_retries)%nat
          ∧ keeps_reading decode reads (peer_at (Z.of_nat k)) = true
          ∧ connected st' = false
          ∧ connects evs = S k
          ∧ sleeps evs = backoff initial_delay 0 k
      | Exc e =>
          (0 < k < Z.to_nat max_retries)%nat
          ∧ sleeps_through (initial_delay * 2 ^ Z.of_nat (pred k)) = false
          ∧ (e = ValueError ∨ e = OverflowError)
          ∧ connected st' = false
          ∧ connects evs = k
          ∧ sleeps evs = backoff initial_delay 0 (pred k)
      | Blocked => False
      end.
Proof.
  intros Hc. unfold connect.
  destruct (Z.to_nat max_retries) as [|n] eqn:Hn.
  { exists (Val false), st, [], 0%nat. cbn. rewrite app_nil_r.
    split; [done|]. split; [done|]. split; [done|]. split; [done|].
    split; [intros j Hj; lia|]. done. }
  destruct (connect_loop_spec decode reads peer_at max_retries initial_delay
              (S n) 0 st ltac:(lia) ltac:(lia) Hc)
    as (r & st' & evs & k & E & Hlog & Hub & Hl & Hf & Hr).
  exists r, st', evs, k. split; [exact E|]. split; [exact Hlog|].
  split; [exact Hub|]. split; [exact Hl|]. split; [exact Hf|]. exact Hr.
Qed.

(** With delays that [time.sleep] takes, the sleep in the handler does
    not raise. *)
Lemma delays_sleep_through max_retries initial_delay (k : nat) :
  0 ≤ initial_delay →
  (∀ i, 0 ≤ i < max_retries - 1 → initial_delay * 2 ^ i ≤ sleep_max) →
  (0 < k < Z.to_nat max_retries)%nat →
  sleeps_through (initial_delay * 2 ^ Z.of_nat (pred k)) = true.
Proof.
  intros Hd Hmax Hk. unfold sleeps_through. apply andb_true_iff. split.
  - apply Z.leb_le. apply Z.mul_nonneg_nonneg; [done|].
    apply Z.pow_nonneg. lia.
  - apply Z.leb_le. apply Hmax. lia.
Qed.

(** A first peer that keeps the login loop reading keeps [connect] from
    returning. *)
Lemma connect_kept_reading max_retries initial_delay st :
  connected st = false → 0 < max_retries →
  keeps_reading decode reads (peer_at 0) = true →
  (connect decode reads peer_at max_retries initial_delay st).1 = Unfinished.
Proof.
  intros Hc Hm Hkeep.
  destruct (connect_spec max_retries initial_delay st Hc)
    as (r & st' & evs & k & E & _ & _ & _ & Hf & Hr).
  rewrite E. cbn [fst].
  assert (k = 0%nat) as ->.
  { destruct k as [|k]; [done|].
    destruct (Hf 0%nat ltac:(lia)) as [_ Hk].
    change (Z.of_nat 0) with 0 in Hk. congruence. }
  destruct r as [[]|e| |]; [| | |done|done].
  - destruct Hr as (_ & Hacc & _).
    apply (accepts_not_keeps decode reads) in Hacc.
    change (Z.of_nat 0) with 0 in Hacc. congruence.
  - destruct Hr as (Hk & _). lia.
  - destruct Hr as (Hk & _). lia.
Qed.

(** A stream that goes on with the same data for ever. *)
Lemma chunks_constant s d data i :
  outlasts (Some 5) d = false → String.eqb data "" = false →
  (∀ m, (i ≤ m)%nat → s m = Sends d data) →
  ∀ n, chunks s i n = Some (replicate n data).
Proof.
  intros Hd He Hs n. revert i Hs. induction n as [|n IH]; intros i Hs; [done|].
  cbn [chunks replicate]. rewrite (Hs i) by lia. cbn [timely].
  rewrite Hd, He. cbn [orb]. rewrite (IH (S i)); [done|].
  intros m Hm. apply Hs. lia.
Qed.

End AmiMore.
Section AmiFed.
Import Py Ami.

Lemma text_replicate_no_blank n :
  contains (CRLF +:+ CRLF) (text (replicate n "x")) = false.
Proof.
  induction n as [|n IH]; [reflexivity|].
  cbn [replicate]. rewrite text_cons.
  change ("x" +:+ text (replicate n "x"))
    with (String "x" (text (replicate n "x"))).
  rewrite contains_cons, IH. reflexivity.
Qed.

(** A peer that greets, takes the login and then sends an [x] every
    second for ever keeps the login loop reading, however many reads are
    followed. *)
Lemma feeding_peer_keeps_reading greeting reads :
  contains "Asterisk Call Manager" greeting = true →
  keeps_reading (λ s, s) reads
    (mkPeer (Accepts 3) (script [Sends 10 greeting] (Sends 1000 "x")) true)
  = true.
Proof.
  intros Hg. unfold keeps_reading, reaches_login.
  cbn [on_connect incoming accepts_send script nth].
  rewrite Hg.
  rewrite (chunks_constant _ 1000 "x" 1); [| reflexivity | reflexivity |].
  - by rewrite text_replicate_no_blank.
  - intros [|[|m]] Hm; [lia | reflexivity | reflexivity].
Qed.

End AmiFed.


(** C8 (as stated, refuted). The sleep of the back-off is made inside the
    [except] handler, with nothing around it. With two attempts allowed
    and a peer that refuses the connection, a delay of -1 makes
    [time.sleep] raise [ValueError] out of [connect], and a delay of
    10^10 seconds makes it raise [OverflowError]. *)
Lemma C8_invalid_delay_counterexample :
  let refuses := Ami.mkPeer Ami.Refuses (λ _, Ami.Silent) true in
  (Ami.connect (λ s, s) 4 (λ _, refuses) 2 (-1) Ami.fresh).1
  = Ami.Exc Ami.ValueError
  ∧ (Ami.connect (λ s, s) 4 (λ _, refuses) 2 (10 ^ 10) Ami.fresh).1
    = Ami.Exc Ami.OverflowError
  ∧ Ami.log (Ami.connect (λ s, s) 4 (λ _, refuses) 2 (-1) Ami.fresh).2
    = [Ami.EvSettimeout (Some 5); Ami.EvConnect (Some 5); Ami.EvClose].
Proof. vm_compute. repeat split; reflexivity. Qed.




(** The same peer answering after 4 seconds is logged in. *)
Example connect_in_time :
  let greeting := "Asterisk Call Manager/5.0.1" +:+ Ami.CRLF in
  let accepted := "Response: Success" +:+ Ami.CRLF
                  +:+ "Message: Authentication accepted" +:+ Ami.CRLF +:+ Ami.CRLF in
  let peer := Ami.mkPeer (Ami.Accepts 3)
                (Ami.script [Ami.Sends 10 greeting; Ami.Sends 4000 accepted]
                   Ami.Silent) true in
  (Ami.connect (λ s, s) 4 (λ _, peer) 1 1 Ami.fresh).1 = Ami.Val true.
Proof. vm_compute. reflexivity. Qed.

(** Two refused attempts, then a good one: true after sleeps of 1 and 2. *)
Example connect_third_attempt :
  let greeting := "Asterisk Call Manager/5.0.1" +:+ Ami.CRLF in
  let accepted := "Response: Success" +:+ Ami.CRLF
                  +:+ "Message: Authentication accepted" +:+ Ami.CRLF +:+ Ami.CRLF in
  let good := Ami.mkPeer (Ami.Accepts 3)
                (Ami.script [Ami.Sends 10 greeting; Ami.Sends 20 accepted]
                   Ami.Silent) true in
  let bad := Ami.mkPeer Ami.Refuses (λ _, Ami.Silent) true in
  let r := Ami.connect (λ s, s) 4 (λ i, if i <? 2 then bad else good) 3 1
             Ami.fresh in
  r.1 = Ami.Val true ∧ Ami.sleeps (Ami.log r.2) = [1; 2]
  ∧ Ami.connects (Ami.log r.2) = 3%nat.
Proof. vm_compute. repeat split; reflexivity. Qed.

(** A wrong banner and a refused login are raised inside the attempt and
    caught by [connect], which returns false after its single attempt. *)
Example connect_protocol_errors :
  let greeting := "Asterisk Call Manager/5.0.1" +:+ Ami.CRLF in
  let refused := "Response: Error" +:+ Ami.CRLF
                 +:+ "Message: Authentication failed" +:+ Ami.CRLF +:+ Ami.CRLF in
  let wrong_banner := Ami.mkPeer (Ami.Accepts 3)
                        (Ami.script [Ami.Sends 10 "SSH-2.0"] Ami.Silent) true in
  let wrong_secret := Ami.mkPeer (Ami.Accepts 3)
                        (Ami.script [Ami.Sends 10 greeting; Ami.Sends 20 refused]
                           Ami.Silent) true in
  (Ami.attempt_body (λ s, s) 4 (λ _, wrong_banner) 0 Ami.fresh).1
  = Ami.Exc (Ami.ConnectionError "Unexpected AMI greeting")
  ∧ (Ami.attempt_body (λ s, s) 4 (λ _, wrong_secret) 0 Ami.fresh).1
    = Ami.Exc (Ami.ConnectionError "AMI login failed")
  ∧ (Ami.connect (λ s, s) 4 (λ _, wrong_banner) 1 1 Ami.fresh).1 = Ami.Val false
  ∧ (Ami.connect (λ s, s) 4 (λ _, wrong_secret) 1 1 Ami.fresh).1 = Ami.Val false.
Proof. vm_compute. repeat split; reflexivity. Qed.

(** The login loop has no deadline. A peer that greets, takes the login
    and then sends one [x] every second, never the blank line, keeps the
    first attempt in its login loop: however many turns of the loop are
    followed, [connect] has neither returned nor raised. *)
Example connect_fed_for_ever (reads : nat) :
  let greeting := "Asterisk Call Manager/5.0.1" +:+ Ami.CRLF in
  let feeding := Ami.mkPeer (Ami.Accepts 3)
                   (Ami.script [Ami.Sends 10 greeting] (Ami.Sends 1000 "x"))
                   true in
  (Ami.connect (λ s, s) reads (λ _, feeding) 3 1 Ami.fresh).1 = Ami.Unfinished.
Proof.
  cbn zeta. apply connect_kept_reading; [reflexivity | lia |].
  apply feeding_peer_keeps_reading. reflexivity.
Qed.

(** The peer that closes the connection in the middle of the login
    response, and the one that resets it. *)
Example login_closed_or_reset :
  let greeting := "Asterisk Call Manager/5.0.1" +:+ Ami.CRLF in
  let closes := Ami.mkPeer (Ami.Accepts 3)
                  (Ami.script [Ami.Sends 10 greeting;
                               Ami.Sends 10 "Response: Success"; Ami.Sends 10 ""]
                     Ami.Silent) true in
  let resets := Ami.mkPeer (Ami.Accepts 3)
                  (Ami.script [Ami.Sends 10 greeting; Ami.Resets] Ami.Silent)
                  true in
  (Ami.attempt_body (λ s, s) 4 (λ _, closes) 0 Ami.fresh).1
  = Ami.Exc (Ami.ConnectionError "AMI connection closed during login response")
  ∧ (Ami.attempt_body (λ s, s) 4 (λ _, resets) 0 Ami.fresh).1
    = Ami.Exc Ami.OSError
  ∧ (Ami.connect (λ s, s) 4 (λ _, closes) 1 1 Ami.fresh).1 = Ami.Val false
  ∧ (Ami.connect (λ s, s) 4 (λ _, resets) 1 1 Ami.fresh).1 = Ami.Val false.
Proof. vm_compute. repeat split; reflexivity. Qed.

(** ** Stale cleanup and the completion monitor *)

Section WatchdogFacts.
Import Py CallStore Watchdog.



Variable py_int : string → option Z.
Variable announcements : gset Z.
Variable scheduled_calls : gmap Z Campaigns.CallRow.

(** Cleanup only removes: an entry is gone afterwards or as before. *)
Lemma cleanup_removes_or_keeps now campaign phone
    (active_calls : gmap string (gmap string CallData)) :
  let cleaned := cleanup_stale_active_calls py_int announcements scheduled_calls
                   now active_calls in
  get_call cleaned campaign phone = None
  ∨ get_call cleaned campaign phone = get_call active_calls campaign phone.
Proof.
  unfold cleanup_stale_active_calls, get_call. rewrite map_lookup_imap.
  destruct (active_calls !! campaign) as [calls|]; cbn; [|by left].
  unfold cleanup_campaign.
  destruct (String.eqb campaign "default"); [by right|].
  destruct (py_int campaign); [|by left].
  destruct (Campaigns.get_by_id _ _ _); [|by left].
  destruct (str_in _ _); [by left|].
  destruct (bool_decide _); [by left|]. cbn.
  destruct (filter _ calls !! phone) as [d|] eqn:Hf; [|by left].
  right. apply map_lookup_filter_Some in Hf as [-> _]. done.
Qed.


End WatchdogFacts.



(** Cleanup at work: of two finalized entries the one older than 5
    minutes is dropped, and the completion check is true for both. *)
Example cleanup_then_complete :
  let old := CallStore.mkCallData "noanswer" None 0 None None true in
  let recent := CallStore.mkCallData "completed" None 400000000 None None true in
  let store := {[ "7" := {[ "5551234" := old; "5555678" := recent ]} ]} in
  let db := {[ 7 := Campaigns.mkCallRow 1 0 None "Info" "in_progress" None ]} in
  let cleaned := Watchdog.cleanup_stale_active_calls (λ _, Some 7) {[ 1 ]} db
                   500000000 store in
  CallStore.get_call cleaned "7" "5551234" = None
  ∧ CallStore.status <$> CallStore.get_call cleaned "7" "5555678" = Some "completed"
  ∧ Watchdog.active_call_count "7" ["5551234"; "5555678"] cleaned = 0%nat.
Proof. vm_compute. repeat split; reflexivity. Qed.

(** * Further properties of the call subsystem *)

(** ** The call state store, continued *)

Section StoreMore.
Import Py CallStore.

Lemma is_call_complete_get phone campaign
    (active_calls : gmap string (gmap string CallData)) :
  is_call_complete phone campaign active_calls
  = match get_call active_calls campaign phone with
    | Some d => is_final (status d) || finalized_in_memory d
    | None => true
    end.
Proof.
  unfold is_call_complete, get_call.
  destruct (active_calls !! campaign) as [calls|]; cbn; [|done].
  by destruct (calls !! phone).
Qed.

(** A status at or above completed in the hierarchy is a final one. *)
Lemma significance_high_is_final s : 70 ≤ significance s → is_final s = true.
Proof.
  unfold significance, status_hierarchy. cbn [hierarchy_get].
  repeat match goal with
         | |- context [String.eqb ?k s] =>
             let E := fresh "E" in
             destruct (String.eqb k s) eqn:E;
             [apply String.eqb_eq in E; subst s; first [reflexivity | intros; lia] |]
         end.
  intros; lia.
Qed.

Lemma final_is_high s : is_final s = true → 70 ≤ significance s.
Proof.
  intros H. apply is_final_cases in H.
  destruct H as [->|[->|[->|[->|[->| ->]]]]]; cbn; lia.
Qed.

Lemma final_not_waiting s : is_final s = true → String.eqb s "waiting" = false.
Proof.
  intros H. apply is_final_cases in H.
  destruct H as [->|[->|[->|[->|[->| ->]]]]]; reflexivity.
Qed.

(** Whatever the entry was, after a call with a final status the entry
    exists and counts as complete. *)
Lemma final_update_complete cur s dt a u now :
  is_final s = true →
  ∃ d, (update_entry cur s dt a u now).2 = Some d
       ∧ is_final (status d) || finalized_in_memory d = true.
Proof.
  intros Hs. unfold update_entry. rewrite (final_not_waiting s Hs).
  destruct (String.eqb (current_status_of cur) "") eqn:He.
  { eexists. split; [reflexivity|]. cbn [status finalized_in_memory].
    by rewrite Hs. }
  destruct cur as [d|]; [|discriminate He]. cbn [current_status_of finalized_of] in *.
  destruct (update_decision _ _ _) as [allow reason] eqn:Hd.
  assert (allow = false → is_final (status d) = true) as Hskip.
  { intros ->. unfold update_decision in Hd.
    destruct (significance (status d) <? significance s) eqn:Hlt; [discriminate Hd|].
    apply Z.ltb_ge in Hlt. apply significance_high_is_final.
    pose proof (final_is_high s Hs). lia. }
  destruct (finalized_in_memory d && negb allow) eqn:Hf.
  { exists d. split; [done|]. apply andb_true_iff in Hf as [_ Hn].
    apply negb_true_iff in Hn. by rewrite (Hskip Hn). }
  destruct allow.
  - eexists. split; [reflexivity|]. cbn [status finalized_in_memory].
    by rewrite Hs.
  - exists d. split; [done|]. by rewrite Hskip.
Qed.

Lemma hangup_final_status_final cur cause :
  is_final (Hangup.hangup_final_status cur cause).1 = true.
Proof.
  unfold Hangup.hangup_final_status.
  repeat match goal with
         | |- context [if ?b then _ else _] => destruct b; [reflexivity|]
         end.
  reflexivity.
Qed.


Lemma if_not_none_twice {A} (a b : option A) :
  if_not_none a (if_not_none a b) = if_not_none a b.
Proof. by destruct a. Qed.

Lemma if_not_none_same {A} (a : option A) : if_not_none a a = a.
Proof. by destruct a. Qed.

Lemma decision_same finalized s :
  update_decision finalized s s = (true, "Same status, updating details").
Proof. unfold update_decision. by rewrite Z.ltb_irrefl, String.eqb_refl. Qed.


End StoreMore.

(** X1. After a hangup event has been handled for a (campaign, recipient)
    the completion check is true for it, whatever the cause text and
    whatever the store held before. *)
Theorem hangup_always_completes (campaign phone : string)
    (event : gmap string string) (now : Z)
    (active_calls : gmap string (gmap string CallStore.CallData)) :
  CallStore.is_call_complete phone campaign
    (Hangup.handle_hangup campaign phone event now active_calls).2 = true.
Proof.
  rewrite is_call_complete_get. unfold Hangup.handle_hangup.
  destruct (Hangup.hangup_final_status _ _) as [fs det] eqn:Hfs.
  rewrite update_call_status_entry.
  assert (CallStore.is_final fs = true) as Hfin.
  { pose proof (hangup_final_status_final
                  (CallStore.status <$> CallStore.get_call active_calls campaign phone)
                  (default "Unknown" (event !! "Cause-txt"))) as H.
    by rewrite Hfs in H. }
  destruct (final_update_complete (CallStore.get_call active_calls campaign phone)
              fs (Some det) (event !! "ActionID") (event !! "Uniqueid") now Hfin)
    as (d & -> & Hd).
  exact Hd.
Qed.

(** X2. A final status is never lost on a call still in progress: when the
    entry is absent or its status ranks below completed, an update with a
    final status is applied, marks the entry finalized and makes the
    completion check true. *)
Theorem final_status_lands (campaign phone s : string)
    (dt a u : option string) (now : Z)
    (active_calls : gmap string (gmap string CallStore.CallData)) :
  CallStore.is_final s = true →
  (∀ d, CallStore.get_call active_calls campaign phone = Some d →
        CallStore.significance (CallStore.status d) < 70) →
  let after := (CallStore.update_call_status campaign phone s dt a u now
                  active_calls).2 in
  ∃ r, CallStore.get_call after campaign phone = Some r
       ∧ CallStore.status r = s
       ∧ CallStore.details r = dt
       ∧ CallStore.timestamp r = now
       ∧ CallStore.finalized_in_memory r = true
       ∧ CallStore.is_call_complete phone campaign after = true.
Proof.
  intros Hs Hlow after. subst after.
  rewrite is_call_complete_get, update_call_status_entry.
  unfold CallStore.update_entry. rewrite (final_not_waiting s Hs).
  destruct (String.eqb (CallStore.current_status_of _) "") eqn:He.
  { eexists. split; [reflexivity|].
    cbn [snd CallStore.status CallStore.details CallStore.timestamp
         CallStore.finalized_in_memory]. rewrite Hs. by repeat split. }
  destruct (CallStore.get_call active_calls campaign phone) as [d|] eqn:Hd;
    [|discriminate He].
  cbn [CallStore.current_status_of CallStore.finalized_of].
  unfold CallStore.update_decision.
  assert ((CallStore.significance (CallStore.status d) <? CallStore.significance s)
          = true) as ->.
  { apply Z.ltb_lt. pose proof (Hlow d eq_refl). pose proof (final_is_high s Hs). lia. }
  rewrite andb_false_r. eexists. split; [reflexivity|].
  cbn [snd CallStore.status CallStore.details CallStore.timestamp
       CallStore.finalized_in_memory]. rewrite Hs. by repeat split.
Qed.

Lemma final_status_lands_witness :
  let after := (CallStore.update_call_status "7" "5551234" "busy" None None None 5
                  {[ "7" := {[ "5551234" :=
                       CallStore.mkCallData "ringing" None 1 None None false ]} ]}).2 in
  ∃ r, CallStore.get_call after "7" "5551234" = Some r
       ∧ CallStore.status r = "busy"
       ∧ CallStore.details r = None
       ∧ CallStore.timestamp r = 5
       ∧ CallStore.finalized_in_memory r = true
       ∧ CallStore.is_call_complete "5551234" "7" after = true.
Proof.
  apply (final_status_lands "7" "5551234" "busy" None None None 5
           {[ "7" := {[ "5551234" :=
                CallStore.mkCallData "ringing" None 1 None None false ]} ]}).
  - reflexivity.
  - intros d Hd. vm_compute in Hd. injection Hd as <-. vm_compute. reflexivity.
Defined.



(** X4. A duplicated notification changes nothing further: for a status
    that is not empty, making the same update call twice leaves the entry
    exactly as making it once. *)
Theorem duplicate_update_is_idempotent (cur : option CallStore.CallData)
    (u : CallStore.Update) :
  CallStore.u_status u ≠ "" →
  CallStore.run cur [u; u] = CallStore.run cur [u].
Proof.
  intros Hne. cbn [CallStore.run foldl]. unfold CallStore.apply_update.
  destruct u as [s dt a uid now]. cbn [CallStore.u_status CallStore.u_details
    CallStore.u_action_id CallStore.u_uniqueid CallStore.u_now] in *.
  apply String.eqb_neq in Hne.
  remember (CallStore.update_entry cur s dt a uid now) as r eqn:Hr.
  unfold CallStore.update_entry in Hr.
  destruct (String.eqb s "waiting") eqn:Hw.
  { subst r. cbn [snd]. unfold CallStore.update_entry. rewrite Hw.
    cbn [snd option_bind mbind CallStore.action_id CallStore.uniqueid].
    by destruct a, uid. }
  assert (∀ x y f,
            (CallStore.update_entry
               (Some (CallStore.mkCallData s dt now x y f)) s dt a uid now).2
            = Some (CallStore.mkCallData s dt now
                      (Py.if_not_none a x) (Py.if_not_none uid y)
                      (CallStore.is_final s))) as Hsame.
  { intros x y f. unfold CallStore.update_entry.
    cbn [CallStore.current_status_of CallStore.finalized_of CallStore.status
         CallStore.finalized_in_memory]. rewrite Hw, Hne, decision_same.
    by rewrite andb_false_r. }
  destruct (String.eqb (CallStore.current_status_of cur) "") eqn:He.
  { subst r. cbn [snd]. rewrite Hsame. by destruct a, uid. }
  destruct (CallStore.update_decision _ _ _) as [allow reason] eqn:Hd.
  destruct (CallStore.finalized_of cur && negb allow) eqn:Hf.
  { subst r. cbn [snd]. unfold CallStore.update_entry. by rewrite Hw, He, Hd, Hf. }
  destruct allow.
  - subst r. cbn [snd]. rewrite Hsame. by destruct a, uid.
  - subst r. cbn [snd]. unfold CallStore.update_entry. by rewrite Hw, He, Hd, Hf.
Qed.

Lemma duplicate_update_is_idempotent_witness :
  CallStore.run None [CallStore.mkUpdate "ringing" None None None 3;
                      CallStore.mkUpdate "ringing" None None None 3]
  = CallStore.run None [CallStore.mkUpdate "ringing" None None None 3].
Proof.
  apply (duplicate_update_is_idempotent None
           (CallStore.mkUpdate "ringing" None None None 3)).
  discriminate.
Defined.

(** X5. Through any sequence of update calls that starts from an absent
    entry, the finalized flag of the entry says exactly whether its status
    is a final one. *)
Theorem finalized_flag_tracks_final_status (us : list CallStore.Update)
    (d : CallStore.CallData) :
  CallStore.run None us = Some d →
  CallStore.finalized_in_memory d = CallStore.is_final (CallStore.status d).
Proof.
  assert (∀ cur,
            (∀ d0, cur = Some d0 →
               CallStore.finalized_in_memory d0
               = CallStore.is_final (CallStore.status d0)) →
            ∀ d1, CallStore.run cur us = Some d1 →
               CallStore.finalized_in_memory d1
               = CallStore.is_final (CallStore.status d1)) as H.
  { induction us as [|u us IH]; intros cur Hc d1; [apply Hc|].
    cbn [CallStore.run foldl]. apply IH. clear IH d1.
    unfold CallStore.apply_update, CallStore.update_entry.
    destruct (String.eqb (CallStore.u_status u) "waiting") eqn:Hw.
    { apply String.eqb_eq in Hw. rewrite Hw. by intros d0 [= <-]. }
    destruct (String.eqb _ ""); [by intros d0 [= <-]|].
    destruct (CallStore.update_decision _ _ _) as [allow reason].
    destruct (_ && _); [exact Hc|].
    destruct allow; [by intros d0 [= <-] | exact Hc]. }
  apply (H None). intros d0 Hd0. discriminate Hd0.
Qed.

Lemma finalized_flag_tracks_final_status_witness :
  CallStore.finalized_in_memory
    (CallStore.mkCallData "noanswer" None 2 None None true)
  = CallStore.is_final
      (CallStore.status (CallStore.mkCallData "noanswer" None 2 None None true)).
Proof.
  apply (finalized_flag_tracks_final_status
           [CallStore.mkUpdate "dialing" None None None 1;
            CallStore.mkUpdate "noanswer" None None None 2]).
  reflexivity.
Defined.

(** X6. An update call works on the entry of its own (campaign, recipient)
    only: that entry becomes what the update rule makes of it, and the
    entry of every other pair reads as before. *)
Theorem update_touches_one_entry (campaign phone s : string)
    (dt a u : option string) (now : Z)
    (active_calls : gmap string (gmap string CallStore.CallData)) :
  let after := (CallStore.update_call_status campaign phone s dt a u now
                  active_calls).2 in
  CallStore.get_call after campaign phone
  = (CallStore.update_entry (CallStore.get_call active_calls campaign phone)
       s dt a u now).2
  ∧ (∀ campaign' phone', (campaign', phone') ≠ (campaign, phone) →
       CallStore.get_call after campaign' phone'
       = CallStore.get_call active_calls campaign' phone').
Proof.
  split; [apply update_call_status_entry|].
  intros c' p' Hne. by apply update_call_status_other.
Qed.

(** ** The pending correlation cache, continued *)

(** X7. The pending correlation cache is kept per recipient: after
    [clear_pending_call] a lookup for that recipient returns nothing, a
    later registration replaces the earlier one, and registering, clearing
    or looking up one recipient leaves the entry of every other recipient
    as it was. *)
Theorem pending_cache_is_per_recipient (phone : string) (now : Z)
    (pending_correlations : gmap string Pending.PendingCall) :
  (Pending.get_pending_campaign phone now
     (Pending.clear_pending_call phone pending_correlations)).1 = None
  ∧ (∀ c1 a1 t1 c2 a2 t2,
       Pending.register_pending_call phone c2 a2 t2
         (Pending.register_pending_call phone c1 a1 t1 pending_correlations)
       = Pending.register_pending_call phone c2 a2 t2 pending_correlations)
  ∧ (∀ other, other ≠ phone →
       Pending.clear_pending_call phone pending_correlations !! other
       = pending_correlations !! other
       ∧ (Pending.get_pending_campaign phone now pending_correlations).2 !! other
         = pending_correlations !! other
       ∧ (∀ c a t,
            Pending.register_pending_call phone c a t pending_correlations !! other
            = pending_correlations !! other)
       ∧ (∀ c a t,
            Pending.get_pending_campaign other now
              (Pending.register_pending_call phone c a t pending_correlations)
            = (λ r, (r.1, Pending.register_pending_call phone c a t r.2))
                (Pending.get_pending_campaign other now pending_correlations))).
Proof.
  unfold Pending.get_pending_campaign, Pending.clear_pending_call,
    Pending.register_pending_call.
  split; [by rewrite lookup_delete_eq|]. split; [intros; apply insert_insert_eq|].
  intros other Hne. split; [by rewrite lookup_delete_ne|]. split.
  - destruct (pending_correlations !! phone) as [e|]; [|done].
    destruct (Py.total_seconds_gt _ _); cbn; [by rewrite lookup_delete_ne | done].
  - split; [intros; by rewrite lookup_insert_ne|].
    intros c a t. rewrite lookup_insert_ne by done.
    destruct (pending_correlations !! other) as [e|]; [|done].
    destruct (Py.total_seconds_gt _ _); cbn; [|done].
    by rewrite delete_insert_ne.
Qed.

Lemma pending_cache_is_per_recipient_witness :
  Pending.clear_pending_call "5551234"
    (Pending.register_pending_call "5550000" "7" "a-1" 0 ∅) !! "5550000"
  = Pending.register_pending_call "5550000" "7" "a-1" 0 ∅ !! "5550000".
Proof.
  destruct (pending_cache_is_per_recipient "5551234" 0
              (Pending.register_pending_call "5550000" "7" "a-1" 0 ∅))
    as (_ & _ & H).
  destruct (H "5550000") as (H1 & _); [discriminate | exact H1].
Defined.

(** ** Campaign promotion, continued *)

Section SchedulerFacts.
Import Py Campaigns.

Lemma fetched_iff now (scheduled_calls : gmap Z CallRow) call_id :
  call_id ∈ get_pending_calls_for_scheduling now scheduled_calls
  ↔ ∃ r, scheduled_calls !! call_id = Some r
         ∧ scheduled_datetime r ≤ now ∧ status r = "pending".
Proof.
  unfold get_pending_calls_for_scheduling.
  rewrite list_elem_of_fmap. split.
  - intros ([i t] & -> & Hin). rewrite merge_sort_Permutation in Hin.
    apply list_elem_of_fmap in Hin as ([j r] & [= -> ->] & Hin).
    apply list_elem_of_filter in Hin as [HP Hin]. cbn in HP.
    apply elem_of_map_to_list in Hin. apply andb_prop_elim in HP as [H1 H2].
    exists r. split; [done|]. split.
    + by apply bool_decide_unpack in H1.
    + apply Is_true_eq_true in H2. by apply String.eqb_eq.
  - intros (r & Hr & Hdue & Hst).
    exists (call_id, scheduled_datetime r). split; [done|].
    rewrite merge_sort_Permutation. apply list_elem_of_fmap.
    exists (call_id, r). split; [done|]. apply list_elem_of_filter. split.
    + cbn. apply andb_prop_intro. split.
      * by apply bool_decide_pack.
      * apply Is_true_eq_left. by apply String.eqb_eq.
    + by apply elem_of_map_to_list.
Qed.

Lemma update_status_lookup found_rows call_id st dt
    (scheduled_calls : gmap Z CallRow) other :
  other ≠ call_id →
  (update_status found_rows call_id st dt scheduled_calls).2 !! other
  = scheduled_calls !! other.
Proof.
  intros Hne. unfold update_status.
  destruct (scheduled_calls !! call_id); cbn; [|done].
  by rewrite lookup_insert_ne.
Qed.

Lemma update_status_sets found_rows call_id st dt
    (scheduled_calls : gmap Z CallRow) :
  is_Some (scheduled_calls !! call_id) →
  status <$> (update_status found_rows call_id st dt scheduled_calls).2 !! call_id
  = Some st.
Proof.
  intros [r Hr]. unfold update_status. rewrite Hr. cbn.
  rewrite lookup_insert_eq. cbn. destruct dt as [d|]; [|done].
  by destruct (truthy (Some d)).
Qed.

Lemma update_status_keeps_rows found_rows call_id st dt
    (scheduled_calls : gmap Z CallRow) other :
  is_Some ((update_status found_rows call_id st dt scheduled_calls).2 !! other)
  ↔ is_Some (scheduled_calls !! other).
Proof.
  unfold update_status. destruct (scheduled_calls !! call_id) eqn:Hc; cbn; [|done].
  destruct (decide (other = call_id)) as [->|Hne].
  - rewrite lookup_insert_eq, Hc. split; eauto.
  - by rewrite lookup_insert_ne.
Qed.

(** After the promotion loop every row it went over is ready. *)
Lemma promote_makes_ready found_rows ready_calls :
  ∀ (scheduled_calls : gmap Z CallRow) call_id,
    is_Some (scheduled_calls !! call_id) →
    call_id ∈ ready_calls
    ∨ status <$> scheduled_calls !! call_id = Some "ready" →
    status <$> (promote found_rows ready_calls scheduled_calls).2 !! call_id
    = Some "ready".
Proof.
  induction ready_calls as [|x rest IH]; intros t call_id Hrow Hcase.
  { cbn. destruct Hcase as [Hin|H]; [by apply elem_of_nil in Hin | done]. }
  cbn [promote].
  destruct (update_status found_rows x "ready" (Some "Ready for execution") t)
    as [ok t1] eqn:E1.
  destruct (promote found_rows rest t1) as [spawned t2] eqn:E2. cbn [snd].
  assert (t1 = (update_status found_rows x "ready"
                  (Some "Ready for execution") t).2) as Ht1 by (by rewrite E1).
  assert (t2 = (promote found_rows rest t1).2) as -> by (by rewrite E2).
  apply IH.
  - rewrite Ht1. by apply update_status_keeps_rows.
  - destruct (decide (call_id = x)) as [->|Hne].
    + right. rewrite Ht1. by apply update_status_sets.
    + destruct Hcase as [Hin|H].
      * left. apply elem_of_cons in Hin as [?|?]; [done|done].
      * right. rewrite Ht1. by rewrite update_status_lookup.
Qed.

Lemma strongly_sorted_lookup {A} (R : relation A) (l : list A) :
  StronglySorted R l →
  ∀ i j x y, l !! i = Some x → l !! j = Some y → (i < j)%nat → R x y.
Proof.
  induction 1 as [|a l Hs IH Hall]; intros i j x y Hi Hj Hlt; [done|].
  destruct j as [|j]; [lia|]. cbn in Hj. destruct i as [|i].
  - cbn in Hi. injection Hi as <-.
    rewrite Forall_forall in Hall. apply Hall.
    by eapply list_elem_of_lookup_2.
  - cbn in Hi. apply (IH i j); [done | done | lia].
Qed.

End SchedulerFacts.

(** X8. The scheduler fetches exactly the campaigns that are due and
    pending, each once and by ascending scheduled time. *)
Theorem fetch_returns_due_pending (now : Z)
    (scheduled_calls : gmap Z Campaigns.CallRow) :
  (∀ call_id,
     call_id ∈ Campaigns.get_pending_calls_for_scheduling now scheduled_calls
     ↔ ∃ r, scheduled_calls !! call_id = Some r
            ∧ Campaigns.scheduled_datetime r ≤ now
            ∧ Campaigns.status r = "pending")
  ∧ NoDup (Campaigns.get_pending_calls_for_scheduling now scheduled_calls)
  ∧ (∀ i j a b ra rb,
       Campaigns.get_pending_calls_for_scheduling now scheduled_calls !! i = Some a →
       Campaigns.get_pending_calls_for_scheduling now scheduled_calls !! j = Some b →
       (i < j)%nat →
       scheduled_calls !! a = Some ra → scheduled_calls !! b = Some rb →
       Campaigns.scheduled_datetime ra ≤ Campaigns.scheduled_datetime rb).
Proof.
  split; [intros; apply fetched_iff|].
  unfold Campaigns.get_pending_calls_for_scheduling.
  set (l := (λ kv : Z * Campaigns.CallRow,
               (kv.1, Campaigns.scheduled_datetime kv.2)) <$> _).
  assert (∀ i t, (i, t) ∈ merge_sort Campaigns.earlier l →
                 ∃ r, scheduled_calls !! i = Some r
                      ∧ t = Campaigns.scheduled_datetime r) as Hmem.
  { intros i t Hin. rewrite merge_sort_Permutation in Hin. subst l.
    apply list_elem_of_fmap in Hin as ([j r] & [= -> ->] & Hin).
    apply list_elem_of_filter in Hin as [_ Hin].
    apply elem_of_map_to_list in Hin. by exists r. }
  split.
  - rewrite merge_sort_Permutation. subst l.
    rewrite <- list_fmap_compose.
    assert (NoDup (filter
                     (λ kv : Z * Campaigns.CallRow,
                        bool_decide (Campaigns.scheduled_datetime kv.2 ≤ now)
                        && String.eqb (Campaigns.status kv.2) "pending")
                     (map_to_list scheduled_calls)).*1) as H.
    { apply (NoDup_fmap_fst _).
      - intros i x y Hx Hy.
        apply list_elem_of_filter in Hx as [_ Hx].
        apply list_elem_of_filter in Hy as [_ Hy].
        apply elem_of_map_to_list in Hx, Hy. congruence.
      - apply NoDup_filter, NoDup_map_to_list. }
    exact H.
  - intros i j a b ra rb Hi Hj Hlt Ha Hb.
    apply list_lookup_fmap_Some in Hi as ([a' ta] & -> & Hi).
    apply list_lookup_fmap_Some in Hj as ([b' tb] & -> & Hj).
    cbn in Ha, Hb.
    assert (StronglySorted Campaigns.earlier (merge_sort Campaigns.earlier l)) as Hs.
    { apply StronglySorted_merge_sort.
      - intros x y z. unfold Campaigns.earlier. lia.
      - intros x y. unfold Campaigns.earlier. lia. }
    pose proof (strongly_sorted_lookup _ _ Hs i j _ _ Hi Hj Hlt) as Hrel.
    unfold Campaigns.earlier in Hrel. cbn in Hrel.
    destruct (Hmem a' ta) as (r1 & Hr1 & ->); [by eapply list_elem_of_lookup_2|].
    destruct (Hmem b' tb) as (r2 & Hr2 & ->); [by eapply list_elem_of_lookup_2|].
    congruence.
Qed.

(** X9. A campaign the promotion loop went over is not fetched again:
    whatever the rowcount convention, after the loop no campaign of the
    fetched list is returned by a later fetch (until something sets it
    pending again). *)
Theorem promoted_is_not_refetched (found_rows : bool) (now later : Z)
    (scheduled_calls : gmap Z Campaigns.CallRow) (call_id : Z) :
  call_id ∈ Campaigns.get_pending_calls_for_scheduling now scheduled_calls →
  let after := (Campaigns.promote found_rows
                  (Campaigns.get_pending_calls_for_scheduling now scheduled_calls)
                  scheduled_calls).2 in
  Campaigns.status <$> after !! call_id = Some "ready"
  ∧ call_id ∉ Campaigns.get_pending_calls_for_scheduling later after.
Proof.
  intros Hin after.
  assert (Campaigns.status <$> after !! call_id = Some "ready") as Hready.
  { apply promote_makes_ready; [|by left].
    apply fetched_iff in Hin as (r & Hr & _). by exists r. }
  split; [exact Hready|].
  intros Hagain. apply fetched_iff in Hagain as (r & Hr & _ & Hst).
  rewrite Hr in Hready. cbn in Hready. congruence.
Qed.

Lemma promoted_is_not_refetched_witness :
  let t := {[ 7 := Campaigns.mkCallRow 1 0 None "Info" "pending" None ]} in
  let after := (Campaigns.promote false
                  (Campaigns.get_pending_calls_for_scheduling 10 t) t).2 in
  Campaigns.status <$> after !! 7 = Some "ready"
  ∧ 7 ∉ Campaigns.get_pending_calls_for_scheduling 70 after.
Proof.
  apply (promoted_is_not_refetched false 10 70
           {[ 7 := Campaigns.mkCallRow 1 0 None "Info" "pending" None ]} 7).
  vm_compute. left.
Defined.

(** ** The dial loop, continued *)

Section DialLoopMore.
Import Py CallStore DialLoop DialLoopSpec.

Lemma get_call_insert_other c p c' p' d (calls : gmap string CallData)
    (ac : gmap string (gmap string CallData)) :
  calls = default ∅ (ac !! c) → (c', p') ≠ (c, p) →
  get_call (<[c := <[p := d]> calls]> ac) c' p' = get_call ac c' p'.
Proof.
  intros -> Hne. unfold get_call.
  destruct (decide (c' = c)) as [->|Hc].
  - rewrite lookup_insert_eq. cbn. rewrite lookup_insert_ne by congruence.
    destruct (ac !! c); cbn; [done | apply lookup_empty].
  - by rewrite lookup_insert_ne.
Qed.




End DialLoopMore.



(** ** The stale cleanup, continued *)

Section CleanupMore.
Import Py CallStore Watchdog.

Variable py_int : string → option Z.
Variable announcements : gset Z.
Variable scheduled_calls : gmap Z Campaigns.CallRow.

Lemma cleanup_campaign_twice now campaign calls calls' :
  cleanup_campaign py_int announcements scheduled_calls now campaign calls
    = Some calls' →
  cleanup_campaign py_int announcements scheduled_calls now campaign calls'
    = Some calls'.
Proof.
  unfold cleanup_campaign.
  destruct (String.eqb campaign "default"); [congruence|].
  destruct (py_int campaign); [|done].
  destruct (Campaigns.get_by_id _ _ _); [|done].
  destruct (str_in _ _); [done|].
  destruct (bool_decide (filter _ calls = ∅)) eqn:He; [done|].
  intros [= <-].
  assert (filter (λ kv, ¬ stale now kv) (filter (λ kv, ¬ stale now kv) calls)
          = filter (λ kv, ¬ stale now kv) calls) as ->.
  { apply map_filter_id. intros i x Hx.
    by apply map_lookup_filter_Some in Hx as [_ ?]. }
  by rewrite He.
Qed.

Lemma cleanup_campaign_lookup now campaign calls calls' phone d :
  cleanup_campaign py_int announcements scheduled_calls now campaign calls
    = Some calls' →
  calls' !! phone = Some d ↔
  calls !! phone = Some d
  ∧ (campaign = "default" ∨ old_finalized now d = false).
Proof.
  unfold cleanup_campaign.
  destruct (String.eqb campaign "default") eqn:Hdef.
  { apply String.eqb_eq in Hdef. intros [= <-]. intuition (subst; eauto; congruence). }
  apply String.eqb_neq in Hdef.
  destruct (py_int campaign); [|done].
  destruct (Campaigns.get_by_id _ _ _); [|done].
  destruct (str_in _ _); [done|].
  destruct (bool_decide _); [done|]. intros [= <-].
  rewrite map_lookup_filter_Some. unfold stale. cbn [snd].
  destruct (old_finalized now d); intuition (subst; eauto; congruence).
Qed.

End CleanupMore.

(** X11. What the stale cleanup leaves of the store: an entry is there
    afterwards exactly when it was there before, unchanged, and its
    campaign is 'default', or its campaign id is an integer whose campaign
    row exists with a status other than completed, cancelled and failed and
    the entry is not both finalized and more than 300 seconds old. *)
Theorem cleanup_keeps_exactly_live_entries (py_int : string → option Z)
    (announcements : gset Z) (scheduled_calls : gmap Z Campaigns.CallRow)
    (now : Z) (campaign phone : string) (d : CallStore.CallData)
    (active_calls : gmap string (gmap string CallStore.CallData)) :
  CallStore.get_call
    (Watchdog.cleanup_stale_active_calls py_int announcements scheduled_calls
       now active_calls) campaign phone = Some d
  ↔ CallStore.get_call active_calls campaign phone = Some d
    ∧ (campaign = "default"
       ∨ (∃ n call_info,
            py_int campaign = Some n
            ∧ Campaigns.get_by_id announcements n scheduled_calls = Some call_info
            ∧ Py.str_in (Campaigns.status call_info)
                ["completed"; "cancelled"; "failed"] = false)
         ∧ Watchdog.old_finalized now d = false).
Proof.
  unfold Watchdog.cleanup_stale_active_calls, CallStore.get_call.
  rewrite map_lookup_imap.
  destruct (active_calls !! campaign) as [calls|] eqn:Hc; cbn; [|intuition (subst; eauto; congruence)].
  destruct (Watchdog.cleanup_campaign _ _ _ now campaign calls) as [calls'|] eqn:Hcl;
    cbn.
  - rewrite (cleanup_campaign_lookup _ _ _ _ _ _ _ phone d Hcl).
    unfold Watchdog.cleanup_campaign in Hcl.
    destruct (String.eqb campaign "default") eqn:Hdef.
    { apply String.eqb_eq in Hdef. intuition (subst; eauto; congruence). }
    apply String.eqb_neq in Hdef.
    destruct (py_int campaign) as [n|] eqn:Hn; [|done].
    destruct (Campaigns.get_by_id _ _ _) as [info|] eqn:Hi; [|done].
    destruct (Py.str_in _ _) eqn:Hin; [done|].
    split; intros [Hd Hor]; (split; [done|]).
    + destruct Hor as [?|Hold]; [done|]. right. split; [|done].
      by exists n, info.
    + destruct Hor as [?|[_ Hold]]; [done|]. by right.
  - split; [done|]. intros [Hd Hlive].
    unfold Watchdog.cleanup_campaign in Hcl.
    destruct (String.eqb campaign "default") eqn:Hdef; [done|].
    apply String.eqb_neq in Hdef.
    destruct Hlive as [?|[(n & info & Hn & Hi & Hs) Hold]]; [done|].
    rewrite Hn, Hi in Hcl. unfold Py.str_in in Hcl. cbn [existsb] in Hcl.
    rewrite Hs in Hcl.
    destruct (bool_decide _) eqn:He; [|done].
    apply bool_decide_eq_true in He.
    assert (filter (λ kv, ¬ Watchdog.stale now kv) calls !! phone = Some d) as Hf.
    { apply map_lookup_filter_Some. split; [done|].
      unfold Watchdog.stale. cbn. congruence. }
    rewrite He in Hf. by rewrite lookup_empty in Hf.
Qed.

(** X12. One pass of the stale cleanup is enough: run again at the same
    instant against the same campaign rows it changes nothing, and no
    campaign other than 'default' is left with an empty dictionary. *)
Theorem cleanup_reaches_fixed_point (py_int : string → option Z)
    (announcements : gset Z) (scheduled_calls : gmap Z Campaigns.CallRow)
    (now : Z) (active_calls : gmap string (gmap string CallStore.CallData)) :
  let cleanup :=
    Watchdog.cleanup_stale_active_calls py_int announcements scheduled_calls now in
  cleanup (cleanup active_calls) = cleanup active_calls
  ∧ ∀ campaign, campaign ≠ "default" → cleanup active_calls !! campaign ≠ Some ∅.
Proof.
  cbn. split.
  - apply map_eq. intros campaign.
    unfold Watchdog.cleanup_stale_active_calls. rewrite !map_lookup_imap.
    destruct (active_calls !! campaign) as [calls|]; cbn; [|done].
    destruct (Watchdog.cleanup_campaign _ _ _ now campaign calls) as [calls'|] eqn:Hcl;
      cbn; [|done].
    by apply (cleanup_campaign_twice _ _ _ _ _ calls).
  - intros campaign Hdef.
    unfold Watchdog.cleanup_stale_active_calls. rewrite map_lookup_imap.
    destruct (active_calls !! campaign) as [calls|]; cbn; [|done].
    unfold Watchdog.cleanup_campaign.
    apply String.eqb_neq in Hdef. rewrite Hdef.
    destruct (py_int campaign); [|done].
    destruct (Campaigns.get_by_id _ _ _); [|done].
    destruct (Py.str_in _ _); [done|].
    destruct (bool_decide _) eqn:He; [done|].
    apply bool_decide_eq_false in He. congruence.
Qed.

(** ** The completion monitor *)

Section MonitorFacts.
Import Py CallStore Watchdog Monitor.

Lemma monitor_check_sleeps campaign phones ci fci c ac n :
  monitor_check campaign phones ci fci c ac = MonitorSleeps n →
  (n = 0%nat ∧ active_call_count campaign phones ac ≠ 0%nat)
  ∨ (n = S c ∧ active_call_count campaign phones ac = 0%nat ∧ c = 0%nat).
Proof.
  unfold monitor_check, required_completed_checks.
  destruct (opt_is ci "cancelled"); [done|].
  destruct (match ci with Some s => _ | None => _ end); [done|].
  destruct (Nat.eqb _ 0) eqn:Hz.
  - apply Nat.eqb_eq in Hz.
    destruct (Nat.leb 2 (S c)) eqn:Hle.
    + destruct fci as [s|]; [destruct (str_in _ _)|]; done.
    + intros [= <-]. right. apply Nat.leb_gt in Hle.
      repeat split; [done|]. lia.
  - apply Nat.eqb_neq in Hz. intros [= <-]. by left.
Qed.

Lemma monitor_check_marks campaign phones ci fci c ac :
  monitor_check campaign phones ci fci c ac = MonitorMarksCompleted →
  active_call_count campaign phones ac = 0%nat
  ∧ c ≠ 0%nat
  ∧ ∃ s, fci = Some s ∧ str_in s ["completed"; "cancelled"] = false.
Proof.
  unfold monitor_check, required_completed_checks.
  destruct (opt_is ci "cancelled"); [done|].
  destruct (match ci with Some s => _ | None => _ end); [done|].
  destruct (Nat.eqb _ 0) eqn:Hz; [|done].
  apply Nat.eqb_eq in Hz.
  destruct c as [|c]; [done|]. cbn [Nat.leb].
  destruct fci as [s|]; [|done].
  destruct (str_in _ _) eqn:Hs; [done|]. intros _.
  repeat split; [done..|]. by exists s.
Qed.

Lemma polling_check campaign phones t c :
  polling t →
  (elapsed t <? max_wait_time * 1000000) = true
  ∧ monitor_check campaign phones (call_info t) (final_call_info t) c
      (active_calls t)
    = if Nat.eqb (active_call_count campaign phones (active_calls t)) 0 then
        if Nat.leb required_completed_checks (S c) then
          match final_call_info t with
          | Some s => if str_in s ["completed"; "cancelled"] then MonitorStops
                      else MonitorMarksCompleted
          | None => MonitorStops
          end
        else MonitorSleeps (S c)
      else MonitorSleeps 0.
Proof.
  intros [Hel (s & Hs & Hc1 & Hc2)]. split; [by apply Z.ltb_lt|].
  unfold monitor_check. rewrite Hs. cbn [opt_is].
  apply String.eqb_neq in Hc1, Hc2. by rewrite Hc1, Hc2.
Qed.

Lemma write_head t s d : ∃ ws, write t s d = (s, d) :: ws.
Proof. unfold write. eauto. Qed.

Lemma write_statuses t s d w :
  w ∈ write t s d → w = (s, d) ∨ w.1 = "failed".
Proof.
  unfold write, on_monitor_error. intros [->|Hw]%elem_of_cons; [by left|].
  right. destruct (update_error t); [|by apply elem_of_nil in Hw].
  destruct (opt_is _ _); [|by apply elem_of_nil in Hw].
  by apply list_elem_of_singleton in Hw as ->.
Qed.

(** The monitor marks the campaign completed only on the strength of two
    checks in a row: with [c] all-complete checks counted so far, either
    [c] is positive and the first turn is the deciding one, or a turn and
    its successor were both all complete. *)
Lemma monitor_loop_completed campaign phones turns : ∀ c ws d,
  monitor_loop campaign phones turns c = MonitorDone ws →
  ("completed", d) ∈ ws →
  head ws = Some ("completed", "All calls processed")
  ∧ ((c ≠ 0%nat
      ∧ ∃ t, turns !! 0%nat = Some t ∧ all_complete campaign phones t)
     ∨ ∃ k t1 t2,
         turns !! k = Some t1 ∧ turns !! S k = Some t2
         ∧ all_complete campaign phones t1 ∧ all_complete campaign phones t2).
Proof.
  induction turns as [|t rest IH]; intros c ws d; cbn [monitor_loop]; [done|].
  destruct (elapsed t <? _).
  - destruct (monitor_check _ _ _ _ _ _) as [| |n] eqn:Hchk.
    + intros [= <-] Hin. by apply elem_of_nil in Hin.
    + intros [= <-] _. apply monitor_check_marks in Hchk as (Hz & Hc & _).
      split; [done|]. left. split; [done|]. by exists t.
    + intros Hloop Hin.
      destruct (IH _ _ _ Hloop Hin)
        as [Hhd [[Hn (t2 & Ht2 & Hz2)]|(k & t1 & t2 & H1 & H2 & Hz1 & Hz2)]];
        (split; [done|]); right.
      * apply monitor_check_sleeps in Hchk as [[-> _]|(_ & Hz & _)]; [done|].
        exists 0%nat, t, t2. by repeat split.
      * exists (S k), t1, t2. by repeat split.
  - intros [= <-] Hin. unfold on_timeout in Hin.
    destruct (final_call_info t) as [s|]; [|by apply elem_of_nil in Hin].
    destruct (str_in _ _); [by apply elem_of_nil in Hin|].
    apply write_statuses in Hin as [[=]|[=]].
Qed.

(** While calls are active the monitor goes on polling with its count
    at zero. *)
Lemma monitor_loop_busy campaign phones pre rest : ∀ c,
  Forall (λ t, polling t ∧ ¬ all_complete campaign phones t) pre →
  pre ≠ [] →
  monitor_loop campaign phones (pre ++ rest) c
  = monitor_loop campaign phones rest 0.
Proof.
  induction pre as [|t pre IH]; intros c Hall Hne; [done|].
  apply Forall_cons in Hall as [[Hp Hbusy] Hall].
  cbn [app monitor_loop].
  destruct (polling_check campaign phones t c Hp) as [-> ->].
  unfold all_complete in Hbusy. apply Nat.eqb_neq in Hbusy. rewrite Hbusy.
  destruct pre as [|t' pre]; [done|]. by apply IH.
Qed.

End MonitorFacts.

(** X13. The completion monitor writes the status completed only on the
    strength of two checks in a row: when its writes contain completed,
    there are two successive turns of the polling loop that both found
    every call of the campaign complete, and that write is the first one it
    made. *)
Theorem monitor_completes_after_two_checks (campaign : string)
    (phones : list string) (turns : list Monitor.Turn)
    (writes : list (string * string)) (details : string) :
  Monitor.monitor_auto_call_completion campaign phones turns
    = Monitor.MonitorDone writes →
  ("completed", details) ∈ writes →
  head writes = Some ("completed", "All calls processed")
  ∧ ∃ k t1 t2,
      turns !! k = Some t1 ∧ turns !! S k = Some t2
      ∧ Monitor.all_complete campaign phones t1
      ∧ Monitor.all_complete campaign phones t2.
Proof.
  unfold Monitor.monitor_auto_call_completion. intros Hloop Hin.
  destruct (monitor_loop_completed _ _ _ _ _ _ Hloop Hin) as [Hhd [[Hc _]|H]];
    done.
Qed.

Lemma monitor_completes_after_two_checks_witness :
  let quiet := Monitor.mkTurn 15000000 (Some "in_progress") ∅
                 (Some "in_progress") None None in
  head [("completed", "All calls processed")]
    = Some ("completed", "All calls processed")
  ∧ ∃ k t1 t2,
      [quiet; quiet] !! k = Some t1 ∧ [quiet; quiet] !! S k = Some t2
      ∧ Monitor.all_complete "7" ["5551234"] t1
      ∧ Monitor.all_complete "7" ["5551234"] t2.
Proof.
  apply (monitor_completes_after_two_checks "7" ["5551234"]
           [Monitor.mkTurn 15000000 (Some "in_progress") ∅ (Some "in_progress")
              None None;
            Monitor.mkTurn 15000000 (Some "in_progress") ∅ (Some "in_progress")
              None None]
           [("completed", "All calls processed")] "All calls processed").
  - reflexivity.
  - apply elem_of_cons. by left.
Defined.

(** X14. The monitor ends a campaign once its calls are done: after any
    number of turns that found calls still active, two successive turns
    that find every call complete, all before the time limit and with the
    campaign row neither cancelled nor completed, make the monitor return at
    the second of them; it writes completed first when the row read then is
    still neither completed nor cancelled, and nothing otherwise. *)
Theorem monitor_ends_after_two_quiet_checks (campaign : string)
    (phones : list string) (busy later : list Monitor.Turn)
    (t1 t2 : Monitor.Turn) :
  Forall (λ t, Monitor.polling t ∧ ¬ Monitor.all_complete campaign phones t) busy →
  Monitor.polling t1 → Monitor.polling t2 →
  Monitor.all_complete campaign phones t1 →
  Monitor.all_complete campaign phones t2 →
  Monitor.monitor_auto_call_completion campaign phones
    (busy ++ t1 :: t2 :: later)
  = Monitor.MonitorDone
      match Monitor.final_call_info t2 with
      | Some s => if Py.str_in s ["completed"; "cancelled"] then []
                  else Monitor.write t2 "completed" "All calls processed"
      | None => []
      end.
Proof.
  intros Hbusy Hp1 Hp2 Hz1 Hz2. unfold Monitor.monitor_auto_call_completion.
  assert (Monitor.monitor_loop campaign phones (busy ++ t1 :: t2 :: later) 0
          = Monitor.monitor_loop campaign phones (t1 :: t2 :: later) 0) as ->.
  { destruct busy as [|t busy]; [done|]. by apply monitor_loop_busy. }
  cbn [Monitor.monitor_loop].
  unfold Monitor.all_complete in Hz1, Hz2.
  destruct (polling_check campaign phones t1 0 Hp1) as [-> ->].
  rewrite Hz1. unfold Watchdog.required_completed_checks. cbn [Nat.eqb Nat.leb].
  destruct (polling_check campaign phones t2 1 Hp2) as [-> ->].
  rewrite Hz2. unfold Watchdog.required_completed_checks. cbn [Nat.eqb Nat.leb].
  destruct (Monitor.final_call_info t2) as [s|]; [|done].
  by destruct (Py.str_in _ _).
Qed.

Lemma monitor_ends_after_two_quiet_checks_witness :
  let ringing := CallStore.mkCallData "ringing" None 0 None None false in
  let busy := Monitor.mkTurn 15000000 (Some "in_progress")
                {[ "7" := {[ "5551234" := ringing ]} ]}
                None None None in
  let quiet := Monitor.mkTurn 30000000 (Some "in_progress") ∅
                 (Some "in_progress") None None in
  Monitor.monitor_auto_call_completion "7" ["5551234"]
    ([busy] ++ quiet :: quiet :: [])
  = Monitor.MonitorDone [("completed", "All calls processed")].
Proof.
  apply (monitor_ends_after_two_quiet_checks "7" ["5551234"]
           [Monitor.mkTurn 15000000 (Some "in_progress")
              {[ "7" := {[ "5551234" :=
                   CallStore.mkCallData "ringing" None 0 None None false ]} ]}
              None None None]
           []
           (Monitor.mkTurn 30000000 (Some "in_progress") ∅
              (Some "in_progress") None None)
           (Monitor.mkTurn 30000000 (Some "in_progress") ∅
              (Some "in_progress") None None)).
  - constructor; [|constructor].
    split; [|by vm_compute].
    split; [by vm_compute|]. exists "in_progress". by repeat split.
  - split; [by vm_compute|]. exists "in_progress". by repeat split.
  - split; [by vm_compute|]. exists "in_progress". by repeat split.
  - by vm_compute.
  - by vm_compute.
Defined.

(** ** The lock of the call state store *)

Section LockFacts.
Import Py CallStore Locked.

(** A thread that holds the lock and calls [update_call_status] blocks,
    with the store untouched. *)
Lemma update_call_status_blocks c p s dt a u now sh :
  lock_held sh = true →
  Locked.update_call_status c p s dt a u now sh = Blocks sh.
Proof. unfold Locked.update_call_status, with_lock. by intros ->. Qed.

Variable items : ∀ A : Type, gmap string A → list (string * A).
Hypothesis items_perm : ∀ A (m : gmap string A), items A m ≡ₚ map_to_list m.

Lemma elem_of_items {A} (m : gmap string A) k x :
  (k, x) ∈ items A m ↔ m !! k = Some x.
Proof. rewrite (items_perm A m). apply elem_of_map_to_list. Qed.

Lemma existsb_elem_of {A} (f : A → bool) (l : list A) :
  existsb f l = true ↔ ∃ x, x ∈ l ∧ f x = true.
Proof.
  rewrite existsb_exists. split; intros (x & Hx & Hf); exists x;
    (split; [by apply list_elem_of_In | done]).
Qed.

Section DetectFacts.

Variable run_asterisk_command : string → string → bool * list string.
Variable update_clock : string → string → Z.

Lemma check_call_blocks now campaign phone d sh :
  lock_held sh = true →
  check_call run_asterisk_command update_clock now campaign phone d sh
  = if stuck_test run_asterisk_command now campaign (phone, d) then Blocks sh else Returns tt sh.
Proof.
  intros Hl. unfold check_call, stuck_test. cbn [fst snd].
  destruct (str_in _ _); cbn [negb andb]; [|done].
  destruct (total_seconds_gt _ _); cbn [andb]; [|done].
  destruct (channel_exists _ _ _); cbn [negb]; [done|].
  by rewrite update_call_status_blocks.
Qed.

Lemma check_calls_blocks now campaign calls sh :
  lock_held sh = true →
  check_calls run_asterisk_command update_clock now campaign calls sh
  = if existsb (stuck_test run_asterisk_command now campaign) calls then Blocks sh else Returns tt sh.
Proof.
  intros Hl. induction calls as [|[phone d] rest IH]; [done|].
  cbn [check_calls existsb]. rewrite check_call_blocks by done.
  destruct (stuck_test run_asterisk_command now campaign (phone, d)); [done|]. exact IH.
Qed.

Lemma check_campaigns_blocks now (active_db : gset string) campaigns sh :
  lock_held sh = true →
  check_campaigns items run_asterisk_command update_clock now active_db
    campaigns sh
  = if existsb (λ cc : string * gmap string CallData,
                  negb (String.eqb cc.1 "default")
                  && bool_decide (cc.1 ∈ active_db)
                  && existsb (stuck_test run_asterisk_command now cc.1) (items _ cc.2)) campaigns
    then Blocks sh else Returns tt sh.
Proof.
  intros Hl. induction campaigns as [|[campaign calls] rest IH]; [done|].
  cbn [check_campaigns existsb fst snd].
  destruct (String.eqb campaign "default"); cbn [negb orb andb]; [exact IH|].
  destruct (bool_decide (campaign ∈ active_db)); cbn [negb andb]; [|exact IH].
  rewrite check_calls_blocks by done.
  destruct (existsb (stuck_test run_asterisk_command now campaign) _); [done|]. exact IH.
Qed.

Lemma stuckb_spec now (active_db : gset string) campaign phone d :
  campaign ≠ "default" ∧ campaign ∈ active_db
  ∧ stuck_test run_asterisk_command now campaign (phone, d) = true
  ↔ stuck_without_channel run_asterisk_command now active_db campaign phone d.
Proof.
  unfold stuck_without_channel, stuck_test, total_seconds_gt. cbn [fst snd].
  rewrite !andb_true_iff, negb_true_iff, str_in_spec, Z.ltb_lt. tauto.
Qed.

Lemma scan_blocks_iff now (active_db : gset string)
    (ac : gmap string (gmap string CallData)) :
  existsb (λ cc : string * gmap string CallData,
             negb (String.eqb cc.1 "default")
             && bool_decide (cc.1 ∈ active_db)
             && existsb (stuck_test run_asterisk_command now cc.1) (items _ cc.2)) (items _ ac) = true
  ↔ ∃ campaign phone d,
      get_call ac campaign phone = Some d
      ∧ stuck_without_channel run_asterisk_command now active_db
          campaign phone d.
Proof.
  rewrite existsb_elem_of. split.
  - intros ([campaign calls] & Hin & Hb). cbn [fst snd] in Hb.
    apply andb_true_iff in Hb as [Hb Hex].
    apply andb_true_iff in Hb as [Hdef Hact].
    apply negb_true_iff, String.eqb_neq in Hdef.
    apply bool_decide_eq_true in Hact.
    apply existsb_elem_of in Hex as ([phone d] & Hpd & Hst).
    apply elem_of_items in Hin, Hpd.
    exists campaign, phone, d. split.
    + unfold get_call. by rewrite Hin.
    + by apply stuckb_spec.
  - intros (campaign & phone & d & Hget & Hst).
    apply stuckb_spec in Hst as (Hdef & Hact & Hst).
    unfold get_call in Hget.
    destruct (ac !! campaign) as [calls|] eqn:Hc; [|done]. cbn in Hget.
    exists (campaign, calls). split; [by apply elem_of_items|].
    cbn [fst snd]. apply String.eqb_neq in Hdef. rewrite Hdef.
    rewrite (bool_decide_eq_true_2 _ Hact). cbn [negb andb].
    apply existsb_elem_of. exists (phone, d).
    split; [by apply elem_of_items | done].
Qed.

End DetectFacts.

Lemma abort_entries_blocks campaign clock calls : ∀ phones sh,
  lock_held sh = true →
  abort_entries campaign calls clock phones sh
  = if existsb (λ kv : string * CallData,
                  str_in (status kv.2) ["ringing"; "dialing"; "answered"]) calls
    then Blocks sh else Returns phones sh.
Proof.
  induction calls as [|[phone d] rest IH]; intros phones sh Hl; [done|].
  cbn [abort_entries existsb snd].
  destruct (str_in (status d) _); cbn [orb].
  - by rewrite update_call_status_blocks.
  - by apply IH.
Qed.

End LockFacts.

(** X15. detect_stuck_calls never marks a call as timed out. It runs its
    scan holding the lock of the store, which is not reentrant, and
    update_call_status takes that lock: when the store holds, after the
    cleanup, an entry of an active campaign that is ringing or dialing for
    more than 60 seconds with no matching channel, the call for it blocks
    for ever, lock held and store as the cleanup left it; when there is no
    such entry the function returns, lock released, having changed nothing
    but what the cleanup removed. The order of the dictionaries does not
    matter. *)
Theorem detect_stuck_calls_blocks_on_stuck_call
    (items : ∀ A : Type, gmap string A → list (string * A))
    (py_int : string → option Z) (announcements : gset Z)
    (scheduled_calls : gmap Z Campaigns.CallRow)
    (get_active_campaign_ids : list string → gset string)
    (run_asterisk_command : string → string → bool * list string)
    (update_clock : string → string → Z) (cleanup_utc now_utc : Z)
    (active_calls : gmap string (gmap string CallStore.CallData)) :
  (∀ A (m : gmap string A), items A m ≡ₚ map_to_list m) →
  let cleaned :=
    Watchdog.cleanup_stale_active_calls py_int announcements scheduled_calls
      cleanup_utc active_calls in
  let active_db :=
    Locked.active_db_campaigns_of items get_active_campaign_ids cleaned in
  let stuck :=
    ∃ campaign phone d,
      CallStore.get_call cleaned campaign phone = Some d
      ∧ Locked.stuck_without_channel run_asterisk_command now_utc active_db
          campaign phone d in
  let result :=
    Locked.detect_stuck_calls items py_int announcements scheduled_calls
      get_active_campaign_ids run_asterisk_command update_clock
      cleanup_utc now_utc (Locked.mkShared false active_calls) in
  (stuck → result = Locked.Blocks (Locked.mkShared true cleaned))
  ∧ (¬ stuck → result = Locked.Returns tt (Locked.mkShared false cleaned)).
Proof.
  intros items_perm cleaned active_db stuck result.
  assert (result
          = if existsb (λ cc : string * gmap string CallStore.CallData,
                 negb (String.eqb cc.1 "default")
                 && bool_decide (cc.1 ∈ active_db)
                 && existsb (Locked.stuck_test run_asterisk_command now_utc cc.1)
                      (items _ cc.2)) (items _ cleaned)
            then Locked.Blocks (Locked.mkShared true cleaned)
            else Locked.Returns tt (Locked.mkShared false cleaned)) as Hres.
  { unfold result, Locked.detect_stuck_calls, Locked.cleanup_stale_active_calls,
      Locked.with_lock, Locked.and_then.
    cbn [Locked.lock_held Locked.active_calls].
    fold cleaned. fold active_db.
    rewrite (check_campaigns_blocks items run_asterisk_command update_clock)
      by done.
    by destruct (existsb _ _). }
  pose proof (scan_blocks_iff items items_perm run_asterisk_command update_clock now_utc
                active_db cleaned) as Hiff.
  fold stuck in Hiff. rewrite Hres. split; intros Hs.
  - apply Hiff in Hs. by rewrite Hs.
  - destruct (existsb _ _) eqn:He; [|done]. exfalso. by apply Hs, Hiff.
Qed.

Lemma detect_stuck_calls_blocks_on_stuck_call_witness :
  let items := λ A (m : gmap string A), map_to_list m in
  let stale_ringing := CallStore.mkCallData "ringing" (Some "Phone is ringing")
                         0 (Some "a-1") (Some "1700000000.1") false in
  let store : gmap string (gmap string CallStore.CallData) :=
    {[ "7" := {[ "5551234" := stale_ringing ]} ]} in
  let db : gmap Z Campaigns.CallRow :=
    {[ 7 := Campaigns.mkCallRow 1 0 None "Info" "in_progress" None ]} in
  let cleaned :=
    Watchdog.cleanup_stale_active_calls (λ _, Some 7) {[ 1 ]} db 90000000 store in
  let active_db := Locked.active_db_campaigns_of items (λ _, {[ "7" ]}) cleaned in
  let stuck :=
    ∃ campaign phone d,
      CallStore.get_call cleaned campaign phone = Some d
      ∧ Locked.stuck_without_channel (λ _ _, (true, [])) 90000000 active_db
          campaign phone d in
  let result :=
    Locked.detect_stuck_calls items (λ _, Some 7) {[ 1 ]} db (λ _, {[ "7" ]})
      (λ _ _, (true, [])) (λ _ _, 100000000) 90000000 90000000
      (Locked.mkShared false store) in
  (stuck → result = Locked.Blocks (Locked.mkShared true cleaned))
  ∧ (¬ stuck → result = Locked.Returns tt (Locked.mkShared false cleaned)).
Proof.
  apply (detect_stuck_calls_blocks_on_stuck_call
           (λ A (m : gmap string A), map_to_list m)).
  intros A m. reflexivity.
Defined.

(** The scan at work on one ringing entry, two minutes old, whose channel
    the listing does not show: the call blocks, and the entry is still
    ringing. *)
Example stuck_call_blocks_the_scan :
  let stale_ringing := CallStore.mkCallData "ringing" (Some "Phone is ringing")
                         0 (Some "a-1") (Some "1700000000.1") false in
  let store : gmap string (gmap string CallStore.CallData) :=
    {[ "7" := {[ "5551234" := stale_ringing ]} ]} in
  let db : gmap Z Campaigns.CallRow :=
    {[ 7 := Campaigns.mkCallRow 1 0 None "Info" "in_progress" None ]} in
  Locked.detect_stuck_calls (λ A (m : gmap string A), map_to_list m)
    (λ _, Some 7) {[ 1 ]} db (λ _, {[ "7" ]})
    (λ _ _, (true, ["PJSIP/trunk-00000001 s@from-trunk:1 Up Playback(x)"]))
    (λ _ _, 121000000) 120000000 120000001 (Locked.mkShared false store)
  = Locked.Blocks (Locked.mkShared true store).
Proof. vm_compute. reflexivity. Qed.

(** X16. The abort_calls route never marks an entry aborted and never
    gets to its hangup requests. It sets the campaign row to cancelled, then
    goes over the entries of the campaign holding the lock of the store:
    when an entry is ringing, dialing or answered, its call of
    update_call_status blocks for ever, lock held, store unchanged; when
    there is none, the loop ends with an empty phones_to_hangup and the
    store unchanged. *)
Theorem abort_calls_blocks_on_active_call
    (items : ∀ A : Type, gmap string A → list (string * A))
    (found_rows : bool) (call_id : Z) (campaign : string)
    (update_clock : string → Z) (scheduled_calls : gmap Z Campaigns.CallRow)
    (active_calls : gmap string (gmap string CallStore.CallData)) :
  (∀ A (m : gmap string A), items A m ≡ₚ map_to_list m) →
  let active :=
    ∃ phone d,
      CallStore.get_call active_calls campaign phone = Some d
      ∧ CallStore.status d ∈ ["ringing"; "dialing"; "answered"] in
  let result :=
    Locked.abort_calls items found_rows call_id campaign update_clock
      scheduled_calls (Locked.mkShared false active_calls) in
  (is_Some (scheduled_calls !! call_id) →
     Campaigns.status <$> result.1 !! call_id = Some "cancelled")
  ∧ (active → result.2 = Locked.Blocks (Locked.mkShared true active_calls))
  ∧ (¬ active → result.2 = Locked.Returns [] (Locked.mkShared false active_calls)).
Proof.
  intros items_perm active result. split; [apply update_status_sets|].
  assert (result.2
          = if match active_calls !! campaign with
               | Some calls =>
                   existsb (λ kv : string * CallStore.CallData,
                              Py.str_in (CallStore.status kv.2)
                                ["ringing"; "dialing"; "answered"])
                     (items _ calls)
               | None => false
               end
            then Locked.Blocks (Locked.mkShared true active_calls)
            else Locked.Returns [] (Locked.mkShared false active_calls)) as ->.
  { unfold result, Locked.abort_calls, Locked.with_lock.
    cbn [snd Locked.lock_held Locked.active_calls].
    destruct (active_calls !! campaign) as [calls|]; [|done].
    rewrite abort_entries_blocks by done.
    by destruct (existsb _ _). }
  assert (match active_calls !! campaign with
          | Some calls =>
              existsb (λ kv : string * CallStore.CallData,
                         Py.str_in (CallStore.status kv.2)
                           ["ringing"; "dialing"; "answered"])
                (items _ calls)
          | None => false
          end = true ↔ active) as Hiff.
  { unfold active, CallStore.get_call.
    destruct (active_calls !! campaign) as [calls|]; cbn [mbind option_bind].
    - rewrite existsb_elem_of. split.
      + intros ([phone d] & Hin & Hs). exists phone, d.
        split; [by apply (elem_of_items items items_perm) | by apply str_in_spec].
      + intros (phone & d & Hin & Hs). exists (phone, d).
        split; [by apply (elem_of_items items items_perm) | by apply str_in_spec].
    - split; [done|]. by intros (? & ? & ? & _). }
  split; intros Hs.
  - apply Hiff in Hs. by rewrite Hs.
  - destruct (match active_calls !! campaign with Some _ => _ | None => _ end);
      [|done].
    exfalso. by apply Hs, Hiff.
Qed.

Lemma abort_calls_blocks_on_active_call_witness :
  let items := λ A (m : gmap string A), map_to_list m in
  let answered := CallStore.mkCallData "answered" (Some "Call answered")
                    0 (Some "a-1") (Some "1700000000.1") false in
  let store : gmap string (gmap string CallStore.CallData) :=
    {[ "7" := {[ "5551234" := answered ]} ]} in
  let db : gmap Z Campaigns.CallRow :=
    {[ 7 := Campaigns.mkCallRow 1 0 None "Info" "in_progress" None ]} in
  let active :=
    ∃ phone d,
      CallStore.get_call store "7" phone = Some d
      ∧ CallStore.status d ∈ ["ringing"; "dialing"; "answered"] in
  let result :=
    Locked.abort_calls items false 7 "7" (λ _, 1000000) db
      (Locked.mkShared false store) in
  (is_Some (db !! 7) →
     Campaigns.status <$> result.1 !! 7 = Some "cancelled")
  ∧ (active → result.2 = Locked.Blocks (Locked.mkShared true store))
  ∧ (¬ active → result.2 = Locked.Returns [] (Locked.mkShared false store)).
Proof.
  apply (abort_calls_blocks_on_active_call
           (λ A (m : gmap string A), map_to_list m)).
  intros A m. reflexivity.
Defined.

(** ** Attribution of OriginateResponse events *)

Section CorrelateFacts.
Import Py CallStore Correlate.

Variable items : ∀ A : Type, gmap string A → list (string * A).
Hypothesis items_perm : ∀ A (m : gmap string A), items A m ≡ₚ map_to_list m.

Lemma items_lookup {A} (m : gmap string A) k x :
  (k, x) ∈ items A m ↔ m !! k = Some x.
Proof. rewrite (items_perm A m). apply elem_of_map_to_list. Qed.

Lemma opt_is_spec o s : opt_is o s = true ↔ o = Some s.
Proof.
  destruct o as [x|]; cbn; [|done]. rewrite String.eqb_eq.
  split; [by intros -> | by intros [= ->]].
Qed.

Lemma find_in_calls_some action calls phone :
  find_in_calls action calls = Some phone →
  ∃ d, (phone, d) ∈ calls ∧ action_id d = Some action.
Proof.
  unfold find_in_calls.
  destruct (List.find _ calls) as [[p d]|] eqn:Hf; [|done].
  intros [= <-]. apply find_some in Hf as [Hin Hd].
  exists d. split; [by apply list_elem_of_In | by apply opt_is_spec].
Qed.

Lemma find_in_calls_none action calls :
  find_in_calls action calls = None ↔
  ∀ phone d, (phone, d) ∈ calls → action_id d ≠ Some action.
Proof.
  unfold find_in_calls. split.
  - destruct (List.find _ calls) as [kv|] eqn:Hf; [done|]. intros _ phone d Hin Ha.
    apply list_elem_of_In in Hin.
    pose proof (find_none _ _ Hf _ Hin) as Hn. cbn in Hn.
    apply opt_is_spec in Ha. congruence.
  - intros Hall. destruct (List.find _ calls) as [[p d]|] eqn:Hf; [|done].
    apply find_some in Hf as [Hin Hd]. apply list_elem_of_In in Hin.
    apply opt_is_spec in Hd. by destruct (Hall p d Hin).
Qed.

Lemma find_in_campaigns_some action campaigns campaign phone :
  find_in_campaigns items action campaigns = Some (campaign, phone) →
  ∃ calls d, (campaign, calls) ∈ campaigns ∧ calls !! phone = Some d
             ∧ action_id d = Some action.
Proof.
  induction campaigns as [|[c calls] rest IH]; [done|]. cbn [find_in_campaigns].
  destruct (find_in_calls action (items _ calls)) as [p|] eqn:Hf.
  - intros [= <- <-]. apply find_in_calls_some in Hf as (d & Hin & Ha).
    exists calls, d. split; [by left|]. split; [by apply items_lookup | done].
  - intros H. destruct (IH H) as (calls' & d & Hin & Hd & Ha).
    exists calls', d. split; [by right | done].
Qed.

Lemma find_in_campaigns_none action campaigns :
  find_in_campaigns items action campaigns = None ↔
  ∀ campaign calls phone d,
    (campaign, calls) ∈ campaigns → calls !! phone = Some d →
    action_id d ≠ Some action.
Proof.
  induction campaigns as [|[c calls] rest IH]; cbn [find_in_campaigns].
  { split; [|done]. intros _ ? ? ? ? Hin. by apply elem_of_nil in Hin. }
  destruct (find_in_calls action (items _ calls)) as [p|] eqn:Hf.
  - split; [done|]. intros Hall. exfalso.
    apply find_in_calls_some in Hf as (d & Hin & Ha).
    apply items_lookup in Hin. by apply (Hall c calls p d); [left|..].
  - rewrite IH. split.
    + intros Hall campaign calls' phone d Hin Hd.
      apply elem_of_cons in Hin as [[= -> ->]|Hin]; [|by eapply Hall].
      rewrite find_in_calls_none in Hf. apply (Hf phone d).
      by apply items_lookup.
    + intros Hall campaign calls' phone d Hin.
      apply (Hall campaign calls' phone d). by right.
Qed.

Lemma get_call_items (ac : gmap string (gmap string CallData)) campaign phone d :
  get_call ac campaign phone = Some d ↔
  ∃ calls, (campaign, calls) ∈ items _ ac ∧ calls !! phone = Some d.
Proof.
  unfold get_call. split.
  - destruct (ac !! campaign) as [calls|] eqn:Hc; [|done]. cbn. intros Hd.
    exists calls. split; [by apply items_lookup | done].
  - intros (calls & Hin & Hd). apply items_lookup in Hin. by rewrite Hin.
Qed.

Lemma find_call_by_action_id_some action ac campaign phone :
  find_call_by_action_id items action ac = Some (campaign, phone) →
  ∃ d, get_call ac campaign phone = Some d ∧ action_id d = Some action.
Proof.
  intros H. apply find_in_campaigns_some in H as (calls & d & Hin & Hd & Ha).
  exists d. split; [|done]. apply get_call_items. by exists calls.
Qed.

Lemma find_call_by_action_id_none action ac :
  find_call_by_action_id items action ac = None ↔
  ∀ campaign phone d,
    get_call ac campaign phone = Some d → action_id d ≠ Some action.
Proof.
  unfold find_call_by_action_id. rewrite find_in_campaigns_none. split.
  - intros Hall campaign phone d Hget.
    apply get_call_items in Hget as (calls & Hin & Hd). by eapply Hall.
  - intros Hall campaign calls phone d Hin Hd. apply (Hall campaign phone).
    apply get_call_items. by exists calls.
Qed.

(** When one entry only carries the action id, the search finds it. *)
Lemma find_call_by_action_id_unique action ac campaign phone d :
  get_call ac campaign phone = Some d →
  action_id d = Some action →
  (∀ campaign' phone' d',
     get_call ac campaign' phone' = Some d' → action_id d' = Some action →
     campaign' = campaign ∧ phone' = phone) →
  find_call_by_action_id items action ac = Some (campaign, phone).
Proof.
  intros Hget Ha Huniq.
  destruct (find_call_by_action_id items action ac) as [[c p]|] eqn:Hf.
  - apply find_call_by_action_id_some in Hf as (d' & Hget' & Ha').
    by destruct (Huniq c p d' Hget' Ha') as [-> ->].
  - rewrite find_call_by_action_id_none in Hf. by destruct (Hf _ _ _ Hget).
Qed.

End CorrelateFacts.

(** X17. find_call_by_action_id, whatever the order of the dictionaries:
    a pair it returns has an entry that carries the action id; it returns
    nothing exactly when no entry carries it; and when a single entry
    carries it, that entry's pair is returned. *)
Theorem find_call_by_action_id_finds_the_entry
    (items : ∀ A : Type, gmap string A → list (string * A))
    (action : string)
    (active_calls : gmap string (gmap string CallStore.CallData)) :
  (∀ A (m : gmap string A), items A m ≡ₚ map_to_list m) →
  let found := Correlate.find_call_by_action_id items action active_calls in
  let carries campaign phone :=
    ∃ d, CallStore.get_call active_calls campaign phone = Some d
         ∧ CallStore.action_id d = Some action in
  (∀ campaign phone, found = Some (campaign, phone) → carries campaign phone)
  ∧ (found = None ↔ ∀ campaign phone, ¬ carries campaign phone)
  ∧ (∀ campaign phone,
       carries campaign phone →
       (∀ campaign' phone', carries campaign' phone' →
                            campaign' = campaign ∧ phone' = phone) →
       found = Some (campaign, phone)).
Proof.
  intros items_perm found carries. split; [|split].
  - intros campaign phone.
    apply (find_call_by_action_id_some items items_perm).
  - unfold found. rewrite (find_call_by_action_id_none items items_perm).
    unfold carries. split.
    + intros Hall campaign phone (d & Hget & Ha). by eapply Hall.
    + intros Hall campaign phone d Hget Ha. apply (Hall campaign phone).
      by exists d.
  - intros campaign phone (d & Hget & Ha) Huniq.
    apply (find_call_by_action_id_unique items items_perm _ _ _ _ d); [done..|].
    intros c' p' d' Hget' Ha'. apply Huniq. by exists d'.
Qed.

Lemma find_call_by_action_id_finds_the_entry_witness :
  let items := λ A (m : gmap string A), map_to_list m in
  let store : gmap string (gmap string CallStore.CallData) :=
    {[ "7" := {[ "5551234" :=
         CallStore.mkCallData "dialing" None 0 (Some "a-1") None false ]} ]} in
  let found := Correlate.find_call_by_action_id items "a-1" store in
  let carries campaign phone :=
    ∃ d, CallStore.get_call store campaign phone = Some d
         ∧ CallStore.action_id d = Some "a-1" in
  (∀ campaign phone, found = Some (campaign, phone) → carries campaign phone)
  ∧ (found = None ↔ ∀ campaign phone, ¬ carries campaign phone)
  ∧ (∀ campaign phone,
       carries campaign phone →
       (∀ campaign' phone', carries campaign' phone' →
                            campaign' = campaign ∧ phone' = phone) →
       found = Some (campaign, phone)).
Proof.
  apply (find_call_by_action_id_finds_the_entry
           (λ A (m : gmap string A), map_to_list m)).
  intros A m. reflexivity.
Defined.

Section ResponseFacts.
Import Py CallStore DialLoop Correlate.

Lemma store_uniqueid_entry c p u (ac : gmap string (gmap string CallData)) d :
  get_call ac c p = Some d →
  get_call (store_uniqueid c p u ac) c p
  = Some (mkCallData (status d) (details d) (timestamp d) (action_id d)
            (Some u) (finalized_in_memory d)).
Proof.
  unfold store_uniqueid, get_call.
  destruct (ac !! c) as [calls|] eqn:Hc; [|done]. cbn. intros ->.
  rewrite lookup_insert_eq. cbn. apply lookup_insert_eq.
Qed.

(** What a pass that sends its origination leaves behind. *)
Lemma dial_member_sent campaign member e st :
  reaches_originate e = true → raises e = None →
  client_present e = true → send_action_ok e = true →
  dial_member campaign member e st
  = (Next,
     {| active_calls :=
          <[campaign :=
              <[phone_number member :=
                  mkCallData "dialing" (Some "Auto-initiated") (now e)
                    (Some (fresh_action_id e)) None false]>
                (default ∅ (active_calls st !! campaign))]> (active_calls st);
        pending_correlations :=
          Pending.register_pending_call (phone_number member) campaign
            (fresh_action_id e) (now e) (pending_correlations st) |}).
Proof.
  unfold reaches_originate, dial_member. intros Hr Hn Hp Hs.
  rewrite Hn in *. rewrite Hp, Hs.
  apply andb_true_iff in Hr as [Hst Hc]. rewrite Hst.
  apply String.eqb_eq in Hst. rewrite Hst.
  cbn [String.eqb Ascii.eqb Bool.eqb negb].
  apply orb_true_iff in Hc.
  by assert (negb (client_connected e) && negb (initialize_ok e) = false) as ->
    by (destruct Hc as [-> | ->]; [done | apply andb_false_r]).
Qed.

End ResponseFacts.

(** X18. The answer to an origination settles the call it was sent for.
    After a pass of the dial loop has sent its origination under an action
    id no entry of the store carried, an OriginateResponse event with that
    action id is attributed to the recipient's entry at once, whatever the
    order of the dictionaries: with response Failure the entry becomes
    rejected and finalized; with response Success and a unique id the entry
    becomes answered, not finalized, and carries that unique id. In both
    cases the pending correlation of the recipient is cleared. *)
Theorem originate_response_settles_dialed_call
    (items : ∀ A : Type, gmap string A → list (string * A))
    (campaign : string) (member : DialLoop.Member) (e : DialLoop.Pass)
    (st : DialLoop.LoopState) (event : gmap string string) (now : Z) :
  (∀ A (m : gmap string A), items A m ≡ₚ map_to_list m) →
  DialLoop.reaches_originate e = true →
  DialLoop.raises e = None →
  DialLoop.client_present e = true →
  DialLoop.send_action_ok e = true →
  campaign ≠ "" → DialLoop.phone_number member ≠ "" →
  DialLoop.fresh_action_id e ≠ "" →
  (∀ c p d, CallStore.get_call (DialLoop.active_calls st) c p = Some d →
            CallStore.action_id d ≠ Some (DialLoop.fresh_action_id e)) →
  event !! "Event" = Some "OriginateResponse" →
  event !! "ActionID" = Some (DialLoop.fresh_action_id e) →
  let phone := DialLoop.phone_number member in
  let st1 := (DialLoop.dial_member campaign member e st).2 in
  let after := Correlate.originate_response_by_action_id items event now st1 in
  (event !! "Response" = Some "Failure" →
     ∃ st2 d,
       after = Some st2
       ∧ CallStore.get_call (DialLoop.active_calls st2) campaign phone = Some d
       ∧ CallStore.status d = "rejected"
       ∧ CallStore.finalized_in_memory d = true
       ∧ DialLoop.pending_correlations st2 !! phone = None)
  ∧ (∀ u, event !! "Response" = Some "Success" →
          event !! "Uniqueid" = Some u → u ≠ "" →
     ∃ st2 d,
       after = Some st2
       ∧ CallStore.get_call (DialLoop.active_calls st2) campaign phone = Some d
       ∧ CallStore.status d = "answered"
       ∧ CallStore.uniqueid d = Some u
       ∧ CallStore.finalized_in_memory d = false
       ∧ DialLoop.pending_correlations st2 !! phone = None).
Proof.
  intros items_perm Hreach Hraise Hclient Hsend Hc Hp Ha Hfresh Hev Hid
    phone st1 after. subst phone.
  assert (st1 = (DialLoop.dial_member campaign member e st).2) as Hst1 by done.
  rewrite (dial_member_sent campaign member e st Hreach Hraise Hclient Hsend)
    in Hst1.
  cbn [snd] in Hst1.
  set (entry := CallStore.mkCallData "dialing" (Some "Auto-initiated")
                  (DialLoop.now e) (Some (DialLoop.fresh_action_id e)) None false)
    in Hst1.
  assert (CallStore.get_call (DialLoop.active_calls st1) campaign (DialLoop.phone_number member)
          = Some entry) as Hentry.
  { rewrite Hst1. cbn [DialLoop.active_calls]. apply get_call_insert. }
  assert (Correlate.find_call_by_action_id items (DialLoop.fresh_action_id e)
            (DialLoop.active_calls st1) = Some (campaign, DialLoop.phone_number member)) as Hfind.
  { apply (find_call_by_action_id_unique items items_perm _ _ _ _ entry);
      [done | done |].
    intros c' p' d' Hget Hd'.
    destruct (decide ((c', p') = (campaign, DialLoop.phone_number member))) as [[= -> ->]|Hne]; [done|].
    exfalso. rewrite Hst1 in Hget. cbn [DialLoop.active_calls] in Hget.
    rewrite get_call_insert_other in Hget by done.
    by apply (Hfresh c' p' d'). }
  assert (after
          = Some (Correlate.process_originate_response event campaign (DialLoop.phone_number member) now
                    st1)) as Hafter.
  { unfold after, Correlate.originate_response_by_action_id.
    rewrite Hev, Hid. cbn [default from_option id Py.truthy].
    apply String.eqb_neq in Ha, Hc, Hp.
    rewrite Ha. cbn [String.eqb Ascii.eqb Bool.eqb negb andb].
    rewrite Hfind, Hc, Hp. done. }
  split.
  - intros Hresp.
    assert (Correlate.process_originate_response event campaign
              (DialLoop.phone_number member) now st1
            = DialLoop.mkLoopState
                (CallStore.update_call_status campaign
                   (DialLoop.phone_number member) "rejected"
                   (Some ("Originate failed: "
                          +:+ Correlate.fstr (event !! "Reason")))
                   (event !! "ActionID") (event !! "Uniqueid") now
                   (DialLoop.active_calls st1)).2
                (Pending.clear_pending_call (DialLoop.phone_number member)
                   (DialLoop.pending_correlations st1))) as Hproc.
    { unfold Correlate.process_originate_response. by rewrite Hresp. }
    rewrite Hproc in Hafter.
    pose proof (update_call_status_entry campaign (DialLoop.phone_number member)
                  "rejected"
                  (Some ("Originate failed: " +:+ Correlate.fstr (event !! "Reason")))
                  (event !! "ActionID") (event !! "Uniqueid") now
                  (DialLoop.active_calls st1)) as Hget.
    rewrite Hentry in Hget.
    eexists _, _. split; [exact Hafter|]. split; [exact Hget|].
    split; [reflexivity|]. split; [reflexivity|]. apply lookup_delete_eq.
  - intros u Hresp Hu Hne.
    assert (Correlate.process_originate_response event campaign
              (DialLoop.phone_number member) now st1
            = DialLoop.mkLoopState
                (CallStore.update_call_status campaign
                   (DialLoop.phone_number member) "answered"
                   (Some ("Call connected: "
                          +:+ Correlate.fstr (event !! "Channel")))
                   (event !! "ActionID") (Some u) now
                   (Correlate.store_uniqueid campaign
                      (DialLoop.phone_number member) u
                      (DialLoop.active_calls st1))).2
                (Pending.clear_pending_call (DialLoop.phone_number member)
                   (DialLoop.pending_correlations st1))) as Hproc.
    { unfold Correlate.process_originate_response. rewrite Hresp, Hu.
      apply String.eqb_neq in Hne. cbn [Py.truthy]. rewrite Hne. done. }
    rewrite Hproc in Hafter.
    pose proof (update_call_status_entry campaign (DialLoop.phone_number member)
                  "answered"
                  (Some ("Call connected: " +:+ Correlate.fstr (event !! "Channel")))
                  (event !! "ActionID") (Some u) now
                  (Correlate.store_uniqueid campaign (DialLoop.phone_number member)
                     u (DialLoop.active_calls st1))) as Hget.
    rewrite (store_uniqueid_entry _ _ _ _ _ Hentry) in Hget.
    eexists _, _. split; [exact Hafter|]. split; [exact Hget|].
    split; [reflexivity|]. split; [reflexivity|]. split; [reflexivity|].
    apply lookup_delete_eq.
Qed.

Lemma originate_response_settles_dialed_call_witness :
  let items := λ A (m : gmap string A), map_to_list m in
  let e := DialLoop.mkPass (Some "in_progress") true true "a-1" true true
             None "" 1000000 in
  let member := DialLoop.mkMember 3 "5551234" in
  let event : gmap string string :=
    {[ "Event" := "OriginateResponse"; "ActionID" := "a-1";
       "Response" := "Failure"; "Reason" := "3" ]} in
  let st1 := (DialLoop.dial_member "7" member e (DialLoop.mkLoopState ∅ ∅)).2 in
  let after := Correlate.originate_response_by_action_id items event 2000000 st1 in
  (event !! "Response" = Some "Failure" →
     ∃ st2 d,
       after = Some st2
       ∧ CallStore.get_call (DialLoop.active_calls st2) "7" "5551234" = Some d
       ∧ CallStore.status d = "rejected"
       ∧ CallStore.finalized_in_memory d = true
       ∧ DialLoop.pending_correlations st2 !! "5551234" = None)
  ∧ (∀ u, event !! "Response" = Some "Success" →
          event !! "Uniqueid" = Some u → u ≠ "" →
     ∃ st2 d,
       after = Some st2
       ∧ CallStore.get_call (DialLoop.active_calls st2) "7" "5551234" = Some d
       ∧ CallStore.status d = "answered"
       ∧ CallStore.uniqueid d = Some u
       ∧ CallStore.finalized_in_memory d = false
       ∧ DialLoop.pending_correlations st2 !! "5551234" = None).
Proof.
  apply (originate_response_settles_dialed_call
           (λ A (m : gmap string A), map_to_list m) "7"
           (DialLoop.mkMember 3 "5551234")
           (DialLoop.mkPass (Some "in_progress") true true "a-1" true true
              None "" 1000000)
           (DialLoop.mkLoopState ∅ ∅)).
  - intros A m. reflexivity.
  - reflexivity.
  - reflexivity.
  - reflexivity.
  - reflexivity.
  - discriminate.
  - discriminate.
  - discriminate.
  - intros c p d Hget. unfold CallStore.get_call in Hget. cbn in Hget.
    by rewrite lookup_empty in Hget.
  - reflexivity.
  - reflexivity.
Defined.

(** ** Opting out and the recipients of later campaigns *)

Section MembersFacts.
Import Dtmf Members.

Variable order_by_name : list MemberRow → list MemberRow.
Hypothesis order_perm : ∀ l, order_by_name l ≡ₚ l.

Lemma get_members_for_call_elem group_filter completed member_groups members r :
  r ∈ get_members_for_call order_by_name group_filter completed member_groups
        members
  ↔ r ∈ members
    ∧ (∀ g, group_filter = Some g → g ≠ 0 → in_group member_groups g r = true)
    ∧ (completed = false → not_opted_out r = true).
Proof.
  unfold get_members_for_call. rewrite order_perm.
  assert (∀ l, r ∈ (if completed then l else List.filter not_opted_out l)
               ↔ r ∈ l ∧ (completed = false → not_opted_out r = true)) as Hopt.
  { intros l. destruct completed.
    - split; [by intros ? | by intros [? _]].
    - rewrite list_elem_of_In, filter_In, <- list_elem_of_In.
      split; [by intros [? ?] | intros [? H]; by split; [|apply H]]. }
  rewrite Hopt. destruct group_filter as [g|].
  - destruct (g =? 0) eqn:Hg.
    + apply Z.eqb_eq in Hg. subst g. split.
      * intros [? ?]. by repeat split; [|intros ? [= <-]|].
      * intros (? & _ & ?). by split.
    + apply Z.eqb_neq in Hg.
      rewrite list_elem_of_In, filter_In, <- list_elem_of_In. split.
      * intros [[? Hin] ?]. by repeat split; [|intros ? [= <-]|].
      * intros (? & Hin & ?). split; [|done]. split; [done|]. by apply Hin.
  - split.
    + intros [? ?]. by repeat split.
    + intros (? & _ & ?). by split.
Qed.

Lemma update_flag_elem member_id members r' :
  r' ∈ update_remove_from_call_status member_id 1 members ↔
  ∃ r, r ∈ members
       ∧ r' = if id r =? member_id
              then mkMemberRow (id r) (phone_number r) (Some 1) else r.
Proof.
  unfold update_remove_from_call_status.
  rewrite list_elem_of_In, in_map_iff. split.
  - intros (r & <- & Hin). exists r. by split; [apply list_elem_of_In|].
  - intros (r & Hin & ->). exists r. by split; [|apply list_elem_of_In].
Qed.

End MembersFacts.

(** X19. An opt-out holds for the campaigns that follow. After the digit
    0 and then #, no more than 2.0 seconds apart, have been handled for a
    recipient the members table knows, with persistence working,
    get_members_for_call with the opt-out filter on returns no row of the
    member that was found for the number; when the numbers of the table
    are not shared between members it returns no row with that number;
    and the rows of every other member are returned exactly as before. *)
Theorem opted_out_member_is_left_out
    (order_by_name : list Dtmf.MemberRow → list Dtmf.MemberRow)
    (campaign phone : string) (aid0 uid0 aid1 uid1 : option string)
    (t0 t1 : Z) (w : Dtmf.World) (m : Z)
    (group_filter : option Z) (member_groups : list (Z * Z)) :
  (∀ l, order_by_name l ≡ₚ l) →
  Dtmf.buffer (Dtmf.accumulate (Dtmf.buffer_before w phone) "0" t0) = "0" →
  t1 - t0 ≤ 2 * 1000000 →
  Dtmf.select_member_id (Dtmf.members w) phone = Some m → m ≠ 0 →
  let w1 := Dtmf.handle_dtmf campaign phone "0" aid0 uid0 t0 Dtmf.DbWorks w in
  let w2 := Dtmf.handle_dtmf campaign phone "#" aid1 uid1 t1 Dtmf.DbWorks w1 in
  let recipients members :=
    Members.get_members_for_call order_by_name group_filter false member_groups
      members in
  (∀ r, r ∈ recipients (Dtmf.members w2) → Dtmf.id r ≠ m)
  ∧ ((∀ r r', r ∈ Dtmf.members w → r' ∈ Dtmf.members w →
              Dtmf.phone_number r = Dtmf.phone_number r' →
              Dtmf.id r = Dtmf.id r') →
     ∀ r, r ∈ recipients (Dtmf.members w2) → Dtmf.phone_number r ≠ phone)
  ∧ (∀ r, Dtmf.id r ≠ m →
          r ∈ recipients (Dtmf.members w2) ↔ r ∈ recipients (Dtmf.members w)).
Proof.
  intros order_perm H0 Hgap Hsel Hm w1 w2 recipients.
  destruct (zero_hash_opts_out_once campaign phone aid0 uid0 aid1 uid1 t0 t1 w m
              H0 Hgap Hsel Hm) as (_ & _ & Hmem & _).
  fold w1 w2 in Hmem. unfold recipients. rewrite Hmem.
  assert (∀ r, r ∈ Members.get_members_for_call order_by_name group_filter false
                     member_groups
                     (Dtmf.update_remove_from_call_status m 1 (Dtmf.members w)) →
               Dtmf.id r ≠ m) as Hout.
  { intros r Hr Hid.
    apply (get_members_for_call_elem order_by_name order_perm) in Hr
      as (Hin & _ & Hflag).
    specialize (Hflag eq_refl).
    pose proof (flag_written _ _ _ Hin Hid) as Hw.
    unfold Members.not_opted_out in Hflag. by rewrite Hw in Hflag. }
  split; [exact Hout|]. split.
  - intros Huniq r Hr Hphone. apply (Hout r Hr).
    apply (get_members_for_call_elem order_by_name order_perm) in Hr
      as (Hin & _ & _).
    apply update_flag_elem in Hin as (r0 & Hin0 & Hr0).
    apply select_member_id_found in Hsel as (rm & Hinm & Hidm & Hphm).
    assert (Dtmf.id r = Dtmf.id r0 ∧ Dtmf.phone_number r = Dtmf.phone_number r0)
      as [Hi Hp] by (rewrite Hr0; by destruct (Dtmf.id r0 =? m)).
    rewrite Hi, <- Hidm. apply Huniq; [done | done | congruence].
  - intros r Hid.
    rewrite !(get_members_for_call_elem order_by_name order_perm).
    assert (r ∈ Dtmf.update_remove_from_call_status m 1 (Dtmf.members w)
            ↔ r ∈ Dtmf.members w) as ->; [|done].
    rewrite update_flag_elem. split.
    + intros (r0 & Hin0 & Hr0). destruct (Dtmf.id r0 =? m) eqn:He.
      * apply Z.eqb_eq in He. subst r. by cbn in Hid.
      * by subst r.
    + intros Hin. exists r. split; [done|].
      apply Z.eqb_neq in Hid. by rewrite Hid.
Qed.

Lemma opted_out_member_is_left_out_witness :
  let w := Dtmf.mkWorld ∅ ∅
             [Dtmf.mkMemberRow 3 "5551234" (Some 0); Dtmf.mkMemberRow 4 "5555678" (Some 0)] [] in
  let w1 := Dtmf.handle_dtmf "7" "5551234" "0" None None 1000000 Dtmf.DbWorks w in
  let w2 := Dtmf.handle_dtmf "7" "5551234" "#" None None 2000000 Dtmf.DbWorks w1 in
  let recipients members :=
    Members.get_members_for_call (λ l, l) None false [] members in
  (∀ r, r ∈ recipients (Dtmf.members w2) → Dtmf.id r ≠ 3)
  ∧ ((∀ r r', r ∈ Dtmf.members w → r' ∈ Dtmf.members w →
              Dtmf.phone_number r = Dtmf.phone_number r' →
              Dtmf.id r = Dtmf.id r') →
     ∀ r, r ∈ recipients (Dtmf.members w2) → Dtmf.phone_number r ≠ "5551234")
  ∧ (∀ r, Dtmf.id r ≠ 3 →
          r ∈ recipients (Dtmf.members w2) ↔ r ∈ recipients (Dtmf.members w)).
Proof.
  apply (opted_out_member_is_left_out (λ l, l) "7" "5551234" None None None None
           1000000 2000000
           (Dtmf.mkWorld ∅ ∅
              [Dtmf.mkMemberRow 3 "5551234" (Some 0); Dtmf.mkMemberRow 4 "5555678" (Some 0)] [])
           3 None []).
  - intros l. reflexivity.
  - reflexivity.
  - lia.
  - reflexivity.
  - lia.
Defined.

(** ** Event handlers across reconnections *)

Section HandlersFacts.
Import Handlers.
Context {Handler : Type} `{EqDecision Handler}.
Implicit Types (l hs : list Handler) (r : Registry Handler).

Lemma append_new_elem h h' l : h' ∈ append_new h l ↔ h' = h ∨ h' ∈ l.
Proof.
  unfold append_new. case_bool_decide as Hin.
  - split; [by right | by intros [->|?]].
  - rewrite elem_of_app, list_elem_of_singleton. tauto.
Qed.

Lemma append_new_NoDup h l : NoDup l → NoDup (append_new h l).
Proof.
  unfold append_new. intros Hl. case_bool_decide as Hin; [done|].
  apply NoDup_app. split; [done|]. split; [|apply NoDup_singleton].
  intros x Hx ->%list_elem_of_singleton. done.
Qed.

(** Restoring a registry without repetitions into the handlers that are
    its beginning gives the registry. *)
Lemma restore_prefix l : ∀ hs,
  NoDup (hs ++ l) → restore l hs = hs ++ l.
Proof.
  induction l as [|h l IH]; intros hs Hnd; [by rewrite app_nil_r|].
  change (restore (h :: l) hs) with (restore l (append_new h hs)).
  apply NoDup_app in Hnd as Hnd'. destruct Hnd' as (_ & Hdisj & _).
  unfold append_new. rewrite bool_decide_eq_false_2.
  - rewrite IH; rewrite <- app_assoc; done.
  - intros Hin. apply (Hdisj h Hin). by left.
Qed.

Lemma restore_all_present l : ∀ hs,
  (∀ h, h ∈ l → h ∈ hs) → restore l hs = hs.
Proof.
  induction l as [|h l IH]; intros hs Hall; [done|].
  change (restore (h :: l) hs) with (restore l (append_new h hs)).
  unfold append_new. rewrite bool_decide_eq_true_2 by (apply Hall; by left).
  apply IH. intros h' Hin. apply Hall. by right.
Qed.

Lemma step_in_step r c : in_step r → in_step (step r c).
Proof.
  intros [Hnd Hinst]. destruct c as [h| |force]; cbn.
  - destruct (instance r) as [hs|] eqn:Hi; [|by split; [|rewrite Hi]].
    rewrite (Hinst hs eq_refl). split; cbn; [by apply append_new_NoDup|].
    by intros ? [= <-].
  - split; cbn; [done|]. intros hs'.
    destruct (instance r) as [hs|]; [|done]. cbn. intros [= <-].
    rewrite (Hinst hs eq_refl). by apply restore_all_present.
  - destruct (force || bool_decide (instance r = None)); [|by split].
    split; cbn; [done|]. intros ? [= <-]. by apply (restore_prefix _ []).
Qed.

Lemma run_in_step calls : ∀ r, in_step r → in_step (run calls r).
Proof.
  induction calls as [|c calls IH]; intros r Hr; [done|].
  apply IH. by apply step_in_step.
Qed.

Lemma step_keeps_registered r c h :
  h ∈ registered_handlers r → h ∈ registered_handlers (step r c).
Proof.
  intros Hin. destruct c as [h'| |force]; cbn; [|done|].
  - destruct (instance r); [|done]. cbn. apply append_new_elem. by right.
  - by destruct (force || bool_decide (instance r = None)).
Qed.

Lemma run_keeps_registered calls : ∀ r h,
  h ∈ registered_handlers r → h ∈ registered_handlers (run calls r).
Proof.
  induction calls as [|c calls IH]; intros r h Hin; [done|].
  apply IH. by apply step_keeps_registered.
Qed.

Lemma step_keeps_instance r c : is_Some (instance r) → is_Some (instance (step r c)).
Proof.
  intros [hs Hi]. destruct c as [h| |force]; cbn.
  - rewrite Hi. eauto.
  - rewrite Hi. cbn. eauto.
  - destruct (force || bool_decide (instance r = None)); cbn; eauto.
Qed.

Lemma run_keeps_instance calls : ∀ r,
  is_Some (instance r) → is_Some (instance (run calls r)).
Proof.
  induction calls as [|c calls IH]; intros r Hi; [done|].
  apply IH. by apply step_keeps_instance.
Qed.

End HandlersFacts.

(** X20. Handlers survive reconnections, each once. After any sequence
    of add_event_handler, _restore_handlers and get_instance calls from the
    state at module load, the handlers of the current client instance are
    exactly the globally registered ones, in the order of registration and
    without repetition (so an event is dispatched once to each); and a
    handler added to an instance at any point is among the handlers of
    every later instance, replaced or not. *)
Theorem handlers_survive_reconnection {Handler : Type} `{EqDecision Handler}
    (calls : list (Handlers.call Handler)) :
  let r := Handlers.run calls Handlers.initial in
  NoDup (Handlers.registered_handlers r)
  ∧ (∀ hs, Handlers.instance r = Some hs → hs = Handlers.registered_handlers r)
  ∧ (∀ before after handler,
       calls = before ++ Handlers.AddEventHandler handler :: after →
       is_Some (Handlers.instance (Handlers.run before Handlers.initial)) →
       ∃ hs, Handlers.instance r = Some hs ∧ handler ∈ hs).
Proof.
  intros r.
  assert (Handlers.in_step (Handlers.initial (Handler := Handler))) as Hinit.
  { split; [apply NoDup_nil_2 | done]. }
  destruct (run_in_step calls _ Hinit) as [Hnd Hinst].
  split; [exact Hnd|]. split; [exact Hinst|].
  intros before after handler -> Hsome. subst r.
  unfold Handlers.run in *. rewrite fold_left_app in *. cbn [fold_left] in *.
  set (r1 := fold_left Handlers.step before Handlers.initial) in *.
  assert (handler ∈ Handlers.registered_handlers
                      (Handlers.step r1 (Handlers.AddEventHandler handler)))
    as Hreg.
  { cbn. destruct Hsome as [hs ->]. cbn. apply append_new_elem. by left. }
  pose proof (run_keeps_registered after _ _ Hreg) as Hreg'.
  destruct (run_keeps_instance after _
              (step_keeps_instance r1 (Handlers.AddEventHandler handler) Hsome))
    as [hs Hhs].
  exists hs. split; [exact Hhs|].
  unfold Handlers.run in *. by rewrite (Hinst hs Hhs).
Qed.

Lemma handlers_survive_reconnection_witness :
  let calls := [Handlers.GetInstance true; Handlers.AddEventHandler 1%nat;
                Handlers.GetInstance true] in
  ∃ hs, Handlers.instance (Handlers.run calls Handlers.initial) = Some hs
        ∧ 1%nat ∈ hs.
Proof.
  destruct (handlers_survive_reconnection
              [Handlers.GetInstance true; Handlers.AddEventHandler 1%nat;
               Handlers.GetInstance true]) as (_ & _ & Hlater).
  apply (Hlater [Handlers.GetInstance true] [Handlers.GetInstance true] 1%nat).
  - reflexivity.
  - by eexists.
Defined.

(** ** The debug logs *)

Section DebugLogFacts.
Import Py DebugLog.

Lemma keep_last_drop {A} n (l : list A) :
  keep_last n l = drop (List.length l - n) l.
Proof.
  unfold keep_last. destruct (n <? List.length l)%nat eqn:Hn; [done|].
  apply Nat.ltb_ge in Hn. by replace (List.length l - n)%nat with 0%nat by lia.
Qed.

Lemma keep_last_length {A} n (l : list A) : (List.length (keep_last n l) ≤ n)%nat.
Proof. rewrite keep_last_drop, length_drop. lia. Qed.

(** Trimming early does not change what is left after a later trim. *)
Lemma keep_last_app {A} n (l more : list A) :
  keep_last n (keep_last n l ++ more) = keep_last n (l ++ more).
Proof.
  rewrite !keep_last_drop, !length_app, length_drop.
  destruct (decide (List.length l ≤ n)%nat) as [Hle|Hgt].
  - replace (List.length l - n)%nat with 0%nat by lia.
    by rewrite Nat.sub_0_r.
  - replace (List.length l - (List.length l - n) + List.length more - n)%nat
      with (List.length more) by lia.
    replace (List.length l + List.length more - n)%nat
      with ((List.length l - n) + List.length more)%nat by lia.
    rewrite <- drop_drop. f_equal.
    rewrite drop_app_le by lia. done.
Qed.

Lemma log_ami_debug_all entries : ∀ log,
  fold_left (λ l e, log_ami_debug e l) entries (keep_last 100 log)
  = keep_last 100 (log ++ entries) ∨ entries = [].
Proof.
  induction entries as [|e entries IH]; intros log; [by right|]. left.
  cbn [fold_left]. unfold log_ami_debug at 2. rewrite keep_last_app.
  destruct (IH (log ++ [e])) as [->| ->].
  - by rewrite <- app_assoc.
  - done.
Qed.

Lemma contains_underscore_cons a s :
  contains "_" (String a s) = Ascii.eqb "_" a || contains "_" s.
Proof.
  rewrite contains_cons. cbn [starts_with].
  destruct (Ascii.eqb "_" a); [|done]. by destruct s.
Qed.

(** The key tells the pairs apart when the campaign ids hold no
    underscore. *)
Lemma key_inj c : ∀ c' p p',
  contains "_" c = false → contains "_" c' = false →
  key c p = key c' p' → c = c' ∧ p = p'.
Proof.
  unfold key. induction c as [|a c IH]; intros c' p p' Hc Hc' Hk.
  - destruct c' as [|a' c']; cbn in Hk.
    + injection Hk as Hp. by subst.
    + injection Hk as Ha _. subst a'. rewrite contains_underscore_cons in Hc'.
      by rewrite Ascii.eqb_refl in Hc'.
  - destruct c' as [|a' c']; cbn in Hk.
    + injection Hk as Ha _. subst a. rewrite contains_underscore_cons in Hc.
      by rewrite Ascii.eqb_refl in Hc.
    + injection Hk as Ha Hk. subst a'.
      rewrite contains_underscore_cons in Hc, Hc'.
      apply orb_false_iff in Hc as [_ Hc]. apply orb_false_iff in Hc' as [_ Hc'].
      destruct (IH c' p p' Hc Hc' Hk) as [-> ->]. done.
Qed.

Lemma logged_under_cons k c p e calls :
  logged_under k ((c, p, e) :: calls)
  = if String.eqb (key c p) k then e :: logged_under k calls
    else logged_under k calls.
Proof. unfold logged_under. cbn. by destruct (String.eqb (key c p) k). Qed.

Lemma log_all_cons c p e calls t :
  log_all ((c, p, e) :: calls) t = log_all calls (debug_log_call_state c p e t).
Proof. done. Qed.

(** The history under a key after a sequence of calls. *)
Lemma log_all_history calls k : ∀ t,
  (default [] (log_all calls t !! k)
   = keep_last 50 (default [] (t !! k) ++ logged_under k calls))
  ∨ (logged_under k calls = [] ∧ log_all calls t !! k = t !! k).
Proof.
  induction calls as [|[[c p] e] calls IH]; intros t; [by right|].
  rewrite log_all_cons, logged_under_cons.
  destruct (String.eqb (key c p) k) eqn:Hk.
  - apply String.eqb_eq in Hk. left.
    destruct (IH (debug_log_call_state c p e t)) as [H|[H1 H2]].
    + rewrite H. unfold debug_log_call_state. rewrite Hk, lookup_insert_eq.
      cbn [default from_option id].
      rewrite keep_last_app, <- app_assoc. done.
    + rewrite H1, H2. unfold debug_log_call_state.
      rewrite Hk, lookup_insert_eq. done.
  - apply String.eqb_neq in Hk.
    destruct (IH (debug_log_call_state c p e t)) as [H|[H1 H2]].
    + left. rewrite H. unfold debug_log_call_state.
      by rewrite lookup_insert_ne.
    + right. split; [done|]. rewrite H2. unfold debug_log_call_state.
      by rewrite lookup_insert_ne.
Qed.

End DebugLogFacts.

(** X21. The connection debug log holds the last 100 entries: after any
    number of log_ami_debug calls on a log of at most 100 entries, the log
    is what was there followed by the new entries, cut down to its last
    100. *)
Theorem ami_debug_log_keeps_last_100 (entries log : list DebugLog.Entry) :
  (List.length log ≤ 100)%nat →
  fold_left (λ l e, DebugLog.log_ami_debug e l) entries log
  = drop (List.length (log ++ entries) - 100) (log ++ entries).
Proof.
  intros Hlen.
  assert (DebugLog.keep_last 100 log = log) as Hlog.
  { rewrite keep_last_drop. by replace (List.length log - 100)%nat with 0%nat by lia. }
  rewrite <- keep_last_drop.
  destruct (log_ami_debug_all entries log) as [H| ->].
  - by rewrite Hlog in H.
  - by rewrite app_nil_r.
Qed.

Lemma ami_debug_log_keeps_last_100_witness :
  let e n := DebugLog.mkEntry n "CONNECT_ATTEMPT" "" in
  fold_left (λ l e, DebugLog.log_ami_debug e l) [e 2; e 3] [e 1]
  = drop (List.length ([e 1] ++ [e 2; e 3]) - 100) ([e 1] ++ [e 2; e 3]).
Proof.
  apply (ami_debug_log_keeps_last_100
           [DebugLog.mkEntry 2 "CONNECT_ATTEMPT" "";
            DebugLog.mkEntry 3 "CONNECT_ATTEMPT" ""]
           [DebugLog.mkEntry 1 "CONNECT_ATTEMPT" ""]).
  cbn. lia.
Defined.

(** X22. The debug history of a call is the last 50 entries logged under
    its key, the campaign id and the number joined by an underscore. The
    key tells two pairs apart when their campaign ids hold no underscore,
    so the history of such a call holds the entries logged for that call
    and no others. *)
Theorem call_debug_history_keeps_last_50
    (calls : list (string * string * DebugLog.Entry)) (campaign phone : string) :
  let under_key := DebugLog.logged_under (DebugLog.key campaign phone) calls in
  DebugLog.get_call_debug_history campaign phone (DebugLog.log_all calls ∅)
  = drop (List.length under_key - 50) under_key
  ∧ (∀ campaign' phone',
       Py.contains "_" campaign = false → Py.contains "_" campaign' = false →
       DebugLog.key campaign' phone' = DebugLog.key campaign phone →
       campaign' = campaign ∧ phone' = phone).
Proof.
  intros under_key. split.
  - unfold DebugLog.get_call_debug_history. rewrite <- keep_last_drop.
    destruct (log_all_history calls (DebugLog.key campaign phone) ∅)
      as [->|[Hnone ->]].
    + by rewrite lookup_empty.
    + unfold under_key. by rewrite Hnone, lookup_empty.
  - intros c' p' Hc Hc' Hk. by apply (key_inj c' campaign p' phone).
Qed.

(** The key does not tell apart two pairs when an underscore can be read
    as part of the campaign id or of the number. *)
Example call_debug_key_collision :
  DebugLog.key "1_2" "3" = DebugLog.key "1" "2_3".
Proof. reflexivity. Qed.

(** ** The wire format *)

Section WireFacts.
Import Py Wire.

Lemma skip_append a b : skip (String.length a) (a +:+ b) = b.
Proof.
  induction a as [|x a IH]; [by destruct b|]. rewrite append_cons. exact IH.
Qed.

(** What [split_once] returns is a decomposition of the text. *)
Lemma split_once_eq sep : ∀ s before after,
  split_once sep s = Some (before, after) → s = before +:+ sep +:+ after.
Proof.
  induction s as [|c s IH]; intros before after; cbn [split_once].
  - destruct sep as [|x sep]; [|done]. by intros [= <- <-].
  - destruct (starts_with sep (String c s)) eqn:Hs.
    + intros [= <- <-]. apply starts_with_spec in Hs as [suf Hs].
      rewrite Hs. by rewrite skip_append.
    + destruct (split_once sep s) as [[b a]|]; [|done]. intros [= <- <-].
      rewrite append_cons. f_equal. by apply IH.
Qed.

Lemma split_once_length sep s before after :
  split_once sep s = Some (before, after) →
  String.length s
  = (String.length before + String.length sep + String.length after)%nat.
Proof.
  intros H. apply split_once_eq in H. subst s.
  rewrite !append_length. lia.
Qed.



Lemma contains_split_once sep : ∀ s,
  contains sep s = true ↔ is_Some (split_once sep s).
Proof.
  induction s as [|c s IH].
  - rewrite contains_nil. cbn [split_once].
    destruct (starts_with sep "").
    + split; eauto.
    + split; [done|]. by intros [? ?].
  - rewrite contains_cons. cbn [split_once].
    destruct (starts_with sep (String c s)); cbn [orb].
    + split; eauto.
    + rewrite IH. destruct (split_once sep s) as [[b a]|].
      * split; eauto.
      * split; by intros [? ?].
Qed.

Lemma CRLF2_length : String.length CRLF2 = 4%nat.
Proof. reflexivity. Qed.


(** More fuel than the length of the buffer changes nothing. *)
Lemma drain_fuel f1 : ∀ f2 buffer,
  (String.length buffer ≤ f1)%nat → (String.length buffer ≤ f2)%nat →
  drain f1 buffer = drain f2 buffer.
Proof.
  induction f1 as [|f1 IH]; intros f2 buffer H1 H2.
  - destruct buffer; [|cbn in H1; lia]. by destruct f2.
  - destruct f2 as [|f2].
    { destruct buffer; [done | cbn in H2; lia]. }
    cbn [drain]. destruct (contains CRLF2 buffer); [|done].
    destruct (split_once CRLF2 buffer) as [[b a]|] eqn:Hs; [|done].
    apply split_once_length in Hs. rewrite CRLF2_length in Hs.
    rewrite (IH f2 a) by lia. done.
Qed.

Lemma drain_all_unfold buffer :
  drain_all buffer
  = match split_once CRLF2 buffer with
    | Some (event_text, buffer') =>
        (event_text :: (drain_all buffer').1, (drain_all buffer').2)
    | None => ([], buffer)
    end.
Proof.
  unfold drain_all. destruct (split_once CRLF2 buffer) as [[b a]|] eqn:Hs.
  - pose proof (split_once_length _ _ _ _ Hs) as Hlen.
    rewrite CRLF2_length in Hlen.
    destruct (String.length buffer) as [|n] eqn:Hn; [lia|].
    cbn [drain]. rewrite Hs.
    rewrite (proj2 (contains_split_once CRLF2 buffer)) by (rewrite Hs; eauto).
    rewrite (drain_fuel n (String.length a)) by lia.
    by destruct (drain (String.length a) a).
  - destruct (String.length buffer); cbn [drain];
      destruct (contains CRLF2 buffer) eqn:Hc; try done;
      apply contains_split_once in Hc as [? Hc]; congruence.
Qed.





End WireFacts.



Section RoundTrip.
Import Py Wire.

Lemma lacks_append c a b : lacks c (a +:+ b) = lacks c a && lacks c b.
Proof.
  induction a as [|x a IH]; [done|]. rewrite append_cons. cbn [lacks].
  by rewrite IH, andb_assoc.
Qed.

(** A separator whose first character the text before it lacks is found
    right after that text. *)
Lemma split_once_first c sep' : ∀ a t,
  lacks c a = true →
  split_once (String c sep') (a +:+ String c sep' +:+ t) = Some (a, t).
Proof.
  induction a as [|x a IH]; intros t Ha.
  - rewrite append_nil_l. 
    assert (starts_with (String c sep') (String c sep' +:+ t) = true) as Hs
      by (apply starts_with_spec; by exists t).
    rewrite append_cons in *. cbn [split_once]. rewrite Hs.
    rewrite <- append_cons. by rewrite skip_append.
  - cbn [lacks] in Ha. apply andb_true_iff in Ha as [Hx Ha].
    rewrite append_cons. cbn [split_once starts_with].
    apply negb_true_iff in Hx. rewrite Hx. by rewrite (IH t Ha).
Qed.

Lemma split_once_lacks c sep' : ∀ a,
  lacks c a = true → split_once (String c sep') a = None.
Proof.
  induction a as [|x a IH]; intros Ha; [done|].
  cbn [lacks] in Ha. apply andb_true_iff in Ha as [Hx Ha].
  cbn [split_once starts_with]. apply negb_true_iff in Hx. rewrite Hx.
  by rewrite (IH Ha).
Qed.

(** A line end followed by text that does not begin a line end is not
    the blank line. *)
Lemma split_once_past_line : ∀ line x rest before after,
  lacks CR line = true → Ascii.eqb CR x = false →
  split_once CRLF2 (String x rest) = Some (before, after) →
  split_once CRLF2 (line +:+ CRLF +:+ String x rest)
  = Some (line +:+ CRLF +:+ before, after).
Proof.
  induction line as [|y line IH]; intros x rest before after Hl Hx Hs.
  - rewrite !append_nil_l.
    change (CRLF +:+ String x rest) with (String CR (String LF (String x rest))).
    change (CRLF +:+ before) with (String CR (String LF before)).
    change CRLF2 with (String CR (String LF (String CR (String LF "")))) in *.
    cbn [split_once starts_with] in *. rewrite Hx in *.
    rewrite !Ascii.eqb_refl. cbn [andb].
    change (Ascii.eqb CR LF) with false. cbn iota.
    by rewrite Hs.
  - cbn [lacks] in Hl. apply andb_true_iff in Hl as [Hy Hl].
    apply negb_true_iff in Hy.
    rewrite !append_cons.
    change CRLF2 with (String CR (String LF (String CR (String LF "")))) in *.
    cbn [split_once starts_with]. rewrite Hy.
    by rewrite (IH x rest before after Hl Hx Hs).
Qed.

Lemma plain_head line t :
  plain line → ∃ x rest, line +:+ t = String x rest ∧ Ascii.eqb CR x = false.
Proof.
  intros [Hne Hl]. destruct line as [|x line]; [done|].
  exists x, (line +:+ t). split; [done|].
  cbn [lacks] in Hl. apply andb_true_iff in Hl as [Hx _].
  by apply negb_true_iff in Hx.
Qed.

Lemma concat_cons2 sep (a b : string) l :
  String.concat sep (a :: b :: l) = a +:+ sep +:+ String.concat sep (b :: l).
Proof. reflexivity. Qed.

(** The blank line after plain lines is the first one of the text. *)
Lemma split_once_block lines : ∀ t,
  lines ≠ [] → Forall plain lines →
  split_once CRLF2 (String.concat CRLF lines +:+ CRLF2 +:+ t)
  = Some (String.concat CRLF lines, t).
Proof.
  induction lines as [|line lines IH]; intros t Hne Hall; [done|].
  apply Forall_cons in Hall as [[Hn Hl] Hall].
  destruct lines as [|line2 lines].
  - cbn [String.concat]. by apply (split_once_first CR).
  - rewrite concat_cons2, !append_assoc.
    specialize (IH t ltac:(done) Hall).
    apply Forall_cons in Hall as [Hp2 _].
    assert (∃ x rest,
              String.concat CRLF (line2 :: lines) +:+ CRLF2 +:+ t = String x rest
              ∧ Ascii.eqb CR x = false) as (x & rest & Hx & Hcr).
    { destruct lines as [|line3 lines].
      - cbn [String.concat]. by apply plain_head.
      - rewrite concat_cons2, append_assoc. by apply plain_head. }
    rewrite Hx in *. by apply split_once_past_line.
Qed.

Lemma split_fuel_lines lines : ∀ fuel,
  lines ≠ [] → Forall (λ line, lacks CR line = true) lines →
  (List.length lines ≤ fuel)%nat →
  split_fuel fuel CRLF (String.concat CRLF lines) = lines.
Proof.
  induction lines as [|line lines IH]; intros fuel Hne Hall Hlen; [done|].
  apply Forall_cons in Hall as [Hl Hall].
  destruct lines as [|line2 lines].
  - cbn [String.concat]. destruct fuel as [|fuel]; [done|].
    cbn [split_fuel]. change CRLF with (String CR (String LF "")).
    by rewrite (split_once_lacks CR _ _ Hl).
  - rewrite concat_cons2. destruct fuel as [|fuel]; [cbn in Hlen; lia|].
    cbn [split_fuel]. change CRLF with (String CR (String LF "")) at 1.
    change CRLF with (String CR (String LF "")) at 1.
    rewrite (split_once_first CR _ _ _ Hl).
    change (String CR (String LF "")) with CRLF.
    f_equal. apply IH; [done | done | cbn in *; lia].
Qed.

Lemma length_concat_plain lines :
  Forall plain lines →
  (List.length lines ≤ String.length (String.concat CRLF lines))%nat.
Proof.
  induction lines as [|line lines IH]; intros Hall; [done|].
  apply Forall_cons in Hall as [[Hn _] Hall]. specialize (IH Hall).
  assert (1 ≤ String.length line)%nat by (destruct line; [done | cbn; lia]).
  destruct lines as [|line2 lines]; [cbn in *; lia|].
  rewrite concat_cons2, !append_length. cbn [List.length] in *. lia.
Qed.

Lemma split_lines lines :
  lines ≠ [] → Forall plain lines →
  split CRLF (String.concat CRLF lines) = lines.
Proof.
  intros Hne Hall. unfold split. apply split_fuel_lines; [done | |].
  - eapply Forall_impl; [exact Hall|]. by intros ? [_ ?].
  - by apply length_concat_plain.
Qed.

(** A line [key: value] whose key holds no colon goes into the
    dictionary under that key. *)
Lemma parse_line_pair event key value :
  lacks ":" key = true →
  parse_line event (key +:+ ": " +:+ value) = <[key := value]> event.
Proof.
  intros Hk. unfold parse_line.
  assert (contains ": " (key +:+ ": " +:+ value) = true) as ->
    by (apply contains_spec; by exists key, value).
  rewrite (split_once_first ":" " " key value Hk).
  assert (String.eqb (key +:+ ": " +:+ value) "" = false) as ->; [|done].
  apply String.eqb_neq. destruct key; discriminate.
Qed.

Lemma parse_lines_pairs pairs : ∀ event,
  Forall (λ kv : string * string, lacks ":" kv.1 = true) pairs →
  fold_left parse_line
    ((λ kv : string * string, kv.1 +:+ ": " +:+ kv.2) <$> pairs) event
  = fold_left (λ ev (kv : string * string), <[kv.1 := kv.2]> ev) pairs event.
Proof.
  induction pairs as [|[k v] pairs IH]; intros event Hall; [done|].
  apply Forall_cons in Hall as [Hk Hall]. cbn [fmap list_fmap fold_left fst snd].
  rewrite parse_line_pair by done. by apply IH.
Qed.

Lemma fold_insert_list_to_map (pairs : list (string * string)) :
  ∀ event : gmap string string,
    NoDup pairs.*1 →
    (∀ k, k ∈ pairs.*1 → event !! k = None) →
    fold_left (λ ev (kv : string * string), <[kv.1 := kv.2]> ev) pairs event
    = list_to_map pairs ∪ event.
Proof.
  induction pairs as [|[k v] pairs IH]; intros event Hnd Hfresh.
  - cbn. by rewrite (left_id_L ∅ (∪)).
  - cbn [fmap list_fmap fst] in Hnd. apply NoDup_cons in Hnd as [Hk Hnd].
    cbn [fold_left fst snd list_to_map foldr uncurry].
    rewrite IH; [|done|].
    + rewrite <- insert_union_l. symmetry. apply insert_union_r.
      by apply not_elem_of_list_to_map.
    + intros k' Hk'. rewrite lookup_insert_ne.
      * apply Hfresh. by right.
      * intros ->. done.
Qed.

Lemma action_str_lines action params :
  action_str action params
  = String.concat CRLF (action_lines action params) +:+ CRLF2.
Proof.
  unfold action_str, action_lines.
  assert (∀ acc line,
            fold_left (λ s (kv : string * string),
                         s +:+ kv.1 +:+ ": " +:+ kv.2 +:+ CRLF) params
              (acc +:+ line +:+ CRLF)
            = acc +:+ String.concat CRLF
                        (line :: ((λ kv : string * string,
                                     kv.1 +:+ ": " +:+ kv.2) <$> params))
              +:+ CRLF) as Hgen.
  { induction params as [|[k v] params IH]; intros acc line; [done|].
    cbn [fold_left fmap list_fmap fst snd].
    change (list_fmap _ _ ?f params) with (f <$> params).
    rewrite concat_cons2.
    specialize (IH (acc +:+ line +:+ CRLF) (k +:+ ": " +:+ v)).
    rewrite !append_assoc in *. exact IH. }
  specialize (Hgen "" ("Action: " +:+ action)).
  rewrite !append_nil_l in Hgen.
  rewrite (append_assoc "Action: " action CRLF) in Hgen. rewrite Hgen.
  unfold CRLF2. by rewrite !append_assoc.
Qed.

End RoundTrip.

(** X24. The text send_action writes is read back by the listener as the
    action and its parameters. For an action and parameter values without
    carriage return, and parameter names without carriage return or colon,
    distinct and other than Action, the listener takes exactly one block
    off the text, leaves nothing in its buffer, and the dictionary it builds
    from the block maps Action to the action and every parameter name to
    its value. *)
Theorem action_text_parses_back (action : string)
    (params : list (string * string)) :
  Wire.lacks Wire.CR action = true →
  Forall (λ kv : string * string,
            Wire.lacks Wire.CR kv.1 = true ∧ Wire.lacks ":" kv.1 = true
            ∧ Wire.lacks Wire.CR kv.2 = true) params →
  NoDup params.*1 → "Action" ∉ params.*1 →
  ∃ event_text,
    Wire.listen [Wire.action_str action params] "" = ([event_text], "")
    ∧ Wire.parse_block event_text = list_to_map (("Action", action) :: params).
Proof.
  intros Ha Hparams Hnd Hact.
  assert (Forall Wire.plain (Wire.action_lines action params)) as Hplain.
  { unfold Wire.action_lines. apply Forall_cons. split.
    - split; [discriminate|]. rewrite lacks_append, Ha. reflexivity.
    - apply Forall_fmap. eapply Forall_impl; [exact Hparams|].
      intros [k v] (Hk & _ & Hv). unfold Wire.plain, compose.
      cbn [fst snd] in *. split.
      + destruct k; discriminate.
      + rewrite !lacks_append, Hk, Hv. reflexivity. }
  exists (String.concat Wire.CRLF (Wire.action_lines action params)). split.
  - rewrite action_str_lines. cbn [Wire.listen].
    assert (String.eqb (String.concat Wire.CRLF (Wire.action_lines action params)
                        +:+ Wire.CRLF2) "" = false) as ->.
    { apply String.eqb_neq. intros H. apply (f_equal String.length) in H.
      rewrite append_length, CRLF2_length in H. cbn [String.length] in H. lia. }
    rewrite append_nil_l, drain_all_unfold.
    rewrite <- (append_nil_r Wire.CRLF2).
    rewrite (split_once_block _ "") by done.
    reflexivity.
  - unfold Wire.parse_block. rewrite split_lines by done.
    unfold Wire.action_lines. cbn [fold_left].
    change ("Action: " +:+ action) with ("Action" +:+ ": " +:+ action).
    rewrite parse_line_pair by reflexivity.
    rewrite parse_lines_pairs.
    2:{ eapply Forall_impl; [exact Hparams|]. by intros [k v] (_ & Hk & _). }
    rewrite fold_insert_list_to_map.
    + cbn [list_to_map foldr uncurry].
      rewrite <- insert_union_r by (by apply not_elem_of_list_to_map).
      by rewrite (right_id_L ∅ (∪)).
    + done.
    + intros k Hk. rewrite lookup_insert_ne; [apply lookup_empty|].
      intros <-. done.
Qed.

Lemma action_text_parses_back_witness :
  ∃ event_text,
    Wire.listen [Wire.action_str "Originate"
                   [("Channel", "Local/5551234@from-internal");
                    ("ActionID", "a-1")]] ""
    = ([event_text], "")
    ∧ Wire.parse_block event_text
      = list_to_map [("Action", "Originate");
                     ("Channel", "Local/5551234@from-internal");
                     ("ActionID", "a-1")].
Proof.
  apply (action_text_parses_back "Originate"
           [("Channel", "Local/5551234@from-internal"); ("ActionID", "a-1")]).
  - reflexivity.
  - repeat constructor.
  - cbn. apply NoDup_cons. split; [|apply NoDup_singleton].
    intros H%list_elem_of_singleton. discriminate.
  - cbn. intros H. apply elem_of_cons in H as [H|H]; [discriminate|].
    apply list_elem_of_singleton in H. discriminate.
Defined.

(** ** Resolving the recipient and the campaign of an event *)

Section ResolveFacts.
Import Py CallStore DialLoop Resolve.


Lemma phone_from_channel_local phone suffix :
  Wire.lacks "@" phone = true →
  phone_from_channel ("Local/" +:+ phone +:+ "@" +:+ suffix) = phone.
Proof.
  intros Hp. unfold phone_from_channel.
  assert (Wire.split_once "Local/" ("Local/" +:+ phone +:+ "@" +:+ suffix)
          = Some ("", phone +:+ "@" +:+ suffix)) as ->.
  { apply (split_once_first "L" "ocal/" "" (phone +:+ "@" +:+ suffix)).
    reflexivity. }
  by rewrite (split_once_first "@" "" phone suffix Hp).
Qed.

End ResolveFacts.

(** X25. The number the dial loop puts into the channel of its
    origination is read back from the events of that channel. Whatever
    test [str.isdigit] makes: for an event whose CallerIDNum,
    ConnectedLineNum and Exten are absent or fail that test, and whose
    channel is Local/, the number, @ and anything, step 4 of the handler
    finds that number, provided the number holds no @. When one of the
    three fields passes the test, the first of them that does is taken
    instead. *)
Theorem channel_number_round_trip (isdigit : string → bool)
    (event : gmap string string) (phone suffix : string) :
  Wire.lacks "@" phone = true →
  event !! "Channel" = Some ("Local/" +:+ phone +:+ "@" +:+ suffix) →
  Resolve.phone_from_event isdigit event
  = if Resolve.digits_under isdigit event "CallerIDNum"
    then event !! "CallerIDNum"
    else if Resolve.digits_under isdigit event "ConnectedLineNum"
    then event !! "ConnectedLineNum"
    else if Resolve.digits_under isdigit event "Exten"
    then event !! "Exten"
    else Some phone.
Proof.
  intros Hp Hch. unfold Resolve.phone_from_event.
  destruct (Resolve.digits_under isdigit event "CallerIDNum"); [done|].
  destruct (Resolve.digits_under isdigit event "ConnectedLineNum"); [done|].
  destruct (Resolve.digits_under isdigit event "Exten"); [done|].
  rewrite Hch.
  assert (Py.contains "Local/" ("Local/" +:+ phone +:+ "@" +:+ suffix) = true)
    as -> by (apply contains_spec; by exists "", (phone +:+ "@" +:+ suffix)).
  by rewrite phone_from_channel_local.
Qed.

Lemma channel_number_round_trip_witness :
  let event : gmap string string :=
    {[ "Event" := "Newstate"; "CallerIDNum" := "<unknown>";
       "Channel" := "Local/5551234@from-internal-00000003;1" ]} in
  Resolve.phone_from_event Resolve.ascii_isdigit event
  = if Resolve.digits_under Resolve.ascii_isdigit event "CallerIDNum"
    then event !! "CallerIDNum"
    else if Resolve.digits_under Resolve.ascii_isdigit event "ConnectedLineNum"
    then event !! "ConnectedLineNum"
    else if Resolve.digits_under Resolve.ascii_isdigit event "Exten"
    then event !! "Exten"
    else Some "5551234".
Proof.
  apply (channel_number_round_trip Resolve.ascii_isdigit
           {[ "Event" := "Newstate"; "CallerIDNum" := "<unknown>";
              "Channel" := "Local/5551234@from-internal-00000003;1" ]}
           "5551234" "from-internal-00000003;1");
    reflexivity.
Defined.

(** In that event no field passes the test, and the number of the channel
    is what step 4 finds. *)
Example channel_number_is_found :
  Resolve.phone_from_event Resolve.ascii_isdigit
    {[ "Event" := "Newstate"; "CallerIDNum" := "<unknown>";
       "Channel" := "Local/5551234@from-internal-00000003;1" ]}
  = Some "5551234".
Proof. reflexivity. Qed.

(** A CallerIDNum of digits wins over the channel, whatever the channel
    says. *)
Example caller_id_wins_over_channel :
  Resolve.phone_from_event Resolve.ascii_isdigit
    {[ "Event" := "Newstate"; "CallerIDNum" := "5550000";
       "Channel" := "Local/5551234@from-internal-00000003;1" ]}
  = Some "5550000".
Proof. reflexivity. Qed.



(** ** Sending an action *)

Section ClientFacts.
Import Py Ami Client.

Variable decode : string → string.
Variable reads : nat.
Variable peer_at : Z → Z → Peer.
Variable on_action : Z → send_answer.

Lemma unbounded_wait_call evs :
  existsb unbounded_call evs = false → existsb unbounded_wait evs = false.
Proof.
  induction evs as [|ev evs IH]; [done|]. cbn [existsb].
  intros [Hev Hevs]%orb_false_iff. rewrite (IH Hevs), orb_false_r.
  destruct ev as [t|t|t|t| |]; try done.
Qed.

(** [ensure_connected], whatever the peer does. *)
Lemma ensure_connected_spec round st :
  ∃ r st' evs,
    ensure_connected decode reads peer_at round st = (r, st')
    ∧ log st' = log st ++ evs
    ∧ (connects evs ≤ 3)%nat
    ∧ existsb unbounded_wait evs = false
    ∧ match r with
      | Val ok => connected st' = ok
      | Unfinished =>
          ∃ attempt, 0 ≤ attempt < 3
                     ∧ keeps_reading decode reads (peer_at round attempt) = true
      | _ => False
      end.
Proof.
  unfold ensure_connected, mbind, M_bind, get_state.
  destruct (connected st) eqn:Hc.
  { exists (Val true), st, []. rewrite app_nil_r.
    split; [done|]. split; [done|]. split; [cbn; lia|]. by split. }
  destruct (connect_spec decode reads (peer_at round) 3 1 st Hc)
    as (r & st' & evs & k & E & Hlog & Hub & _ & _ & Hr).
  exists r, st', evs. split; [exact E|]. split; [exact Hlog|].
  assert (Z.to_nat 3 = 3%nat) as H3 by reflexivity. rewrite H3 in Hr.
  destruct r as [[]|e| |].
  - destruct Hr as (Hk & _ & Hc' & Hcn & _).
    split; [lia|]. split; [by apply unbounded_wait_call|]. done.
  - destruct Hr as (Hk & Hc' & Hcn & _).
    split; [lia|]. split; [by apply unbounded_wait_call|]. done.
  - destruct Hr as (Hk & Hst & _). exfalso.
    rewrite (delays_sleep_through 3 1 k) in Hst; [done | lia | | lia].
    intros i Hi. assert (i = 0 ∨ i = 1) as [-> | ->] by lia;
      vm_compute; discriminate.
  - done.
  - destruct Hr as (Hk & Hkeep & _ & Hcn & _).
    split; [lia|]. split; [by apply unbounded_wait_call|].
    exists (Z.of_nat k). split; [lia | done].
Qed.

(** How one round ends, whatever the peer does. *)
Lemma round_spec round st :
  ∃ r st' evs,
    try_except (round_body decode reads peer_at on_action round)
      (on_round_error round) st = (r, st')
    ∧ log st' = log st ++ evs
    ∧ (connects evs ≤ 3)%nat
    ∧ existsb unbounded_wait evs = false
    ∧ match r with
      | Val (Some true) =>
          connected st' = true ∧ on_action round = Takes
          ∧ ∃ t, last evs = Some (EvSend t)
      | Val (Some false) => round = 2
      | Val None => True
      | Exc _ => False
      | Blocked => on_action round = Stalls ∧ last evs = Some (EvSend None)
      | Unfinished =>
          ∃ attempt, 0 ≤ attempt < 3
                     ∧ keeps_reading decode reads (peer_at round attempt) = true
      end.
Proof.
  assert (∀ st0 : State,
            ∃ r, round_end round st0 = (Val r, st0)
                 ∧ r ≠ Some true ∧ (r = Some false → round = 2)) as Hend.
  { intros st0. unfold round_end, max_retries.
    destruct (round =? 3 - 1) eqn:Hr.
    - exists (Some false). apply Z.eqb_eq in Hr.
      split; [done|]. split; [done|]. intros _. lia.
    - exists None. split; [done|]. split; done. }
  destruct (ensure_connected_spec round st)
    as (ok & st1 & evs1 & E1 & Hlog1 & Hcn1 & Hub1 & Hok).
  unfold try_except, round_body, mbind, M_bind. rewrite E1.
  destruct ok as [[]|e| |]; [| |done|done|].
  - unfold sendall, mbind, M_bind, get_state.
    destruct st1 as [c [s|] l ans tk lg]; cbn [socket connected log] in *.
    + unfold emit, raise, mret, M_ret, current_timeout. cbn.
      destruct (on_action round) eqn:Hacc; cbn.
      * eexists _, _, (evs1 ++ [EvSend (sock_timeout s)]).
        split; [reflexivity|]. cbn [log].
        rewrite Hlog1, app_assoc, existsb_app, Hub1, connects_app.
        split; [done|]. split; [cbn; lia|]. split; [done|].
        split; [done|]. split; [done|]. eexists. apply last_snoc.
      * unfold on_round_error, set_connected, disconnect, emit, set_socket,
          mbind, M_bind, mret, M_ret, get_state. cbn.
        match goal with
        | |- context [round_end round ?st0] =>
            destruct (Hend st0) as (r & -> & Hr1 & Hr2)
        end.
        exists (Val r). eexists _, (evs1 ++ [EvSend (sock_timeout s); EvClose]).
        split; [reflexivity|]. cbn [log].
        rewrite Hlog1, <- !app_assoc, existsb_app, Hub1, connects_app.
        split; [done|]. split; [cbn; lia|]. split; [done|].
        destruct r as [[]|]; [done | by apply Hr2 | done].
      * destruct (sock_timeout s) as [t|] eqn:Hts; cbn.
        -- unfold on_round_error, set_connected, disconnect, emit, set_socket,
             mbind, M_bind, mret, M_ret, get_state. cbn.
           match goal with
           | |- context [round_end round ?st0] =>
               destruct (Hend st0) as (r & -> & Hr1 & Hr2)
           end.
           exists (Val r). eexists _, (evs1 ++ [EvSend (Some t); EvClose]).
           split; [reflexivity|]. cbn [log].
           rewrite Hlog1, <- !app_assoc, existsb_app, Hub1, connects_app.
           split; [done|]. split; [cbn; lia|]. split; [done|].
           destruct r as [[]|]; [done | by apply Hr2 | done].
        -- eexists Blocked, _, (evs1 ++ [EvSend None]).
           split; [reflexivity|]. cbn [log].
           rewrite Hlog1, app_assoc, existsb_app, Hub1, connects_app.
           split; [done|]. split; [cbn; lia|]. split; [done|].
           split; [done|]. apply last_snoc.
    + unfold raise. cbn [on_round_error].
      destruct (Hend (mkState c None l ans tk lg)) as (r & -> & Hr1 & Hr2).
      exists (Val r). eexists _, evs1. split; [reflexivity|].
      split; [done|]. split; [done|]. split; [done|].
      destruct r as [[]|]; [done | by apply Hr2 | done].
  - destruct (Hend st1) as (r & -> & Hr1 & Hr2).
    exists (Val r), st1, evs1. split; [reflexivity|].
    split; [done|]. split; [done|]. split; [done|].
    destruct r as [[]|]; [done | by apply Hr2 | done].
  - exists Unfinished, st1, evs1. split; [reflexivity|].
    split; [done|]. split; [done|]. split; [done|]. exact Hok.
Qed.

Lemma send_loop_spec remaining : ∀ round st,
  0 ≤ round → round + Z.of_nat remaining = 3 →
  ∃ r st' evs,
    send_loop decode reads peer_at on_action remaining round st = (r, st')
    ∧ log st' = log st ++ evs
    ∧ (connects evs ≤ 3 * remaining)%nat
    ∧ existsb unbounded_wait evs = false
    ∧ match r with
      | Val true =>
          connected st' = true
          ∧ (∃ k, round ≤ k < 3 ∧ on_action k = Takes)
          ∧ ∃ t, last evs = Some (EvSend t)
      | Val false => True
      | Exc _ => False
      | Blocked =>
          (∃ k, round ≤ k < 3 ∧ on_action k = Stalls)
          ∧ last evs = Some (EvSend None)
      | Unfinished =>
          ∃ k attempt, round ≤ k < 3 ∧ 0 ≤ attempt < 3
                       ∧ keeps_reading decode reads (peer_at k attempt) = true
      end.
Proof.
  induction remaining as [|n IH]; intros round st Hr0 Hr.
  { exists (Val false), st, []. rewrite app_nil_r. by repeat split. }
  cbn [send_loop]. unfold mbind at 1, M_bind at 1.
  destruct (round_spec round st)
    as (r & st1 & evs1 & -> & Hlog1 & Hcn1 & Hub1 & Hr1).
  destruct r as [[[]|]|e| |].
  - destruct Hr1 as (Hc & Hacc & Hlast).
    exists (Val true), st1, evs1. split; [reflexivity|].
    split; [done|]. split; [lia|]. split; [done|].
    split; [done|]. split; [|done]. exists round. split; [lia | done].
  - exists (Val false), st1, evs1. split; [reflexivity|].
    split; [done|]. split; [lia|]. by split.
  - destruct (IH (round + 1) st1 ltac:(lia) ltac:(lia))
      as (r & st2 & evs2 & -> & Hlog2 & Hcn2 & Hub2 & Hr2).
    exists r, st2, (evs1 ++ evs2). split; [by destruct r as [[]| | |]|].
    rewrite Hlog2, Hlog1, <- app_assoc, existsb_app, Hub1, Hub2, connects_app.
    split; [done|]. split; [lia|]. split; [done|].
    destruct r as [[]|e| |]; [| done | done | |].
    + destruct Hr2 as (Hc & (k & Hk & Hacc) & t & Hlast).
      split; [done|]. split; [exists k; split; [lia | done]|].
      exists t. destruct evs2 as [|ev evs2]; [done|].
      by rewrite last_app, Hlast.
    + destruct Hr2 as ((k & Hk & Hacc) & Hlast).
      split; [exists k; split; [lia | done]|].
      destruct evs2 as [|ev evs2]; [done|].
      by rewrite last_app, Hlast.
    + destruct Hr2 as (k & attempt & Hk & Ha & Hkeep).
      exists k, attempt. split; [lia|]. by split.
  - done.
  - destruct Hr1 as (Hacc & Hlast).
    exists Blocked, st1, evs1. split; [reflexivity|].
    split; [done|]. split; [lia|]. split; [done|].
    split; [|done]. exists round. split; [lia | done].
  - destruct Hr1 as (attempt & Ha & Hkeep).
    exists Unfinished, st1, evs1. split; [reflexivity|].
    split; [done|]. split; [lia|]. split; [done|].
    exists round, attempt. split; [lia|]. by split.
Qed.

End ClientFacts.

(** X27. send_action raises nothing, whatever the peer does and whatever
    state the client is in, for a call that runs on its own. It makes at
    most nine connection attempts, and every connection and every read it
    makes runs under the 5 second timeout. It ends in one of four ways.
    It returns true: then the client is connected and the last thing it
    did was to hand the action to the socket, in a round in which the
    socket took it. It returns false. It is left blocked: then it is in
    the sendall of the action, made on a socket without timeout, in a
    round in which the bytes do not go out. Or it is still reading: then
    the peer of one of its connection attempts keeps the login loop
    reading. So it returns a boolean whenever no peer feeds a login loop
    beyond the reads followed and no sendall stalls. *)
Theorem send_action_never_raises (decode : string → string) (reads : nat)
    (peer_at : Z → Z → Ami.Peer) (on_action : Z → Client.send_answer)
    (st : Ami.State) :
  ∃ (r : Ami.res bool) (st' : Ami.State) (evs : list Ami.io_event),
    Client.send_action decode reads peer_at on_action st = (r, st')
    ∧ Ami.log st' = Ami.log st ++ evs
    ∧ (∀ e, r ≠ Ami.Exc e)
    ∧ (Ami.connects evs ≤ 9)%nat
    ∧ existsb Client.unbounded_wait evs = false
    ∧ (r = Ami.Val true →
         Ami.connected st' = true
         ∧ (∃ round, 0 ≤ round < 3 ∧ on_action round = Client.Takes)
         ∧ ∃ t, last evs = Some (Ami.EvSend t))
    ∧ (r = Ami.Blocked →
         (∃ round, 0 ≤ round < 3 ∧ on_action round = Client.Stalls)
         ∧ last evs = Some (Ami.EvSend None))
    ∧ (r = Ami.Unfinished →
         ∃ round attempt,
           0 ≤ round < 3 ∧ 0 ≤ attempt < 3
           ∧ Ami.keeps_reading decode reads (peer_at round attempt) = true)
    ∧ ((∀ round attempt, 0 ≤ round < 3 → 0 ≤ attempt < 3 →
          Ami.keeps_reading decode reads (peer_at round attempt) = false) →
       (∀ round, 0 ≤ round < 3 → on_action round ≠ Client.Stalls) →
       ∃ b, r = Ami.Val b).
Proof.
  destruct (send_loop_spec decode reads peer_at on_action 3 0 st ltac:(lia) eq_refl)
    as (r & st' & evs & E & Hlog & Hcn & Hub & Hr).
  exists r, st', evs. split; [exact E|]. split; [exact Hlog|].
  split; [intros e ->; exact Hr|]. split; [cbn in Hcn; lia|].
  split; [exact Hub|].
  split; [intros ->; exact Hr|]. split; [intros ->; exact Hr|].
  split; [intros ->; exact Hr|].
  intros Hnokeep Hnostall. destruct r as [b|e| |].
  - by exists b.
  - done.
  - destruct Hr as ((k & Hk & Hst) & _). by destruct (Hnostall k Hk).
  - destruct Hr as (k & attempt & Hk & Ha & Hkeep).
    rewrite (Hnokeep k attempt Hk Ha) in Hkeep. done.
Qed.

(** A peer that refuses every connection: three rounds of three attempts
    each, and the answer is no. *)
Example send_action_dead_peer :
  let r := Client.send_action (λ s, s) 4
             (λ _ _, Ami.mkPeer Ami.Refuses (λ _, Ami.Silent) false)
             (λ _, Client.Breaks) Ami.fresh in
  r.1 = Ami.Val false ∧ Ami.connects (Ami.log r.2) = 9%nat
  ∧ Ami.sleeps (Ami.log r.2) = [1; 2; 1; 2; 1; 2].
Proof. vm_compute. repeat split; reflexivity. Qed.

(** A peer that logs the client in and then stops reading: the sendall of
    the action, made after [settimeout(None)], does not return. *)
Example send_action_stalled :
  let greeting := "Asterisk Call Manager/5.0.1" +:+ Ami.CRLF in
  let accepted := "Response: Success" +:+ Ami.CRLF
                  +:+ "Message: Authentication accepted" +:+ Ami.CRLF +:+ Ami.CRLF in
  let good := Ami.mkPeer (Ami.Accepts 3)
                (Ami.script [Ami.Sends 10 greeting; Ami.Sends 20 accepted]
                   Ami.Silent) true in
  let r := Client.send_action (λ s, s) 4 (λ _ _, good) (λ _, Client.Stalls)
             Ami.fresh in
  r.1 = Ami.Blocked
  ∧ Ami.log r.2
    = [Ami.EvSettimeout (Some 5); Ami.EvConnect (Some 5); Ami.EvRecv (Some 5);
       Ami.EvSend (Some 5); Ami.EvRecv (Some 5); Ami.EvSettimeout None;
       Ami.EvSend None].
Proof. vm_compute. split; reflexivity. Qed.

(** ** A campaign run as a whole *)

Section ExecuteFacts.
Import Py CallStore DialLoop.




End ExecuteFacts.

(** X28. The guard of auto_execute_call against a second run rests on the
    way the database counts rows. With changed-rows counting (the
    connector's default), a run for a campaign whose row is in progress
    already, with the details of a started execution, ends at once with a
    status conflict: no row, no entry and no pending correlation is
    changed. With matched-rows counting the guard never fires for a row
    that exists. *)
Theorem second_run_is_stopped_by_changed_rows (announcements : gset Z)
    (call_id : Z) (campaign : string) (announcement_file : option string)
    (members : list DialLoop.Member) (pass_of : nat → DialLoop.Pass)
    (scheduled_calls : gmap Z Campaigns.CallRow) (st : DialLoop.LoopState)
    (r : Campaigns.CallRow) :
  Py.truthy announcement_file = true →
  scheduled_calls !! call_id = Some r →
  (Campaigns.status r = "in_progress" →
   Campaigns.details r = Some "Execution started" →
   Campaigns.announcement_id r ∈ announcements →
   Execute.auto_execute_call false announcements call_id campaign
     announcement_file members pass_of scheduled_calls st
   = (Execute.StatusConflict, scheduled_calls, st))
  ∧ (Execute.auto_execute_call true announcements call_id campaign
       announcement_file members pass_of scheduled_calls st).1.1
    ≠ Execute.StatusConflict.
Proof.
  intros Hfile Hrow. unfold Execute.auto_execute_call, Campaigns.execution_started,
    Campaigns.update_status. rewrite Hfile, Hrow. cbn [negb Py.truthy].
  split.
  - intros Hst Hdt Hann.
    assert (Campaigns.set_status_details r "in_progress" "Execution started" = r)
      as Hsame.
    { destruct r as [a s g c st0 d]. cbn in *. by subst. }
    rewrite Hsame. unfold Campaigns.row_changed.
    rewrite String.eqb_refl, bool_decide_eq_true_2 by done.
    cbn [orb andb negb]. rewrite insert_id by done.
    unfold Campaigns.get_by_id. rewrite Hrow.
    rewrite bool_decide_eq_true_2 by done. rewrite Hst. reflexivity.
  - cbn [orb negb andb]. by destruct members.
Qed.

Lemma second_run_is_stopped_by_changed_rows_witness :
  let row := Campaigns.mkCallRow 1 0 None "Info" "in_progress"
               (Some "Execution started") in
  let db : gmap Z Campaigns.CallRow := {[ 7 := row ]} in
  let members := [DialLoop.mkMember 3 "5551234"] in
  let pass_of := λ _ : nat,
    DialLoop.mkPass (Some "in_progress") true true "a-1" true true None ""
      1000000 in
  let st := DialLoop.mkLoopState ∅ ∅ in
  (Campaigns.status row = "in_progress" →
   Campaigns.details row = Some "Execution started" →
   Campaigns.announcement_id row ∈ ({[ 1 ]} : gset Z) →
   Execute.auto_execute_call false {[ 1 ]} 7 "7" (Some "hello.wav") members
     pass_of db st
   = (Execute.StatusConflict, db, st))
  ∧ (Execute.auto_execute_call true {[ 1 ]} 7 "7" (Some "hello.wav") members
       pass_of db st).1.1
    ≠ Execute.StatusConflict.
Proof.
  apply (second_run_is_stopped_by_changed_rows {[ 1 ]} 7 "7" (Some "hello.wav")).
  - reflexivity.
  - reflexivity.
Defined.



(** The members a run gets: the row with a NULL flag is returned with the
    rows whose flag is 0, the row whose flag is 1 is not. *)
Example null_flag_member_is_returned :
  Members.get_members_for_call (λ l, l) None false []
    [Dtmf.mkMemberRow 3 "5551234" None;
     Dtmf.mkMemberRow 4 "5555678" (Some 1);
     Dtmf.mkMemberRow 5 "5550000" (Some 0)]
  = [Dtmf.mkMemberRow 3 "5551234" None; Dtmf.mkMemberRow 5 "5550000" (Some 0)].
Proof. reflexivity. Qed.

(** ** The caller id name *)

Section ValidationFacts.
Import Validation.






End ValidationFacts.


(** White space includes the line end: a name that carries one keeps it,
    and the text of an origination with such a caller id is read as two
    blocks. *)
Example caller_id_name_keeps_line_ends :
  let name := "A" +:+ Wire.CRLF +:+ Wire.CRLF +:+ "B" in
  Validation.validate_caller_id_name (Some name) = name
  ∧ List.length
      (Wire.listen
         [Wire.action_str "Originate"
            [("CallerID", Validation.validate_caller_id_name (Some name))]] "").1
    = 2%nat.
Proof. vm_compute. split; reflexivity. Qed.
